(** * The quota-aware YouTube Data API client (services/youtubeService.ts)

    A shallow embedding of the service module: the credential pool with its
    rotation cursor, the quota ledger, the request router [fetchYouTubeAPI],
    the key validator and the aggregate fetchers built on the router.

    Conventions of the embedding.
    - The module-level variables of the service ([apiKeys], [currentKeyIndex],
      [sessionQuotaUsed], the two single-slot callbacks) are the fields of
      [State]; every function of the service is a state transformer.
    - An [async] function that can reject is a computation in the monad
      [M A := State -> (exn + A) * State]; a rejection is [inl].
    - [fetch] is an oracle of the outside world: it maps the number of
      requests issued so far and the request to the response.  Every request
      handed to [fetch] is appended to the [requests] trace of the state.
    - JavaScript numbers that count quota units are integers ([Z]); an
      optional property ([dailyUsage?: number]) is an [option].
    - Response payloads are typed after the shapes the service reads: an
      object that may be missing is an [option], and reading a property of a
      missing object is the [TypeError] that JavaScript throws.  Identifiers
      and the other leaves of a payload are strings, as the platform
      documents them and as [types.ts] declares them.
    - The state carries two ghost traces that the source does not have:
      [attempts], the key index of every pass through the [try] block of the
      router, and [routerCalls], the invocations of [fetchYouTubeAPI].  No
      function of the service reads them.
    - A function of the service in [M] is the call with nothing else in
      flight.  Where the service itself has two calls in flight, under the
      [Promise.all] of [getChannelStats], the two calls are modelled at their
      [await] points (module [InFlight]); the order in which their responses
      arrive is an oracle of the outside world ([arrival]).  What a call
      of the router does while the application has other calls in flight
      is stated with [InFlight.among].
    - [console] output is not part of the model. *)

From Stdlib Require Import ZArith Lia Ascii.
From stdpp Require Import base list strings gmap pretty.

Open Scope Z_scope.

(** ** JavaScript helpers *)

(** [a || b] on an optional string: the empty string is falsy. *)
Definition str_or (a : option string) (b : string) : string :=
  match a with
  | Some s => if decide (s = "") then b else s
  | None => b
  end.

(** [n || 0] on an optional number. *)
Definition num_or0 (n : option Z) : Z :=
  match n with Some z => z | None => 0 end.

(** [Boolean(s)] on an optional string. *)
Definition truthy (a : option string) : bool :=
  match a with
  | Some s => if decide (s = "") then false else true
  | None => false
  end.

(** White space of [String.prototype.trim], on the 8-bit code units. *)
Definition is_space (c : ascii) : bool :=
  let n := nat_of_ascii c in
  ((9 <=? n) && (n <=? 13))%nat || (n =? 32)%nat || (n =? 160)%nat.

Fixpoint trim_start (s : string) : string :=
  match s with
  | EmptyString => EmptyString
  | String c r => if is_space c then trim_start r else s
  end.

Definition trim (s : string) : string :=
  String.rev (trim_start (String.rev (trim_start s))).

(** [{ ...params, key: v }]: an own property keeps its position. *)
Fixpoint obj_set (k v : string) (o : list (string * string)) : list (string * string) :=
  match o with
  | [] => [(k, v)]
  | (k', v') :: r => if decide (k' = k) then (k, v) :: r else (k', v') :: obj_set k v r
  end.

(** ** types.ts *)

Inductive KeyStatus := valid | invalid | checking | quota_exceeded | unknown.

Global Instance KeyStatus_eq_dec : EqDecision KeyStatus.
Proof. solve_decision. Defined.

Module ApiKey.
Record t := mk {
  value : string;
  status : KeyStatus;
  error : option string;
  dailyUsage : option Z;
  lastUsedDate : option string
}.
Definition with_dailyUsage (k : t) (u : option Z) : t :=
  mk (value k) (status k) (error k) u (lastUsedDate k).
End ApiKey.

Module VideoStat.
Record t := mk {
  id : string;
  publishedAt : string;
  title : string;
  description : string;
  thumbnailUrl : string;
  viewCount : string;
  likeCount : string;
  commentCount : string
}.
End VideoStat.

Record DailyMetric := mkDailyMetric {
  date : string;
  timestamp : Z;
  dm_subscriberCount : string;
  dm_viewCount : string;
  dm_videoCount : string
}.

Module ChannelStats.
Inductive Status := active | terminated | error.
Record t := mk {
  id : string;
  title : string;
  description : string;
  customUrl : string;
  publishedAt : string;
  thumbnailUrl : string;
  subscriberCount : string;
  videoCount : string;
  viewCount : string;
  uploadsPlaylistId : string;
  history : option (list DailyMetric);
  newestVideo : option VideoStat.t;
  oldestVideo : option VideoStat.t;
  status : option Status
}.
End ChannelStats.

(** ** The outside world *)

(** A thrown value; the service reads only its [message]. *)
Inductive exn := Error (message : string).

Definition message (e : exn) : string := let 'Error m := e in m.

Record Request := mkRequest {
  endpoint : string;                  (* path segment after API_BASE_URL *)
  query : list (string * string)      (* URLSearchParams, in order *)
}.

(** The error body of a non-OK response, as far as the service reads it:
    [errorData.error?.errors?.[0]?.reason] and [errorData.error?.message]. *)
Record ErrorObject := mkErrorObject {
  errors0_reason : option string;
  error_message : option string
}.

Inductive ErrorData :=
| JsonNull                                   (* the body is the JSON text null *)
| JsonObject (error : option ErrorObject).

(** What [response.json()] settles to. *)
Inductive Parsed (A : Type) :=
| SyntaxError (msg : string)                 (* the promise rejects *)
| Json (a : A).
Arguments SyntaxError {A} msg.
Arguments Json {A} a.

(** What [fetch(url)] settles to. *)
Inductive Response (A : Type) :=
| FetchRejected (msg : string)               (* "Failed to fetch" *)
| HttpOk (body : Parsed A)                   (* response.ok *)
| HttpError (status : Z) (body : Parsed ErrorData).
Arguments FetchRejected {A} msg.
Arguments HttpOk {A} body.
Arguments HttpError {A} status body.

Definition Fetch (A : Type) := nat -> Request -> Response A.

Definition TypeError_null : exn :=
  Error "Cannot read properties of null (reading 'error')".
Definition TypeError_undefined : exn :=
  Error "Cannot read properties of undefined".

(** ** Module state *)

Record Quota := mkQuota { session : Z; daily : Z }.

Record State := mkState {
  apiKeys : list ApiKey.t;
  currentKeyIndex : nat;
  sessionQuotaUsed : Z;
  onQuotaChangeCallback : bool;        (* a callback is registered *)
  onKeyIndexChangeCallback : bool;
  (* what the collaborators have seen, oldest first *)
  quotaEvents : list Quota;            (* arguments of onQuotaChangeCallback *)
  keyIndexEvents : list nat;           (* arguments of onKeyIndexChangeCallback *)
  dbSyncs : list (string * Z);         (* api_keys updates: key_value, daily_usage *)
  requests : list Request;             (* every fetch issued *)
  attempts : list nat;                 (* ghost: the key index of every pass
                                          through the try block of the router *)
  routerCalls : list (string * list (string * string))
                                       (* ghost: invocations of fetchYouTubeAPI *)
}.

Definition set_apiKeys (ks : list ApiKey.t) (s : State) : State :=
  mkState ks (currentKeyIndex s) (sessionQuotaUsed s) (onQuotaChangeCallback s)
    (onKeyIndexChangeCallback s) (quotaEvents s) (keyIndexEvents s) (dbSyncs s)
    (requests s) (attempts s) (routerCalls s).

Definition set_currentKeyIndex (i : nat) (s : State) : State :=
  mkState (apiKeys s) i (sessionQuotaUsed s) (onQuotaChangeCallback s)
    (onKeyIndexChangeCallback s) (quotaEvents s) (keyIndexEvents s) (dbSyncs s)
    (requests s) (attempts s) (routerCalls s).

Definition set_sessionQuotaUsed (q : Z) (s : State) : State :=
  mkState (apiKeys s) (currentKeyIndex s) q (onQuotaChangeCallback s)
    (onKeyIndexChangeCallback s) (quotaEvents s) (keyIndexEvents s) (dbSyncs s)
    (requests s) (attempts s) (routerCalls s).

Definition push_quotaEvent (q : Quota) (s : State) : State :=
  mkState (apiKeys s) (currentKeyIndex s) (sessionQuotaUsed s) (onQuotaChangeCallback s)
    (onKeyIndexChangeCallback s) (quotaEvents s ++ [q]) (keyIndexEvents s) (dbSyncs s)
    (requests s) (attempts s) (routerCalls s).

Definition push_keyIndexEvent (i : nat) (s : State) : State :=
  mkState (apiKeys s) (currentKeyIndex s) (sessionQuotaUsed s) (onQuotaChangeCallback s)
    (onKeyIndexChangeCallback s) (quotaEvents s) (keyIndexEvents s ++ [i]) (dbSyncs s)
    (requests s) (attempts s) (routerCalls s).

Definition push_dbSync (u : string * Z) (s : State) : State :=
  mkState (apiKeys s) (currentKeyIndex s) (sessionQuotaUsed s) (onQuotaChangeCallback s)
    (onKeyIndexChangeCallback s) (quotaEvents s) (keyIndexEvents s) (dbSyncs s ++ [u])
    (requests s) (attempts s) (routerCalls s).

Definition push_request (r : Request) (s : State) : State :=
  mkState (apiKeys s) (currentKeyIndex s) (sessionQuotaUsed s) (onQuotaChangeCallback s)
    (onKeyIndexChangeCallback s) (quotaEvents s) (keyIndexEvents s) (dbSyncs s)
    (requests s ++ [r]) (attempts s) (routerCalls s).

Definition push_attempt (i : nat) (s : State) : State :=
  mkState (apiKeys s) (currentKeyIndex s) (sessionQuotaUsed s) (onQuotaChangeCallback s)
    (onKeyIndexChangeCallback s) (quotaEvents s) (keyIndexEvents s) (dbSyncs s)
    (requests s) (attempts s ++ [i]) (routerCalls s).

Definition push_routerCall (c : string * list (string * string)) (s : State) : State :=
  mkState (apiKeys s) (currentKeyIndex s) (sessionQuotaUsed s) (onQuotaChangeCallback s)
    (onKeyIndexChangeCallback s) (quotaEvents s) (keyIndexEvents s) (dbSyncs s)
    (requests s) (attempts s) (routerCalls s ++ [c]).

(** ** Computations that may reject *)

Definition M (A : Type) : Type := State -> (exn + A) * State.

Definition ret {A} (a : A) : M A := fun s => (inr a, s).
Definition throw {A} (e : exn) : M A := fun s => (inl e, s).
Definition bind {A B} (m : M A) (k : A -> M B) : M B :=
  fun s => match m s with
           | (inr a, s') => k a s'
           | (inl e, s') => (inl e, s')
           end.
(** [try { m } catch (e) { h e }] *)
Definition try_catch {A} (m : M A) (h : exn -> M A) : M A :=
  fun s => match m s with
           | (inr a, s') => (inr a, s')
           | (inl e, s') => h e s'
           end.
(** Reading a property of an object that may be undefined. *)
Definition deref {A} (o : option A) : M A :=
  match o with Some a => ret a | None => throw TypeError_undefined end.

Notation "'let*' x := m 'in' k" := (bind m (fun x => k))
  (at level 10, x name, m at level 100, k at level 200).

(** ** Quota ledger *)

Definition QUOTA_COSTS : gmap string Z :=
  list_to_map [("channels", 1); ("playlistItems", 1); ("videos", 1);
               ("search", 100); ("i18nLanguages", 1)].

(** [QUOTA_COSTS[endpoint] || 1] *)
Definition cost_of (endpoint : string) : Z :=
  match QUOTA_COSTS !! endpoint with
  | Some c => if c =? 0 then 1 else c
  | None => 1
  end.

Definition getTotalDailyUsage (s : State) : Z :=
  foldl (fun total key => total + num_or0 (ApiKey.dailyUsage key)) 0 (apiKeys s).

Definition getInitialQuota (s : State) : Quota :=
  mkQuota (sessionQuotaUsed s) (getTotalDailyUsage s).

Definition setOnQuotaChange (s : State) : State :=
  mkState (apiKeys s) (currentKeyIndex s) (sessionQuotaUsed s) true
    (onKeyIndexChangeCallback s) (quotaEvents s) (keyIndexEvents s) (dbSyncs s)
    (requests s) (attempts s) (routerCalls s).

Definition setOnKeyIndexChange (s : State) : State :=
  mkState (apiKeys s) (currentKeyIndex s) (sessionQuotaUsed s) (onQuotaChangeCallback s)
    true (quotaEvents s) (keyIndexEvents s) (dbSyncs s)
    (requests s) (attempts s) (routerCalls s).

(** [if (onQuotaChangeCallback) onQuotaChangeCallback({ session, daily })] *)
Definition notifyQuota (s : State) : State :=
  if onQuotaChangeCallback s
  then push_quotaEvent (mkQuota (sessionQuotaUsed s) (getTotalDailyUsage s)) s
  else s.

Definition notifyKeyIndex (i : nat) (s : State) : State :=
  if onKeyIndexChangeCallback s then push_keyIndexEvent i s else s.

(** [apiKeys.find(k => k.value === v)] *)
Definition find_key (v : string) (ks : list ApiKey.t) : option ApiKey.t :=
  List.find (fun k => bool_decide (ApiKey.value k = v)) ks.

(** [a ?? b ?? 0] *)
Definition merged_usage (newKey : ApiKey.t) (existing : option ApiKey.t) : Z :=
  match ApiKey.dailyUsage newKey with
  | Some u => u
  | None =>
      match existing with
      | Some e => num_or0 (ApiKey.dailyUsage e)
      | None => 0
      end
  end.

Definition setApiKeys (keys : list ApiKey.t) (s : State) : State :=
  let old := apiKeys s in
  let s1 :=
    set_apiKeys
      (map (fun newKey =>
              ApiKey.with_dailyUsage newKey
                (Some (merged_usage newKey (find_key (ApiKey.value newKey) old))))
           keys) s in
  let s2 :=
    if (length (apiKeys s1) <=? currentKeyIndex s1)%nat
    then set_currentKeyIndex 0 s1 else s1 in
  notifyQuota s2.

(** Declared [async] and called without [await]; its body has no [await],
    so it runs to its end within the call.  The update of the remote store
    is fire-and-forget and is recorded in [dbSyncs]. *)
Definition updateKeyUsage (keyIndex : nat) (cost : Z) (s : State) : State :=
  match apiKeys s !! keyIndex with
  | None => s
  | Some keyObj =>
      let newUsage := num_or0 (ApiKey.dailyUsage keyObj) + cost in
      let s1 := set_apiKeys
                  (<[keyIndex := ApiKey.with_dailyUsage keyObj (Some newUsage)]> (apiKeys s)) s in
      let s2 := set_sessionQuotaUsed (sessionQuotaUsed s1 + cost) s1 in
      let s3 := notifyQuota s2 in
      push_dbSync (ApiKey.value keyObj, newUsage) s3
  end.

(** ** Request router *)

(** How one pass through the [try] block of the loop ends, when it does not
    throw: with [continue], or with [return]. *)
Inductive Flow (A : Type) :=
| Continue (lastError : option exn)
| Return (a : A).
Arguments Continue {A} lastError.
Arguments Return {A} a.

(** [reason === 'quotaExceeded' || reason === 'dailyLimitExceeded' ||
     response.status === 403 || response.status === 429] *)
Definition key_related (reason : option string) (status : Z) : bool :=
  bool_decide (reason = Some "quotaExceeded")
  || bool_decide (reason = Some "dailyLimitExceeded")
  || (status =? 403) || (status =? 429).

(** The message of the [Error] built from a non-OK response. *)
Definition failure_message (error : option ErrorObject) (status : Z) : string :=
  str_or (error ≫= error_message)
         ("API Request failed with status " +:+ pretty status).

(** The body of the [try] block, for the credential at [keyIndex]. *)
Definition try_key {A} (fetch : Fetch A) (endpoint : string)
    (params : list (string * string)) (cost : Z)
    (keyIndex : nat) (apiKeyObj : ApiKey.t) : State -> (exn + Flow A) * State :=
  fun s =>
  let req := mkRequest endpoint (obj_set "key" (ApiKey.value apiKeyObj) params) in
  let response := fetch (length (requests s)) req in
  let s := push_attempt keyIndex (push_request req s) in
  match response with
  | FetchRejected msg => (inl (Error msg), s)
  | HttpError status body =>
      let errorData :=
        match body with SyntaxError _ => JsonObject None | Json d => d end in
      match errorData with
      | JsonNull => (inl TypeError_null, s)
      | JsonObject error =>
          let reason := error ≫= errors0_reason in
          let lastError := Error (failure_message error status) in
          if key_related reason status
          then (inr (Continue (Some lastError)), s)
          else (inl lastError, s)                      (* throw lastError *)
      end
  | HttpOk body =>
      let s := updateKeyUsage keyIndex cost s in
      let s := set_currentKeyIndex keyIndex s in
      let s := notifyKeyIndex keyIndex s in
      match body with
      | SyntaxError msg => (inl (Error msg), s)
      | Json a => (inr (Return a), s)
      end
  end.

(** The two [continue] guards at the head of the loop body. *)
Definition skipped (n : nat) (cost : Z) (apiKeyObj : ApiKey.t) : bool :=
  ((1 <? n)%nat
   && (bool_decide (ApiKey.status apiKeyObj = invalid)
       || bool_decide (ApiKey.status apiKeyObj = quota_exceeded)))
  || ((10000 <? num_or0 (ApiKey.dailyUsage apiKeyObj) + cost) && (1 <? n)%nat).

Definition exhausted (lastError : option exn) : exn :=
  Error ("API Request failed after trying all keys: "
         +:+ str_or (message <$> lastError) "Check connection.").

(** The [for] loop, over the values of [i] still to come.  Nothing in the
    loop changes the length of [apiKeys], so the bound [i < apiKeys.length]
    is the one read on entry. *)
Fixpoint rotate {A} (fetch : Fetch A) (endpoint : string)
    (params : list (string * string)) (cost : Z) (startIndex : nat)
    (todo : list nat) (lastError : option exn) (s : State) : (exn + A) * State :=
  match todo with
  | [] => (inl (exhausted lastError), s)
  | i :: todo' =>
      let n := length (apiKeys s) in
      let keyIndex := ((startIndex + i) mod n)%nat in
      match apiKeys s !! keyIndex with
      | None => (inl TypeError_undefined, s)
      | Some apiKeyObj =>
          if skipped n cost apiKeyObj
          then rotate fetch endpoint params cost startIndex todo' lastError s
          else
            match try_key fetch endpoint params cost keyIndex apiKeyObj s with
            | (inr (Return a), s') => (inr a, s')
            | (inr (Continue lastError'), s') =>
                rotate fetch endpoint params cost startIndex todo' lastError' s'
            | (inl error, s') =>                        (* catch (error) *)
                rotate fetch endpoint params cost startIndex todo' (Some error) s'
            end
      end
  end.

Definition fetchYouTubeAPI {A} (fetch : Fetch A) (endpoint : string)
    (params : list (string * string)) : M A :=
  fun s =>
  let s := push_routerCall (endpoint, params) s in
  if (length (apiKeys s) =? 0)%nat
  then (inl (Error "Please configure at least one YouTube Data API key in Settings."), s)
  else
    let cost := cost_of endpoint in
    let startIndex := currentKeyIndex s in
    rotate fetch endpoint params cost startIndex (seq 0 (length (apiKeys s))) None s.

(** ** Credential validator *)

Record Validation := mkValidation {
  v_status : KeyStatus;
  v_error : option string
}.

(** ** Payloads of the four endpoints the fetchers read *)

Record Thumbnails := mkThumbnails {
  high : option string;          (* thumbnails.high, carrying its url *)
  default_url : string           (* thumbnails.default.url *)
}.

Module Channel.
Record Snippet := mkSnippet {
  title : string;
  description : string;
  customUrl : option string;
  publishedAt : string;
  thumbnails : Thumbnails
}.
Record Statistics := mkStatistics {
  subscriberCount : string;
  videoCount : string;
  viewCount : string
}.
Record t := mk {
  id : string;
  snippet : option Snippet;
  statistics : option Statistics;
  uploads : option string        (* contentDetails.relatedPlaylists, carrying uploads *)
}.
Record List := mkList { items : option (list t) }.
End Channel.

Module PlaylistItem.
Record ResourceId := mkResourceId { videoId : option string }.
Record Snippet := mkSnippet { resourceId : option ResourceId }.
Record t := mk { snippet : option Snippet }.
Record List := mkList {
  items : option (list t);
  nextPageToken : option string
}.
End PlaylistItem.

Module Video.
Record Snippet := mkSnippet {
  publishedAt : string;
  title : string;
  description : string;
  thumbnails : Thumbnails
}.
Record Statistics := mkStatistics {
  viewCount : string;
  likeCount : string;
  commentCount : string
}.
Record t := mk {
  id : string;
  snippet : option Snippet;
  statistics : option Statistics
}.
Record List := mkList { items : option (list t) }.
End Video.

Module SearchResult.
Record Snippet := mkSnippet {
  channelId : string;
  publishedAt : string;
  title : string;
  description : string;
  thumbnails : Thumbnails
}.
Record t := mk {
  videoId : option string;       (* the id object, carrying videoId *)
  snippet : option Snippet
}.
Record List := mkList { items : option (list t) }.
End SearchResult.

(** The platform, and the clock and calendar of the JavaScript runtime. *)
Record World := mkWorld {
  channels : Fetch Channel.List;
  playlistItems : Fetch PlaylistItem.List;
  videos : Fetch Video.List;
  search : Fetch SearchResult.List;
  now : string;                              (* new Date().toISOString() *)
  minus12h : string -> option string;        (* None: Invalid Date, toISOString throws *)
  getTime : string -> option Z;              (* None: NaN *)
  arrival : nat -> nat -> bool
    (* of two calls started together when [t] requests had been issued,
       [arrival t n] tells whether the [n]-th response or body to arrive
       belongs to the first *)
}.

Definition validateYouTubeApiKey (w : World) (key : string) : M Validation :=
  if bool_decide (key = "") || bool_decide (trim key = "")
  then ret (mkValidation invalid (Some "Key cannot be empty."))
  else
    try_catch
      (fun s =>
         let req := mkRequest "channels"
                      [("part", "id"); ("id", "UC_x5XG1OV2P6uZZ5FSM9Ttw"); ("key", key)] in
         let response := channels w (length (requests s)) req in
         let s := push_request req s in
         match response with
         | FetchRejected msg => (inl (Error msg), s)
         | HttpError _ (SyntaxError msg) => (inl (Error msg), s)
         | HttpError _ (Json JsonNull) => (inl TypeError_null, s)
         | HttpError _ (Json (JsonObject error)) =>
             let reason := error ≫= errors0_reason in
             if bool_decide (reason = Some "quotaExceeded")
                || bool_decide (reason = Some "dailyLimitExceeded")
             then (inr (mkValidation quota_exceeded (Some "Quota Exceeded")), s)
             else (inr (mkValidation invalid
                          (Some (str_or (error ≫= error_message) "Invalid key"))), s)
         | HttpOk _ => (inr (mkValidation valid None), s)
         end)
      (fun err => ret (mkValidation invalid (Some (message err)))).

(** ** Aggregate fetchers *)

Definition resolveChannelId (w : World) (channelIdentifier : string) : M string :=
  if String.prefix "UC" channelIdentifier then ret channelIdentifier
  else
    let* byName :=
      try_catch
        (let* data := fetchYouTubeAPI (channels w) "channels"
                        [("part", "id"); ("forUsername", channelIdentifier)] in
         match Channel.items data with
         | Some (c :: _) => ret (Some (Channel.id c))
         | _ => ret None
         end)
        (fun _ => ret None) in
    match byName with
    | Some found => ret found
    | None =>
        let* bySearch :=
          try_catch
            (let* searchData := fetchYouTubeAPI (search w) "search"
                                  [("part", "snippet"); ("q", channelIdentifier);
                                   ("type", "channel"); ("maxResults", "1")] in
             match SearchResult.items searchData with
             | Some (r :: _) =>
                 let* sn := deref (SearchResult.snippet r) in
                 ret (Some (SearchResult.channelId sn))
             | _ => ret None
             end)
            (fun _ => ret None) in
        match bySearch with
        | Some found => ret found
        | None => ret channelIdentifier
        end
    end.

(** [thumbnails.high?.url || thumbnails.default.url] *)
Definition thumbnail_of (t : Thumbnails) : string :=
  str_or (high t) (default_url t).

(** [items.sort((a, b) => time a - time b)]: a stable insertion sort; a
    comparison with an unreadable date is NaN, which [sort] takes for 0. *)
Definition cmp_publishedAt (w : World) (a b : VideoStat.t) : Z :=
  match getTime w (VideoStat.publishedAt a), getTime w (VideoStat.publishedAt b) with
  | Some x, Some y => x - y
  | _, _ => 0
  end.

Fixpoint insert_by (cmp : VideoStat.t -> VideoStat.t -> Z) (x : VideoStat.t)
    (l : list VideoStat.t) : list VideoStat.t :=
  match l with
  | [] => [x]
  | y :: r => if cmp x y <=? 0 then x :: l else y :: insert_by cmp x r
  end.

Definition sort_by (cmp : VideoStat.t -> VideoStat.t -> Z) (l : list VideoStat.t) :
    list VideoStat.t :=
  foldr (insert_by cmp) [] l.

(** The callback of [data.items.map] in [getAbsoluteOldestVideo]; [None] is
    a [TypeError]. *)
Definition search_to_video (item : SearchResult.t) : option VideoStat.t :=
  videoId ← SearchResult.videoId item;
  sn ← SearchResult.snippet item;
  Some (VideoStat.mk videoId (SearchResult.publishedAt sn) (SearchResult.title sn)
          (SearchResult.description sn) (thumbnail_of (SearchResult.thumbnails sn))
          "0" "0" "0").

Definition getAbsoluteOldestVideo (w : World) (channelId channelPublishedAt : string) :
    M (option VideoStat.t) :=
  try_catch
    (let* startDate := deref (minus12h w channelPublishedAt) in
     let* data := fetchYouTubeAPI (search w) "search"
                    [("part", "snippet"); ("channelId", channelId); ("type", "video");
                     ("order", "date"); ("publishedAfter", startDate);
                     ("maxResults", "50")] in
     match SearchResult.items data with
     | None | Some [] => ret None
     | Some its =>
         let* mapped := deref (mapM search_to_video its) in
         ret (head (sort_by (cmp_publishedAt w) mapped))
     end)
    (fun _ => ret None).

(** The record built from a [videos] resource; [None] is a [TypeError]. *)
Definition video_to_stat (item : Video.t) : option VideoStat.t :=
  sn ← Video.snippet item;
  st ← Video.statistics item;
  Some (VideoStat.mk (Video.id item) (Video.publishedAt sn) (Video.title sn)
          (Video.description sn) (thumbnail_of (Video.thumbnails sn))
          (Video.viewCount st) (Video.likeCount st) (Video.commentCount st)).

(** [String(x)] of a video id that may be undefined. *)
Definition string_of_id (x : option string) : string :=
  match x with Some v => v | None => "undefined" end.

Definition getAbsoluteNewestVideo (w : World) (uploadsPlaylistId : string) :
    M (option VideoStat.t) :=
  try_catch
    (let* playlistData := fetchYouTubeAPI (playlistItems w) "playlistItems"
                            [("part", "snippet"); ("playlistId", uploadsPlaylistId);
                             ("maxResults", "1")] in
     match PlaylistItem.items playlistData with
     | None | Some [] => ret None
     | Some (first :: _) =>
         let* sn := deref (PlaylistItem.snippet first) in
         let* rid := deref (PlaylistItem.resourceId sn) in
         let videoId := PlaylistItem.videoId rid in
         let* statsData := fetchYouTubeAPI (videos w) "videos"
                             [("part", "snippet,statistics");
                              ("id", string_of_id videoId)] in
         match Video.items statsData with
         | None | Some [] => ret None
         | Some (item :: _) =>
             let* v := deref (video_to_stat item) in
             ret (Some v)
         end
     end)
    (fun _ => ret None).

(** The record returned from the [catch] block of [getChannelStats]. *)
Definition placeholder (w : World) (resolvedId : string) : ChannelStats.t :=
  ChannelStats.mk
    (if String.prefix "UC" resolvedId then resolvedId else "INVALID_ID")
    resolvedId
    "Channel unavailable or terminated."
    resolvedId
    (now w)
    "https://www.gstatic.com/youtube/img/branding/youtubelogo/svg/youtubelogo.svg"
    "0" "0" "0" ""
    (Some [])
    None None
    (Some ChannelStats.terminated).

(** ** Calls in flight

    [getChannelStats] starts its two sub-fetches under [Promise.all] and
    awaits them together, so two calls of the router run at once: each
    runs until it awaits the network, and goes on, in the state it finds
    then, when its response or the body of its response arrives.  The
    functions above are the calls with nothing else in flight; here are
    the same calls at their awaits.  Every response and every body is
    taken to arrive in a turn of the event loop of its own. *)

Module InFlight.

(** A call that has been started: settled, or suspended at an [await] on
    the network, with what it does when it is resumed. *)
#[warnings="-register-all"] Inductive Task (A : Type) : Type :=
| Settled (r : exn + A)
| Suspended (resume : State -> Task A * State).
Arguments Settled {A} r.
Arguments Suspended {A} resume.

(** An async function: called in a state, it runs up to its first pending
    [await]. *)
Definition T (A : Type) : Type := State -> Task A * State.

Definition ret {A} (a : A) : T A := fun s => (Settled (inr a), s).
Definition throw {A} (e : exn) : T A := fun s => (Settled (inl e), s).
Definition deref {A} (o : option A) : T A :=
  match o with Some a => ret a | None => throw TypeError_undefined end.

(** The code after an [await]: it runs in the turn in which the awaited
    call settles. *)
Fixpoint and_then {A B} (t : Task A) (k : A -> T B) (s : State) : Task B * State :=
  match t with
  | Settled (inr a) => k a s
  | Settled (inl e) => (Settled (inl e), s)
  | Suspended resume =>
      (Suspended (fun s' => let (t', s'') := resume s' in and_then t' k s''), s)
  end.

Definition bind {A B} (m : T A) (k : A -> T B) : T B :=
  fun s => let (t, s1) := m s in and_then t k s1.

(** [try { m } catch (e) { h e }] around awaits. *)
Fixpoint or_else {A} (t : Task A) (h : exn -> T A) (s : State) : Task A * State :=
  match t with
  | Settled (inr a) => (Settled (inr a), s)
  | Settled (inl e) => h e s
  | Suspended resume =>
      (Suspended (fun s' => let (t', s'') := resume s' in or_else t' h s''), s)
  end.

Definition try_catch {A} (m : T A) (h : exn -> T A) : T A :=
  fun s => let (t, s1) := m s in or_else t h s1.

Notation "'let+' x := m 'in' k" := (bind m (fun x => k))
  (at level 10, x name, m at level 100, k at level 200).

(** The call resumed as soon as it is suspended: nothing else is in
    flight. *)
Fixpoint run {A} (t : Task A) (s : State) : (exn + A) * State :=
  match t with
  | Settled r => (r, s)
  | Suspended resume => let (t', s') := resume s in run t' s'
  end.

Definition alone {A} (m : T A) : M A := fun s => let (t, s1) := m s in run t s1.

(** The call resumed among others: before it is resumed for the [n]-th
    time, what else is in flight has changed the state by [others n]. *)
Fixpoint run_among {A} (others : nat -> State -> State) (n : nat) (t : Task A)
    (s : State) : (exn + A) * State :=
  match t with
  | Settled r => (r, s)
  | Suspended resume =>
      let (t', s') := resume (others n s) in run_among others (S n) t' s'
  end.

Definition among {A} (others : nat -> State -> State) (m : T A) : M A :=
  fun s => let (t, s1) := m s in run_among others 0 t s1.

(** The [for] loop of [fetchYouTubeAPI] at its awaits.  The guards are
    read and the request goes out in one turn; the credential is charged
    in the turn in which the response arrives, from the usage it has
    then; the body is read in a later turn. *)
Fixpoint rotate {A} (fetch : Fetch A) (endpoint : string)
    (params : list (string * string)) (cost : Z) (startIndex : nat)
    (todo : list nat) (lastError : option exn) (s : State) : Task A * State :=
  match todo with
  | [] => (Settled (inl (exhausted lastError)), s)
  | i :: todo' =>
      let n := length (apiKeys s) in
      let keyIndex := ((startIndex + i) mod n)%nat in
      match apiKeys s !! keyIndex with
      | None => (Settled (inl TypeError_undefined), s)
      | Some apiKeyObj =>
          if skipped n cost apiKeyObj
          then rotate fetch endpoint params cost startIndex todo' lastError s
          else
            let next := rotate fetch endpoint params cost startIndex todo' in
            let req := mkRequest endpoint (obj_set "key" (ApiKey.value apiKeyObj) params) in
            let response := fetch (length (requests s)) req in
            (Suspended (fun s =>                         (* await fetch(...) *)
               match response with
               | FetchRejected msg => next (Some (Error msg)) s
               | HttpError status body =>
                   (Suspended (fun s =>                  (* await response.json().catch(...) *)
                      let errorData :=
                        match body with SyntaxError _ => JsonObject None | Json d => d end in
                      match errorData with
                      | JsonNull => next (Some TypeError_null) s
                      | JsonObject error =>
                          let reason := error ≫= errors0_reason in
                          let lastError := Error (failure_message error status) in
                          if key_related reason status
                          then next (Some lastError) s   (* continue *)
                          else next (Some lastError) s   (* throw lastError; catch *)
                      end), s)
               | HttpOk body =>
                   let s := updateKeyUsage keyIndex cost s in
                   let s := set_currentKeyIndex keyIndex s in
                   let s := notifyKeyIndex keyIndex s in
                   (Suspended (fun s =>                  (* await response.json() *)
                      match body with
                      | SyntaxError msg => next (Some (Error msg)) s
                      | Json a => (Settled (inr a), s)
                      end), s)
               end),
             push_attempt keyIndex (push_request req s))
      end
  end.

Definition fetchYouTubeAPI {A} (fetch : Fetch A) (endpoint : string)
    (params : list (string * string)) : T A :=
  fun s =>
  let s := push_routerCall (endpoint, params) s in
  if (length (apiKeys s) =? 0)%nat
  then (Settled
          (inl (Error "Please configure at least one YouTube Data API key in Settings.")),
        s)
  else
    let cost := cost_of endpoint in
    let startIndex := currentKeyIndex s in
    rotate fetch endpoint params cost startIndex (seq 0 (length (apiKeys s))) None s.

Definition getAbsoluteOldestVideo (w : World) (channelId channelPublishedAt : string) :
    T (option VideoStat.t) :=
  try_catch
    (let+ startDate := deref (minus12h w channelPublishedAt) in
     let+ data := fetchYouTubeAPI (search w) "search"
                    [("part", "snippet"); ("channelId", channelId); ("type", "video");
                     ("order", "date"); ("publishedAfter", startDate);
                     ("maxResults", "50")] in
     match SearchResult.items data with
     | None | Some [] => ret None
     | Some its =>
         let+ mapped := deref (mapM search_to_video its) in
         ret (head (sort_by (cmp_publishedAt w) mapped))
     end)
    (fun _ => ret None).

Definition getAbsoluteNewestVideo (w : World) (uploadsPlaylistId : string) :
    T (option VideoStat.t) :=
  try_catch
    (let+ playlistData := fetchYouTubeAPI (playlistItems w) "playlistItems"
                            [("part", "snippet"); ("playlistId", uploadsPlaylistId);
                             ("maxResults", "1")] in
     match PlaylistItem.items playlistData with
     | None | Some [] => ret None
     | Some (first :: _) =>
         let+ sn := deref (PlaylistItem.snippet first) in
         let+ rid := deref (PlaylistItem.resourceId sn) in
         let videoId := PlaylistItem.videoId rid in
         let+ statsData := fetchYouTubeAPI (videos w) "videos"
                             [("part", "snippet,statistics");
                              ("id", string_of_id videoId)] in
         match Video.items statsData with
         | None | Some [] => ret None
         | Some (item :: _) =>
             let+ v := deref (video_to_stat item) in
             ret (Some v)
         end
     end)
    (fun _ => ret None).

(** [await Promise.all([a, b])] of two calls that have been started: of
    two suspended calls the one whose response or body arrives is resumed,
    in the order [first]; the promise is fulfilled when both calls are,
    and rejected as soon as one is. *)
Fixpoint Promise_all {A B} (first : nat -> bool) (a : Task A) :
    Task B -> nat -> State -> (exn + (A * B)) * State :=
  fix wait (b : Task B) (n : nat) (s : State) {struct b} :=
    match a, b with
    | Settled (inl e), _ => (inl e, s)
    | _, Settled (inl e) => (inl e, s)
    | Settled (inr x), Settled (inr y) => (inr (x, y), s)
    | Suspended resume, Settled (inr _) =>
        let (a', s') := resume s in Promise_all first a' b (S n) s'
    | Settled (inr _), Suspended resume =>
        let (b', s') := resume s in wait b' (S n) s'
    | Suspended resume_a, Suspended resume_b =>
        if first n
        then let (a', s') := resume_a s in Promise_all first a' b (S n) s'
        else let (b', s') := resume_b s in wait b' (S n) s'
    end.

End InFlight.

(** The two sub-fetches of [getChannelStats]: the array literal starts the
    search for the newest video, reads [channel.snippet.publishedAt], starts
    the search for the oldest one, and [Promise.all] awaits both. *)
Definition newest_and_oldest (w : World) (uploadsPlaylistId : string)
    (channel : Channel.t) : M (option VideoStat.t * option VideoStat.t) :=
  fun s =>
  let (newest, s1) := InFlight.getAbsoluteNewestVideo w uploadsPlaylistId s in
  match Channel.snippet channel with
  | None => (inl TypeError_undefined, s1)
  | Some sn =>
      let (oldest, s2) :=
        InFlight.getAbsoluteOldestVideo w (Channel.id channel) (Channel.publishedAt sn) s1 in
      InFlight.Promise_all (arrival w (length (requests s))) newest oldest 0 s2
  end.

Definition getChannelStats (w : World) (channelIdentifier : string) : M ChannelStats.t :=
  let* resolvedId := resolveChannelId w channelIdentifier in
  try_catch
    (let* channelData := fetchYouTubeAPI (channels w) "channels"
                           [("part", "snippet,statistics,contentDetails");
                            ("id", resolvedId)] in
     match Channel.items channelData with
     | None | Some [] => throw (Error "NOT_FOUND")
     | Some (channel :: _) =>
         let* uploadsPlaylistId := deref (Channel.uploads channel) in
         let* both := newest_and_oldest w uploadsPlaylistId channel in
         let* sn := deref (Channel.snippet channel) in
         let* thumbnailUrl := deref (high (Channel.thumbnails sn)) in
         let* st := deref (Channel.statistics channel) in
         ret (ChannelStats.mk
                (Channel.id channel)
                (Channel.title sn)
                (Channel.description sn)
                (str_or (Channel.customUrl sn) "")
                (Channel.publishedAt sn)
                thumbnailUrl
                (Channel.subscriberCount st)
                (Channel.videoCount st)
                (Channel.viewCount st)
                uploadsPlaylistId
                (Some [])
                both.1 both.2
                (Some ChannelStats.active))
     end)
    (fun _ => ret (placeholder w resolvedId)).

(** The callback of [data.items.map] in [getChannelStatsBatch]; [None] is a
    [TypeError]. *)
Definition channel_to_stats (item : Channel.t) : option ChannelStats.t :=
  sn ← Channel.snippet item;
  st ← Channel.statistics item;
  up ← Channel.uploads item;
  Some (ChannelStats.mk
          (Channel.id item) (Channel.title sn) (Channel.description sn)
          (str_or (Channel.customUrl sn) "") (Channel.publishedAt sn)
          (thumbnail_of (Channel.thumbnails sn))
          (Channel.subscriberCount st) (Channel.videoCount st) (Channel.viewCount st)
          up None None None (Some ChannelStats.active)).

(** One pass through the body of the [for] loop of [getChannelStatsBatch],
    for the chunk already sliced. *)
Definition batch_chunk (w : World) (chunk : list string)
    (results : list ChannelStats.t) : M (list ChannelStats.t) :=
  try_catch
    (let* data := fetchYouTubeAPI (channels w) "channels"
                    [("part", "snippet,statistics,contentDetails");
                     ("id", String.concat "," chunk); ("maxResults", "50")] in
     match Channel.items data with
     | Some its =>
         let* mapped := deref (mapM channel_to_stats its) in
         ret (results ++ mapped)
     | None => ret results
     end)
    (fun _ => ret results).

(** [for (let i = 0; i < channelIds.length; i += 50)]; the loop runs at most
    [channelIds.length] times, which bounds [fuel]. *)
Fixpoint batch_loop (w : World) (channelIds : list string) (fuel i : nat)
    (results : list ChannelStats.t) : M (list ChannelStats.t) :=
  match fuel with
  | O => ret results
  | S fuel' =>
      if (i <? length channelIds)%nat
      then
        let chunk := take 50 (drop i channelIds) in       (* slice(i, i + 50) *)
        let* results' := batch_chunk w chunk results in
        batch_loop w channelIds fuel' (i + 50) results'
      else ret results
  end.

Definition getChannelStatsBatch (w : World) (channelIds : list string) :
    M (list ChannelStats.t) :=
  if (length channelIds =? 0)%nat then ret []
  else batch_loop w channelIds (length channelIds) 0 [].

Record VideoPage := mkVideoPage {
  page_videos : list VideoStat.t;
  page_nextPageToken : option string
}.

(** [new Map(items.map(item => [item.id, item]))]: a later entry replaces an
    earlier one with the same id. *)
Definition video_map (items : list Video.t) : gmap string Video.t :=
  foldl (fun m item => <[Video.id item := item]> m) ∅ items.

(** [item.snippet?.resourceId?.videoId] *)
Definition videoId_opt (item : PlaylistItem.t) : option string :=
  sn ← PlaylistItem.snippet item;
  rid ← PlaylistItem.resourceId sn;
  PlaylistItem.videoId rid.

(** [item.snippet.resourceId.videoId]; the outer [None] is a [TypeError]. *)
Definition videoId_strict (item : PlaylistItem.t) : option (option string) :=
  sn ← PlaylistItem.snippet item;
  rid ← PlaylistItem.resourceId sn;
  Some (PlaylistItem.videoId rid).

(** The callback that rebuilds one entry; the outer [None] is a
    [TypeError], the inner [None] is [null]. *)
Definition rebuild (videoDataMap : gmap string Video.t) (id : option string) :
    option (option VideoStat.t) :=
  match id ≫= (fun k => videoDataMap !! k) with
  | None => Some None
  | Some item => Some <$> video_to_stat item
  end.

(** The parameters of the playlist call. *)
Definition playlistParams (playlistId : string) (maxResults : Z)
    (pageToken : option string) : list (string * string) :=
  let params :=
    [("part", "snippet"); ("playlistId", playlistId); ("maxResults", pretty maxResults)] in
  if truthy pageToken
  then obj_set "pageToken" (string_of_id pageToken) params
  else params.

(** [items.map(item => item.snippet?.resourceId?.videoId).filter(Boolean).join(',')] *)
Definition videoIds (pitems : list PlaylistItem.t) : string :=
  String.concat ","
    (omap (fun item => let v := videoId_opt item in if truthy v then v else None) pitems).

Definition getChannelVideos (w : World) (playlistId : string) (maxResults : Z)
    (pageToken : option string) : M VideoPage :=
  try_catch
    (let* playlistData := fetchYouTubeAPI (playlistItems w) "playlistItems"
                            (playlistParams playlistId maxResults pageToken) in
     match PlaylistItem.items playlistData with
     | None | Some [] => ret (mkVideoPage [] None)
     | Some pitems =>
         if bool_decide (videoIds pitems = "")
         then ret (mkVideoPage [] (PlaylistItem.nextPageToken playlistData))
         else
           let* videosData := fetchYouTubeAPI (videos w) "videos"
                                [("part", "snippet,statistics"); ("id", videoIds pitems)] in
           let* vitems := deref (Video.items videosData) in
           let videoDataMap := video_map vitems in
           let* originalOrderVideoIds := deref (mapM videoId_strict pitems) in
           let* rebuilt := deref (mapM (rebuild videoDataMap) originalOrderVideoIds) in
           ret (mkVideoPage (omap (fun v => v) rebuilt)
                            (PlaylistItem.nextPageToken playlistData))
     end)
    (fun _ => ret (mkVideoPage [] None)).

(** ** Vocabulary of the statements *)

(** The key index visited at iteration [i] of the router's loop. *)
Definition idx (startIndex n i : nat) : nat := ((startIndex + i) mod n)%nat.

(** The key indices in the order in which the loop visits them. *)
Definition rotation (s : State) : list nat :=
  map (idx (currentKeyIndex s) (length (apiKeys s))) (seq 0 (length (apiKeys s))).

(** The credential at [k] passes both guards of the loop. *)
Definition eligibleb (s : State) (cost : Z) (k : nat) : bool :=
  match apiKeys s !! k with
  | Some key => negb (skipped (length (apiKeys s)) cost key)
  | None => false
  end.

(** The credentials that the loop attempts from state [s], when the values
    of [i] still to come are [todo]. *)
Definition visit (cost : Z) (startIndex : nat) (s : State) (todo : list nat) : list nat :=
  List.filter (eligibleb s cost) (map (idx startIndex (length (apiKeys s))) todo).

Definition eligible (s : State) (cost : Z) : list nat :=
  List.filter (eligibleb s cost) (rotation s).

(** The request that carries the credential at [k]. *)
Definition req_at (endpoint : string) (params : list (string * string))
    (s : State) (k : nat) : Request :=
  mkRequest endpoint
    (obj_set "key" (from_option ApiKey.value "" (apiKeys s !! k)) params).

(** The error that one attempt leaves in [lastError]; [None] when the
    attempt succeeds. *)
Definition observed {A} (response : Response A) : option exn :=
  match response with
  | FetchRejected msg => Some (Error msg)
  | HttpError status (SyntaxError _) => Some (Error (failure_message None status))
  | HttpError status (Json JsonNull) => Some TypeError_null
  | HttpError status (Json (JsonObject error)) =>
      Some (Error (failure_message error status))
  | HttpOk (SyntaxError msg) => Some (Error msg)
  | HttpOk (Json _) => None
  end.

(** The error of the last credential attempted, when every eligible
    credential is attempted and none succeeds. *)
Definition last_observed {A} (fetch : Fetch A) (endpoint : string)
    (params : list (string * string)) (s : State) (cost : Z) : option exn :=
  k ← last (eligible s cost);
  observed (fetch (length (requests s) + length (eligible s cost) - 1)%nat
                  (req_at endpoint params s k)).

(** The skip policy in the words of the specification: the credential at
    [k] is neither invalid nor out of quota, and the cost fits under its
    daily cap of 10,000 units. *)
Definition acceptable (s : State) (cost : Z) (k : nat) : bool :=
  match apiKeys s !! k with
  | Some key =>
      negb (bool_decide (ApiKey.status key = invalid))
      && negb (bool_decide (ApiKey.status key = quota_exceeded))
      && (num_or0 (ApiKey.dailyUsage key) + cost <=? 10000)
  | None => false
  end.

(** The sum of the credentials' daily usage. *)
Definition sum_usage (ks : list ApiKey.t) : Z :=
  foldr Z.add 0 (map (fun key => num_or0 (ApiKey.dailyUsage key)) ks).

(** [dailyUsage || 0] of the credential at [k]. *)
Definition usage_at (s : State) (k : nat) : Z :=
  from_option (fun key => num_or0 (ApiKey.dailyUsage key)) 0 (apiKeys s !! k).

(** The channel-metadata call of [getChannelStats], and what it is for that
    call to fail or to resolve to no metadata. *)
Definition metadata_call (w : World) (resolvedId : string) : M Channel.List :=
  fetchYouTubeAPI (channels w) "channels"
    [("part", "snippet,statistics,contentDetails"); ("id", resolvedId)].

Definition no_metadata (w : World) (resolvedId : string) (s : State) : Prop :=
  match (metadata_call w resolvedId s).1 with
  | inl _ => True
  | inr data => Channel.items data = None \/ Channel.items data = Some []
  end.

(** The ids of a playlist page that are defined, in page order. *)
Definition defined_ids (ids : list (option string)) : list string :=
  omap (fun x => x) ids.

(** The identifier list cut into consecutive chunks of [size]. *)
Fixpoint chunks_fuel (fuel size : nat) (l : list string) : list (list string) :=
  match fuel with
  | O => []
  | S fuel' =>
      match l with
      | [] => []
      | _ => take size l :: chunks_fuel fuel' size (drop size l)
      end
  end.

Definition chunks (size : nat) (l : list string) : list (list string) :=
  chunks_fuel (length l) size l.

(** What one chunk adds to the result of the batch fetch: the records of
    the channels the call returned, nothing when the call fails. *)
Definition chunk_call (w : World) (chunk : list string) : M Channel.List :=
  fetchYouTubeAPI (channels w) "channels"
    [("part", "snippet,statistics,contentDetails");
     ("id", String.concat "," chunk); ("maxResults", "50")].

Definition chunk_result (w : World) (chunk : list string) (s : State) :
    list ChannelStats.t * State :=
  match chunk_call w chunk s with
  | (inr data, s') =>
      (from_option (fun x => x) [] (Channel.items data ≫= mapM channel_to_stats), s')
  | (inl _, s') => ([], s')
  end.

Fixpoint chunk_results (w : World) (cs : list (list string)) (s : State) :
    list (list ChannelStats.t) * State :=
  match cs with
  | [] => ([], s)
  | c :: cs' =>
      let '(r, s1) := chunk_result w c s in
      let '(rs, s2) := chunk_results w cs' s1 in
      (r :: rs, s2)
  end.

(** What the ledger looks like after the attempt with the credential at [k],
    by the response the attempt got. *)
Definition ledger_after {A} (response : Response A) (cost : Z) (k : nat)
    (key : ApiKey.t) (s s1 : State) : Prop :=
  match response with
  | HttpOk _ =>
      apiKeys s1
      = <[k := ApiKey.with_dailyUsage key
                 (Some (num_or0 (ApiKey.dailyUsage key) + cost))]> (apiKeys s)
      /\ sessionQuotaUsed s1 = sessionQuotaUsed s + cost
      /\ getTotalDailyUsage s1 = getTotalDailyUsage s + cost
      /\ currentKeyIndex s1 = k
      /\ quotaEvents s1
         = quotaEvents s ++
           (if onQuotaChangeCallback s
            then [mkQuota (sessionQuotaUsed s + cost) (getTotalDailyUsage s + cost)]
            else [])
  | _ =>
      apiKeys s1 = apiKeys s
      /\ sessionQuotaUsed s1 = sessionQuotaUsed s
      /\ getTotalDailyUsage s1 = getTotalDailyUsage s
      /\ currentKeyIndex s1 = currentKeyIndex s
      /\ quotaEvents s1 = quotaEvents s
  end.

(** ** Scenarios *)

Definition key (v : string) (st : KeyStatus) (u : option Z) : ApiKey.t :=
  ApiKey.mk v st None u None.

Definition fresh (ks : list ApiKey.t) : State :=
  mkState ks 0 0 true true [] [] [] [] [] [].

(** The credential a request carries. *)
Definition key_of (r : Request) : string :=
  match List.find (fun p => bool_decide (p.1 = "key")) (query r) with
  | Some p => p.2
  | None => ""
  end.

Definition bad_request : ErrorData :=
  JsonObject (Some (mkErrorObject (Some "badRequest") (Some "Bad Request"))).

(** Credential k0 gets 400 Bad Request; any other credential is served. *)
Definition fetch_400_then_ok : Fetch nat := fun _ r =>
  if bool_decide (key_of r = "k0")
  then HttpError 400 (Json bad_request)
  else HttpOk (Json 7%nat).


Definition two_keys : State := fresh [key "k0" valid None; key "k1" valid None].

Definition one_key : State := fresh [key "k0" invalid (Some 10000)].

(** An invalid credential, one that has 9,999 units used, and a good one. *)
Definition three_keys : State :=
  fresh [key "k0" invalid None; key "k1" valid (Some 9999); key "k2" valid None].

(** Every request is served. *)
Definition fetch_ok : Fetch nat := fun _ _ => HttpOk (Json 7%nat).

(** The request of the validator for the credential [key]. *)
Definition validation_request (key : string) : Request :=
  mkRequest "channels"
    [("part", "id"); ("id", "UC_x5XG1OV2P6uZZ5FSM9Ttw"); ("key", key)].

(** A world without connectivity: every fetch rejects. *)
Definition offline : World :=
  mkWorld (fun _ _ => FetchRejected "Failed to fetch")
          (fun _ _ => FetchRejected "Failed to fetch")
          (fun _ _ => FetchRejected "Failed to fetch")
          (fun _ _ => FetchRejected "Failed to fetch")
          "2024-05-01T00:00:00.000Z" (fun _ => None) (fun _ => None)
          (fun _ _ => true).

(** A playlist page v1, v2, v3 whose statistics come back as v3, v1. *)
Definition pitem (videoId : string) : PlaylistItem.t :=
  PlaylistItem.mk
    (Some (PlaylistItem.mkSnippet (Some (PlaylistItem.mkResourceId (Some videoId))))).

Definition vitem (videoId : string) : Video.t :=
  Video.mk videoId
    (Some (Video.mkSnippet "2024-04-01T10:00:00Z" ("title of " +:+ videoId) ""
             (mkThumbnails None "https://i.ytimg.com/default.jpg")))
    (Some (Video.mkStatistics "10" "2" "1")).

Definition page123 : PlaylistItem.List :=
  PlaylistItem.mkList (Some [pitem "v1"; pitem "v2"; pitem "v3"]) (Some "NEXT").

Definition stats31 : Video.List := Video.mkList (Some [vitem "v3"; vitem "v1"]).

Definition shuffled : World :=
  mkWorld (fun _ _ => FetchRejected "Failed to fetch")
          (fun _ _ => HttpOk (Json page123))
          (fun _ _ => HttpOk (Json stats31))
          (fun _ _ => FetchRejected "Failed to fetch")
          "2024-05-01T00:00:00.000Z" (fun _ => None) (fun _ => None)
          (fun _ _ => true).

(** 120 identifiers; the platform answers every call with one channel,
    named after the number of the request, except the second request, which
    gets 500. *)
Definition ids120 : list string :=
  map (fun n : nat => "UC" +:+ pretty n) (seq 0 120).

Definition channel_item (id : string) : Channel.t :=
  Channel.mk id
    (Some (Channel.mkSnippet ("title of " +:+ id) "" None "2020-01-01T00:00:00Z"
             (mkThumbnails (Some "https://yt3.ggpht.com/high.jpg")
                           "https://yt3.ggpht.com/default.jpg")))
    (Some (Channel.mkStatistics "1000" "20" "50000"))
    (Some ("UU" +:+ id)).

Definition second_call_fails : World :=
  mkWorld (fun t _ =>
             if (t =? 1)%nat then HttpError 500 (Json (JsonObject None))
             else HttpOk (Json (Channel.mkList
                                  (Some [channel_item ("chunk" +:+ pretty t)]))))
          (fun _ _ => FetchRejected "Failed to fetch")
          (fun _ _ => FetchRejected "Failed to fetch")
          (fun _ _ => FetchRejected "Failed to fetch")
          "2024-05-01T00:00:00.000Z" (fun _ => None) (fun _ => None)
          (fun _ _ => true).

(** The platform is reachable and knows no channel: every list is empty. *)
Definition no_such_channel : World :=
  mkWorld (fun _ _ => HttpOk (Json (Channel.mkList (Some []))))
          (fun _ _ => HttpOk (Json (PlaylistItem.mkList (Some []) None)))
          (fun _ _ => HttpOk (Json (Video.mkList (Some []))))
          (fun _ _ => HttpOk (Json (SearchResult.mkList (Some []))))
          "2024-05-01T00:00:00.000Z" (fun _ => None) (fun _ => None)
          (fun _ _ => true).

(** No request gets through. *)
Definition fetch_offline : Fetch nat := fun _ _ => FetchRejected "Failed to fetch".

(** ** Vocabulary of the further statements *)


(** The number of usage updates sent to the remote store between two states:
    one for every response with a success status. *)
Definition charges (s s' : State) : Z :=
  Z.of_nat (length (dbSyncs s') - length (dbSyncs s)).


(** The value of the parameter [p] in a query, if it has one. *)
Definition param (p : string) (q : list (string * string)) : option string :=
  snd <$> List.find (fun x => bool_decide (x.1 = p)) q.

(** The parameter objects of the calls the fetchers make. *)
Definition username_query (channelIdentifier : string) : list (string * string) :=
  [("part", "id"); ("forUsername", channelIdentifier)].

Definition search_query (channelIdentifier : string) : list (string * string) :=
  [("part", "snippet"); ("q", channelIdentifier); ("type", "channel"); ("maxResults", "1")].

Definition oldest_query (channelId startDate : string) : list (string * string) :=
  [("part", "snippet"); ("channelId", channelId); ("type", "video");
   ("order", "date"); ("publishedAfter", startDate); ("maxResults", "50")].

Definition newest_query (uploadsPlaylistId : string) : list (string * string) :=
  [("part", "snippet"); ("playlistId", uploadsPlaylistId); ("maxResults", "1")].

Definition video_query (videoId : string) : list (string * string) :=
  [("part", "snippet,statistics"); ("id", videoId)].

(** Of a call in flight: from now on it makes at most [n] calls of the
    router, each of them one of [Q]. *)
#[warnings="-register-all"] Inductive calls_at_most {A} (Q : string * list (string * string) -> Prop) :
    nat -> InFlight.Task A -> Prop :=
| calls_settled n r : calls_at_most Q n (InFlight.Settled r)
| calls_suspended n resume :
    (forall s, exists added,
        routerCalls (resume s).2 = routerCalls s ++ added
        /\ Forall Q added /\ (length added <= n)%nat
        /\ calls_at_most Q (n - length added) (resume s).1) ->
    calls_at_most Q n (InFlight.Suspended resume).

(** The same of an async function that is called in [s] and has got to
    its first pending await. *)
Definition spends_at {A} (Q : string * list (string * string) -> Prop) (n : nat)
    (x : InFlight.Task A * State) (s : State) : Prop :=
  exists added,
    routerCalls x.2 = routerCalls s ++ added
    /\ Forall Q added /\ (length added <= n)%nat
    /\ calls_at_most Q (n - length added) x.1.

Definition spends {A} (Q : string * list (string * string) -> Prop) (n : nat)
    (m : InFlight.T A) : Prop :=
  forall s, spends_at Q n (m s) s.

Definition videos_call (c : string * list (string * string)) : Prop :=
  exists videoId, c = ("videos", video_query videoId).

(** The publication time of a video, 0 when its date is unreadable. *)
Definition time_of (w : World) (v : VideoStat.t) : Z :=
  from_option (fun x => x) 0 (getTime w (VideoStat.publishedAt v)).

(** A platform whose quota is spent: every request gets 403 with the
    reason quotaExceeded. *)
Definition quota_spent : ErrorData :=
  JsonObject (Some (mkErrorObject (Some "quotaExceeded") (Some "Quota exceeded."))).

Definition exhausted_platform : World :=
  mkWorld (fun _ _ => HttpError 403 (Json quota_spent))
          (fun _ _ => HttpError 403 (Json quota_spent))
          (fun _ _ => HttpError 403 (Json quota_spent))
          (fun _ _ => HttpError 403 (Json quota_spent))
          "2024-05-01T00:00:00.000Z" (fun _ => None) (fun _ => None)
          (fun _ _ => true).

(** Three search results: a from March, b and c from January. *)
Definition sresult (videoId publishedAt : string) : SearchResult.t :=
  SearchResult.mk (Some videoId)
    (Some (SearchResult.mkSnippet "UCx" publishedAt ("title of " +:+ videoId) ""
             (mkThumbnails None "https://i.ytimg.com/default.jpg"))).

Definition dated : World :=
  mkWorld (fun _ _ => FetchRejected "Failed to fetch")
          (fun _ _ => FetchRejected "Failed to fetch")
          (fun _ _ => FetchRejected "Failed to fetch")
          (fun _ _ => HttpOk (Json (SearchResult.mkList
             (Some [sresult "a" "2020-03-01T00:00:00Z";
                    sresult "b" "2020-01-01T00:00:00Z";
                    sresult "c" "2020-01-01T00:00:00Z"]))))
          "2024-05-01T00:00:00.000Z"
          (fun _ => Some "2019-12-31T12:00:00.000Z")
          (fun d => if bool_decide (d = "2020-03-01T00:00:00Z") then Some 1583020800000
                    else if bool_decide (d = "2020-01-01T00:00:00Z") then Some 1577836800000
                    else None)
          (fun _ _ => true).

(** A playlist page whose two entries have no video id, with a token. *)
Definition page_without_ids : PlaylistItem.List :=
  PlaylistItem.mkList
    (Some [PlaylistItem.mk None;
           PlaylistItem.mk (Some (PlaylistItem.mkSnippet
                                    (Some (PlaylistItem.mkResourceId None))))])
    (Some "NEXT").

Definition idless : World :=
  mkWorld (fun _ _ => FetchRejected "Failed to fetch")
          (fun _ _ => HttpOk (Json page_without_ids))
          (fun _ _ => HttpOk (Json stats31))
          (fun _ _ => FetchRejected "Failed to fetch")
          "2024-05-01T00:00:00.000Z" (fun _ => None) (fun _ => None)
          (fun _ _ => true).

(** A channel with three uploads and three search results.  Of the two
    sub-fetches of [getChannelStats], the responses of the one started first
    arrive first when [first] holds, and last otherwise. *)
Definition overlapping (first : bool) : World :=
  mkWorld (fun _ _ => HttpOk (Json (Channel.mkList (Some [channel_item "UCx"]))))
          (fun _ _ => HttpOk (Json page123))
          (fun _ _ => HttpOk (Json stats31))
          (search dated)
          "2024-05-01T00:00:00.000Z"
          (minus12h dated)
          (getTime dated)
          (fun _ _ => first).

(** A pool whose only usable credential is 102 units under its cap. *)
Definition near_cap : State :=
  fresh [key "k0" valid (Some 9898); key "k1" invalid None].

(** ** The application shell (App.tsx) *)

(** [valid.length > 0 ? valid.length * 10000 : 10000], with
    [valid = apiKeys.filter(k => k.status === 'valid')]. *)
Definition dailyQuotaLimit (apiKeys : list ApiKey.t) : Z :=
  let n := Z.of_nat (length (List.filter
                               (fun k => bool_decide (ApiKey.status k = valid)) apiKeys)) in
  if 0 <? n then n * 10000 else 10000.

(** The effect on [apiKeys]: [if (apiKeys.length > 0) setApiKeys(apiKeys)]. *)
Definition syncApiKeys (apiKeys : list ApiKey.t) (s : State) : State :=
  if (0 <? length apiKeys)%nat then setApiKeys apiKeys s else s.

(** [keys.map(k => ({ value: k, status: 'unknown' }))] of [onApiKeysChange]. *)
Definition keys_from_settings (keys : list string) : list ApiKey.t :=
  map (fun k => ApiKey.mk k unknown None None None) keys.






(** The state of the dashboard that [handleSelectChannel] writes.  The copy
    of the recent list kept in local storage is not modelled. *)
Record Dashboard := mkDashboard {
  recentlyViewedIds : list string;
  selectedChannel : option (ChannelStats.t * list VideoStat.t);
  isDashboardModalOpen : bool;
  isDashboardLoading : bool
}.

(** [[id, ...prev.filter(rid => rid !== id)].slice(0, 5)] *)
Definition recent_update (id : string) (prev : list string) : list string :=
  take 5 (id :: List.filter (fun rid => negb (bool_decide (rid = id))) prev).

Definition handleSelectChannel (w : World) (trackedChannels : list ChannelStats.t)
    (id : string) (d : Dashboard) (s : State) : Dashboard * State :=
  match List.find (fun c => bool_decide (ChannelStats.id c = id)) trackedChannels with
  | None => (d, s)
  | Some stats =>
      match ChannelStats.status stats with
      | Some ChannelStats.terminated => (d, s)
      | _ =>
        let recent := recent_update id (recentlyViewedIds d) in
        match getChannelVideos w (ChannelStats.uploadsPlaylistId stats) 24 None s with
        | (inr videoData, s') =>
            (mkDashboard recent (Some (stats, page_videos videoData)) true false, s')
        | (inl _, s') =>
            (mkDashboard recent (Some (stats, @nil VideoStat.t)) true false, s')
        end
      end
  end.

(** ** Selections of the channel views (ChannelsView.tsx, MultiSelectDropdown) *)

(** [Array.from(new Set(l))]: the first occurrence of every element, in
    order of insertion. *)
Definition set_from (l : list string) : list string :=
  foldl (fun acc x => if bool_decide (x ∈ acc) then acc else acc ++ [x]) [] l.

(** [Array.from(new Set([...targetGroup.channelIds, ...selectedChannelIds]))] *)
Definition combinedChannelIds (channelIds selectedChannelIds : list string) : list string :=
  set_from (channelIds ++ selectedChannelIds).

(** [selectedIds.includes(id) ? selectedIds.filter(item => item !== id)
                              : [...selectedIds, id]] *)
Definition toggleSelection (id : string) (selectedIds : list string) : list string :=
  if bool_decide (id ∈ selectedIds)
  then List.filter (fun item => negb (bool_decide (item = id))) selectedIds
  else selectedIds ++ [id].

(** [togglePendingValue]: a toggle in the group menu, a single choice in
    the other menus. *)
Definition togglePendingValue (groupMenu : bool) (val : string) (prev : list string) :
    list string :=
  if groupMenu then toggleSelection val prev else [val].



(** A tracked channel that can be opened, and one that is terminated. *)
Definition tracked (id : string) (status : option ChannelStats.Status) : ChannelStats.t :=
  ChannelStats.mk id id "" id "2020-01-01T00:00:00Z" "" "0" "0" "0" ("UU" +:+ id)
    None None None status.

(** * Proofs *)

(** ** The quota ledger *)

Lemma foldl_usage_shift (l : list ApiKey.t) (a : Z) :
  foldl (fun total key => total + num_or0 (ApiKey.dailyUsage key)) a l
  = a + foldl (fun total key => total + num_or0 (ApiKey.dailyUsage key)) 0 l.
Proof.
  revert a. induction l as [|k l IH]; intros a; simpl.
  - lia.
  - rewrite (IH (a + _)), (IH (0 + _)). lia.
Qed.

Lemma foldl_usage_insert (l : list ApiKey.t) (i : nat) (k : ApiKey.t) (u : Z) :
  l !! i = Some k ->
  foldl (fun total key => total + num_or0 (ApiKey.dailyUsage key)) 0
        (<[i := ApiKey.with_dailyUsage k (Some u)]> l)
  = foldl (fun total key => total + num_or0 (ApiKey.dailyUsage key)) 0 l
    - num_or0 (ApiKey.dailyUsage k) + u.
Proof.
  revert i. induction l as [|x l IH]; intros i E.
  - discriminate.
  - destruct i as [|i]; simpl in *.
    + inversion E; subst x.
      rewrite (foldl_usage_shift l (0 + u)), (foldl_usage_shift l (0 + _)). lia.
    + rewrite (foldl_usage_shift _ (0 + _)), (foldl_usage_shift l (0 + _)).
      rewrite (IH i E). lia.
Qed.

Lemma updateKeyUsage_Some (i : nat) (c : Z) (s : State) (k : ApiKey.t) :
  apiKeys s !! i = Some k ->
  let u := num_or0 (ApiKey.dailyUsage k) + c in
  let s' := updateKeyUsage i c s in
  apiKeys s' = <[i := ApiKey.with_dailyUsage k (Some u)]> (apiKeys s)
  /\ sessionQuotaUsed s' = sessionQuotaUsed s + c
  /\ getTotalDailyUsage s' = getTotalDailyUsage s + c
  /\ quotaEvents s'
     = quotaEvents s ++
       (if onQuotaChangeCallback s
        then [mkQuota (sessionQuotaUsed s + c) (getTotalDailyUsage s + c)] else [])
  /\ currentKeyIndex s' = currentKeyIndex s
  /\ onQuotaChangeCallback s' = onQuotaChangeCallback s
  /\ onKeyIndexChangeCallback s' = onKeyIndexChangeCallback s
  /\ keyIndexEvents s' = keyIndexEvents s
  /\ requests s' = requests s
  /\ attempts s' = attempts s
  /\ routerCalls s' = routerCalls s.
Proof.
  intros E u s'. subst s'. unfold updateKeyUsage. rewrite E.
  assert (T : getTotalDailyUsage
                (set_apiKeys (<[i := ApiKey.with_dailyUsage k (Some u)]> (apiKeys s)) s)
              = getTotalDailyUsage s + c).
  { unfold getTotalDailyUsage. simpl. rewrite (foldl_usage_insert _ _ _ _ E).
    subst u. lia. }
  assert (T' : forall q, getTotalDailyUsage
                (set_sessionQuotaUsed q
                   (set_apiKeys (<[i := ApiKey.with_dailyUsage k (Some u)]> (apiKeys s)) s))
              = getTotalDailyUsage s + c) by (intros q; exact T).
  unfold notifyQuota. simpl. fold u.
  destruct (onQuotaChangeCallback s) eqn:Ecb; simpl; rewrite ?app_nil_r, ?T';
    repeat split; try reflexivity; try exact T; try exact (T' _); try exact Ecb.
Qed.

(** ** One pass through the [try] block *)

Lemma try_key_spec {A} (fetch : Fetch A) (endpoint : string)
    (params : list (string * string)) (cost : Z) (k : nat) (key : ApiKey.t)
    (s s1 : State) (x : exn + Flow A) :
  apiKeys s !! k = Some key ->
  try_key fetch endpoint params cost k key s = (x, s1) ->
  let response := fetch (length (requests s)) (req_at endpoint params s k) in
  requests s1 = requests s ++ [req_at endpoint params s k]
  /\ attempts s1 = attempts s ++ [k]
  /\ routerCalls s1 = routerCalls s
  /\ onQuotaChangeCallback s1 = onQuotaChangeCallback s
  /\ ledger_after response cost k key s s1
  /\ match x with
     | inr (Return a) => response = HttpOk (Json a)
     | inr (Continue le) => le = observed response /\ is_Some le
     | inl e => observed response = Some e
     end.
Proof.
  intros Ek H response. unfold ledger_after.
  assert (Er : req_at endpoint params s k
               = mkRequest endpoint (obj_set "key" (ApiKey.value key) params)).
  { unfold req_at. rewrite Ek. reflexivity. }
  subst response. rewrite Er. clear Er. unfold try_key in H. simpl in H.
  destruct (fetch _ _) as [msg|body|status body].
  - inversion H; subst; clear H. simpl. repeat split; reflexivity.
  - destruct (updateKeyUsage_Some k cost
                (push_attempt k (push_request
                   (mkRequest endpoint (obj_set "key" (ApiKey.value key) params)) s))
                key Ek)
      as (U1 & U2 & U3 & U4 & U5 & U6 & U7 & U8 & U9 & U10 & U11).
    simpl in *.
    assert (forall y s2,
      (y, notifyKeyIndex k (set_currentKeyIndex k
            (updateKeyUsage k cost
               (push_attempt k (push_request
                  (mkRequest endpoint (obj_set "key" (ApiKey.value key) params)) s)))))
      = (x, s2) ->
      y = x /\
      requests s2 = requests s ++ [mkRequest endpoint (obj_set "key" (ApiKey.value key) params)]
      /\ attempts s2 = attempts s ++ [k]
      /\ routerCalls s2 = routerCalls s
      /\ onQuotaChangeCallback s2 = onQuotaChangeCallback s
      /\ (apiKeys s2 = <[k := ApiKey.with_dailyUsage key
                                (Some (num_or0 (ApiKey.dailyUsage key) + cost))]> (apiKeys s)
          /\ sessionQuotaUsed s2 = sessionQuotaUsed s + cost
          /\ getTotalDailyUsage s2 = getTotalDailyUsage s + cost
          /\ currentKeyIndex s2 = k
          /\ quotaEvents s2
             = quotaEvents s ++
               (if onQuotaChangeCallback s
                then [mkQuota (sessionQuotaUsed s + cost) (getTotalDailyUsage s + cost)]
                else []))) as K.
    { intros y s2 E. inversion E; subst; clear E.
      unfold notifyKeyIndex.
      destruct (onKeyIndexChangeCallback _); simpl;
        repeat split; try assumption; try reflexivity. }
    destruct body as [msg|a].
    + destruct (K _ _ H) as (<- & K'). simpl. tauto.
    + destruct (K _ _ H) as (<- & K'). simpl. tauto.
  - destruct body as [msg|[|err]]; simpl in H.
    + destruct (key_related _ _); inversion H; subst; clear H; simpl;
        repeat split; eauto.
    + inversion H; subst; clear H. simpl. repeat split; reflexivity.
    + destruct (key_related _ _); inversion H; subst; clear H; simpl;
        repeat split; eauto.
Qed.

Lemma ledger_after_pool {A} (response : Response A) (cost : Z) (k : nat)
    (key : ApiKey.t) (s s1 : State) :
  apiKeys s !! k = Some key ->
  ledger_after response cost k key s s1 ->
  length (apiKeys s1) = length (apiKeys s)
  /\ (forall j, j <> k -> apiKeys s1 !! j = apiKeys s !! j)
  /\ (forall j, ApiKey.value <$> (apiKeys s1 !! j) = ApiKey.value <$> (apiKeys s !! j)).
Proof.
  intros Ek L.
  assert (P : apiKeys s1 = apiKeys s \/
              exists u, apiKeys s1 = <[k := ApiKey.with_dailyUsage key u]> (apiKeys s)).
  { unfold ledger_after in L.
    destruct response; destruct L as (E & _); eauto. }
  destruct P as [-> | (u & ->)]; [by repeat split|].
  split; [apply length_insert|]. split.
  - intros j Hj. by apply list_lookup_insert_ne.
  - intros j. destruct (decide (j = k)) as [->|Hj].
    + rewrite list_lookup_insert_eq by (by eapply lookup_lt_Some). by rewrite Ek.
    + by rewrite list_lookup_insert_ne.
Qed.

(** ** The router's loop *)

Section Router.
Context {A : Type} (fetch : Fetch A) (endpoint : string)
        (params : list (string * string)) (cost : Z) (startIndex : nat).

Lemma visit_stable (s s1 : State) (k : nat) (todo : list nat) :
  length (apiKeys s1) = length (apiKeys s) ->
  (forall j, j <> k -> apiKeys s1 !! j = apiKeys s !! j) ->
  k ∉ map (idx startIndex (length (apiKeys s))) todo ->
  visit cost startIndex s1 todo = visit cost startIndex s todo.
Proof.
  intros El Eo Hk. unfold visit. rewrite El.
  apply List.filter_ext_in. intros j Hj. unfold eligibleb. rewrite El, Eo; [done|].
  intros ->. apply Hk. by apply list_elem_of_In.
Qed.

Lemma req_at_stable (s s1 : State) :
  (forall j, ApiKey.value <$> (apiKeys s1 !! j) = ApiKey.value <$> (apiKeys s !! j)) ->
  forall j, req_at endpoint params s1 j = req_at endpoint params s j.
Proof.
  intros Ev j. unfold req_at. f_equal. f_equal. specialize (Ev j).
  destruct (apiKeys s1 !! j), (apiKeys s !! j); simpl in *; congruence.
Qed.

Lemma rotate_spec (todo : list nat) :
  forall (lastError : option exn) (s s' : State) (r : exn + A),
  (0 < length (apiKeys s))%nat ->
  NoDup (map (idx startIndex (length (apiKeys s))) todo) ->
  rotate fetch endpoint params cost startIndex todo lastError s = (r, s') ->
  exists m : nat,
    (m <= length (visit cost startIndex s todo))%nat
    /\ attempts s' = attempts s ++ take m (visit cost startIndex s todo)
    /\ requests s' = requests s ++ map (req_at endpoint params s) (take m (visit cost startIndex s todo))
    /\ routerCalls s' = routerCalls s
    /\ match r with
       | inl e =>
           m = length (visit cost startIndex s todo)
           /\ e = exhausted
                    (match last (visit cost startIndex s todo) with
                     | Some k =>
                         observed (fetch (length (requests s) + length (visit cost startIndex s todo) - 1)%nat
                                         (req_at endpoint params s k))
                     | None => lastError
                     end)
       | inr a =>
           exists k, visit cost startIndex s todo !! (m - 1)%nat = Some k /\ (0 < m)%nat
             /\ fetch (length (requests s) + m - 1)%nat (req_at endpoint params s k)
                = HttpOk (Json a)
       end.
Proof.
  induction todo as [|i todo IH]; intros lastError s s' r Hn ND H; simpl in H.
  - inversion H; subst; clear H. exists 0%nat. simpl. rewrite !app_nil_r. by repeat split.
  - set (n := length (apiKeys s)) in *.
    assert (Hk : (idx startIndex n i < n)%nat) by (apply Nat.mod_upper_bound; lia).
    fold (idx startIndex n i) in H. set (k := idx startIndex n i) in *.
    destruct (lookup_lt_is_Some_2 (apiKeys s) k Hk) as [key Ek]. rewrite Ek in H.
    simpl in ND. apply NoDup_cons in ND as [Hnk ND]. fold k in Hnk.
    destruct (skipped n cost key) eqn:Sk.
    + assert (Ev : visit cost startIndex s (i :: todo) = visit cost startIndex s todo).
      { unfold visit. simpl. fold n k. unfold eligibleb at 1. rewrite Ek. fold n.
        by rewrite Sk. }
      rewrite Ev. by apply (IH lastError).
    + assert (Ev : visit cost startIndex s (i :: todo) = k :: visit cost startIndex s todo).
      { unfold visit. simpl. fold n k. unfold eligibleb at 1. rewrite Ek. fold n.
        by rewrite Sk. }
      rewrite Ev. clear Ev.
      destruct (try_key fetch endpoint params cost k key s) as [x s1] eqn:T.
      destruct (try_key_spec _ _ _ _ _ _ _ _ _ Ek T) as (R1 & A1 & C1 & _ & L & X).
      destruct (ledger_after_pool _ _ _ _ _ _ Ek L) as (El & Eo & Evl).
      assert (Ev1 : visit cost startIndex s1 todo = visit cost startIndex s todo) by (by apply (visit_stable s s1 k)).
      assert (Er1 := req_at_stable s s1 Evl).
      assert (Step : forall le,
        rotate fetch endpoint params cost startIndex todo le s1 = (r, s') ->
        observed (fetch (length (requests s)) (req_at endpoint params s k)) = le ->
        is_Some le ->
        exists m : nat,
          (m <= length (k :: visit cost startIndex s todo))%nat
          /\ attempts s' = attempts s ++ take m (k :: visit cost startIndex s todo)
          /\ requests s' = requests s
                           ++ map (req_at endpoint params s) (take m (k :: visit cost startIndex s todo))
          /\ routerCalls s' = routerCalls s
          /\ match r with
             | inl e =>
                 m = length (k :: visit cost startIndex s todo)
                 /\ e = exhausted
                          (match last (k :: visit cost startIndex s todo) with
                           | Some k0 =>
                               observed (fetch (length (requests s)
                                                + length (k :: visit cost startIndex s todo) - 1)%nat
                                               (req_at endpoint params s k0))
                           | None => lastError
                           end)
             | inr a =>
                 exists k0, (k :: visit cost startIndex s todo) !! (m - 1)%nat = Some k0 /\ (0 < m)%nat
                   /\ fetch (length (requests s) + m - 1)%nat (req_at endpoint params s k0)
                      = HttpOk (Json a)
             end).
      { intros le Hr Hobs Hle.
        destruct (IH le s1 s' r) as (m & Hm & Ha & Hq & Hc & Hres);
          [lia | by rewrite El | exact Hr |].
        rewrite Ev1 in *. rewrite R1, length_app in Hres. simpl in Hres.
        exists (S m). simpl. split; [lia|].
        split; [by rewrite Ha, A1, <- app_assoc|].
        split.
        { rewrite Hq, R1, <- app_assoc. simpl. f_equal. f_equal.
          apply map_ext. exact Er1. }
        split; [congruence|].
        destruct r as [e|a].
        - destruct Hres as (-> & ->). split; [done|]. f_equal.
          rewrite last_cons. destruct (last (visit cost startIndex s todo)) as [k2|] eqn:El2.
          + rewrite Er1. f_equal. f_equal. simpl. lia.
          + apply last_None in El2. rewrite El2. simpl.
            rewrite Nat.add_sub. by rewrite Hobs.
        - destruct Hres as (k0 & Hk0 & Hm0 & Hf). exists k0.
          split; [|split; [lia|]].
          + destruct m as [|m']; [lia|]. simpl in *. by rewrite Nat.sub_0_r in *.
          + rewrite Er1 in Hf. rewrite <- Hf. f_equal. lia. }
      destruct x as [e|[le|a]].
      * simpl in H. apply (Step (Some e)); [exact H | exact X | by eexists].
      * simpl in H. destruct X as (-> & Hs). apply (Step _ H); [done | exact Hs].
      * simpl in H. inversion H; subst r s'; clear H.
        exists 1%nat. simpl. rewrite take_0. simpl.
        split; [lia|]. split; [done|]. split; [done|]. split; [done|].
        exists k. split; [done|]. split; [lia|]. by rewrite Nat.add_sub.
Qed.

End Router.

(** ** The rotation visits every credential once *)

Lemma idx_inj (a n i j : nat) :
  (i < n)%nat -> (j < n)%nat -> idx a n i = idx a n j -> i = j.
Proof.
  unfold idx. intros Hi Hj E.
  assert (Hn : n <> 0%nat) by lia.
  pose proof (Nat.div_mod (a + i) n Hn) as Di.
  pose proof (Nat.div_mod (a + j) n Hn) as Dj.
  pose proof (Nat.mod_upper_bound (a + i) n Hn) as Bi.
  rewrite E in Di.
  set (qi := ((a + i) / n)%nat) in *. set (qj := ((a + j) / n)%nat) in *.
  set (r := ((a + j) mod n)%nat) in *.
  assert (qi = qj) by nia. subst qi. nia.
Qed.

Lemma rotation_NoDup (s : State) : NoDup (rotation s).
Proof.
  unfold rotation. set (n := length (apiKeys s)).
  assert (G : forall l, NoDup l -> (forall i, i ∈ l -> (i < n)%nat) ->
                        NoDup (map (idx (currentKeyIndex s) n) l)).
  { induction l as [|i l IH]; intros ND B; simpl; [constructor|].
    apply NoDup_cons in ND as [Hi ND]. apply NoDup_cons. split.
    - intros Hin. apply list_elem_of_fmap in Hin as (j & E & Hj).
      assert (i = j).
      { apply (idx_inj (currentKeyIndex s) n); [apply B; left | apply B; by right | done]. }
      by subst j.
    - apply IH; [done|]. intros j Hj. apply B. by right. }
  apply G; [apply NoDup_seq|]. intros i Hi. apply elem_of_seq in Hi. lia.
Qed.

Lemma rotation_elem (s : State) (k : nat) :
  k ∈ rotation s <-> (k < length (apiKeys s))%nat.
Proof.
  set (n := length (apiKeys s)). split.
  - unfold rotation. intros Hin. apply list_elem_of_fmap in Hin as (i & -> & Hi).
    apply elem_of_seq in Hi. apply Nat.mod_upper_bound. fold n. lia.
  - intros Hk.
    assert (P : rotation s ≡ₚ seq 0 n).
    { apply submseteq_length_Permutation.
      - apply NoDup_submseteq; [apply rotation_NoDup|].
        intros j Hj. apply elem_of_seq. unfold rotation in Hj.
        apply list_elem_of_fmap in Hj as (i & -> & Hi). apply elem_of_seq in Hi.
        split; [lia|]. simpl. apply Nat.mod_upper_bound. fold n. lia.
      - unfold rotation. rewrite length_map. done. }
    rewrite P. apply elem_of_seq. lia.
Qed.

Lemma NoDup_List_filter {B} (f : B -> bool) (l : list B) :
  NoDup l -> NoDup (List.filter f l).
Proof.
  induction l as [|x l IH]; intros ND; simpl; [constructor|].
  apply NoDup_cons in ND as [Hx ND].
  destruct (f x); [|by apply IH].
  apply NoDup_cons. split; [|by apply IH].
  rewrite list_elem_of_In, List.filter_In, <- list_elem_of_In. tauto.
Qed.

Lemma eligible_NoDup (s : State) (cost : Z) : NoDup (eligible s cost).
Proof.
  unfold eligible. apply NoDup_List_filter, rotation_NoDup.
Qed.

Lemma eligible_elem (s : State) (cost : Z) (k : nat) :
  k ∈ eligible s cost <->
  exists key, apiKeys s !! k = Some key
              /\ skipped (length (apiKeys s)) cost key = false.
Proof.
  unfold eligible. rewrite list_elem_of_In, List.filter_In, <- list_elem_of_In.
  rewrite rotation_elem. unfold eligibleb. split.
  - intros [Hk He]. destruct (apiKeys s !! k) as [key|]; [|done].
    exists key. split; [done|]. by apply negb_true_iff.
  - intros (key & Ek & Sk). split; [by eapply lookup_lt_Some|].
    rewrite Ek. by apply negb_true_iff.
Qed.

(** ** A successful call charges the winning credential *)


(** ** The router *)

Lemma fetchYouTubeAPI_unfold {A} (fetch : Fetch A) (endpoint : string)
    (params : list (string * string)) (s : State) :
  fetchYouTubeAPI fetch endpoint params s
  = let s0 := push_routerCall (endpoint, params) s in
    match apiKeys s with
    | [] => (inl (Error "Please configure at least one YouTube Data API key in Settings."), s0)
    | _ :: _ =>
        rotate fetch endpoint params (cost_of endpoint) (currentKeyIndex s)
               (seq 0 (length (apiKeys s))) None s0
    end.
Proof. unfold fetchYouTubeAPI. simpl. by destruct (apiKeys s). Qed.

Lemma fetchYouTubeAPI_spec {A} (fetch : Fetch A) (endpoint : string)
    (params : list (string * string)) (s s' : State) (r : exn + A) :
  apiKeys s <> [] ->
  fetchYouTubeAPI fetch endpoint params s = (r, s') ->
  let cost := cost_of endpoint in
  exists m : nat,
    (m <= length (eligible s cost))%nat
    /\ attempts s' = attempts s ++ take m (eligible s cost)
    /\ requests s' = requests s ++ map (req_at endpoint params s) (take m (eligible s cost))
    /\ routerCalls s' = routerCalls s ++ [(endpoint, params)]
    /\ match r with
       | inl e =>
           m = length (eligible s cost)
           /\ e = exhausted (last_observed fetch endpoint params s cost)
       | inr a =>
           exists k, eligible s cost !! (m - 1)%nat = Some k /\ (0 < m)%nat
             /\ fetch (length (requests s) + m - 1)%nat (req_at endpoint params s k)
                = HttpOk (Json a)
       end.
Proof.
  intros Hne H cost. rewrite fetchYouTubeAPI_unfold in H. simpl in H.
  destruct (apiKeys s) as [|k0 ks] eqn:Eks; [done|]. rewrite <- Eks in H.
  set (s0 := push_routerCall (endpoint, params) s) in *.
  destruct (rotate_spec fetch endpoint params cost (currentKeyIndex s)
              (seq 0 (length (apiKeys s))) None s0 s' r)
    as (m & Hm & Ha & Hq & Hc & Hr).
  - simpl. rewrite Eks. simpl. lia.
  - apply (rotation_NoDup s).
  - exact H.
  - exists m. unfold last_observed.
    change (visit cost (currentKeyIndex s) s0 (seq 0 (length (apiKeys s))))
      with (eligible s cost) in *.
    change (req_at endpoint params s0) with (req_at endpoint params s) in *.
    simpl in *. repeat (split; [done|]).
    destruct r as [e|a]; [|done].
    destruct Hr as (-> & ->). split; [done|]. f_equal.
Qed.

(** C1 (evaluation of the defect).  A response that is neither a quota
    signal nor a 403/429 makes the router [throw lastError] inside its own
    [try] block; the [catch] of that block takes the error and goes on to
    the next credential.  With two credentials, the first of which gets
    400 Bad Request, the call attempts the second one and returns its
    result; with that credential alone, the call raises the aggregate
    error, not the error of the response. *)
Theorem hard_error_is_caught_and_rotation_continues :
  let call := fetchYouTubeAPI fetch_400_then_ok "channels" [("part", "id")] in
  observed (fetch_400_then_ok 0%nat (req_at "channels" [("part", "id")] two_keys 0))
  = Some (Error "Bad Request")
  /\ key_related (Some "badRequest") 400 = false
  /\ (call two_keys).1 = inr 7%nat
  /\ attempts (call two_keys).2 = [0; 1]%nat
  /\ (call (fresh [key "k0" valid None])).1
     = inl (Error "API Request failed after trying all keys: Bad Request").
Proof. vm_compute. repeat split; reflexivity. Qed.

Section Failures.
Context {A : Type} (fetch : Fetch A) (endpoint : string)
        (params : list (string * string)) (cost : Z) (startIndex : nat).

(** Every attempt of the loop but the one that returns has failed. *)
Lemma rotate_failures (todo : list nat) :
  forall (lastError : option exn) (s s' : State) (r : exn + A),
  (0 < length (apiKeys s))%nat ->
  NoDup (map (idx startIndex (length (apiKeys s))) todo) ->
  rotate fetch endpoint params cost startIndex todo lastError s = (r, s') ->
  forall i j,
    visit cost startIndex s todo !! i = Some j ->
    (i + match r with inl _ => 0 | inr _ => 1 end
     < length (attempts s') - length (attempts s))%nat ->
    is_Some (observed (fetch (length (requests s) + i)%nat (req_at endpoint params s j))).
Proof.
  induction todo as [|i0 todo IH]; intros lastError s s' r Hn ND H i j Hv Hi; simpl in H.
  - inversion H; subst. lia.
  - set (n := length (apiKeys s)) in *.
    assert (Hk : (idx startIndex n i0 < n)%nat) by (apply Nat.mod_upper_bound; lia).
    fold (idx startIndex n i0) in H. set (k := idx startIndex n i0) in *.
    destruct (lookup_lt_is_Some_2 (apiKeys s) k Hk) as [key Ek]. rewrite Ek in H.
    simpl in ND. apply NoDup_cons in ND as [Hnk ND]. fold k in Hnk.
    destruct (skipped n cost key) eqn:Sk.
    + assert (Ev : visit cost startIndex s (i0 :: todo) = visit cost startIndex s todo).
      { unfold visit. simpl. fold n k. unfold eligibleb at 1. rewrite Ek. fold n.
        by rewrite Sk. }
      rewrite Ev in Hv. by apply (IH lastError s s' r).
    + assert (Ev : visit cost startIndex s (i0 :: todo) = k :: visit cost startIndex s todo).
      { unfold visit. simpl. fold n k. unfold eligibleb at 1. rewrite Ek. fold n.
        by rewrite Sk. }
      rewrite Ev in Hv. clear Ev.
      destruct (try_key fetch endpoint params cost k key s) as [x s1] eqn:T.
      destruct (try_key_spec _ _ _ _ _ _ _ _ _ Ek T) as (R1 & A1 & C1 & _ & L & X).
      destruct (ledger_after_pool _ _ _ _ _ _ Ek L) as (El & Eo & Evl).
      assert (Ev1 : visit cost startIndex s1 todo = visit cost startIndex s todo)
        by (by apply (visit_stable cost startIndex s s1 k)).
      assert (Er1 := req_at_stable endpoint params s s1 Evl).
      assert (Step : forall le,
        rotate fetch endpoint params cost startIndex todo le s1 = (r, s') ->
        is_Some (observed (fetch (length (requests s)) (req_at endpoint params s k))) ->
        is_Some (observed (fetch (length (requests s) + i)%nat
                                 (req_at endpoint params s j)))).
      { intros le Hr Hobs. destruct i as [|i].
        - simpl in Hv. inversion Hv; subst j. by rewrite Nat.add_0_r.
        - simpl in Hv. rewrite <- Ev1 in Hv.
          assert (G := IH le s1 s' r ltac:(lia) ltac:(by rewrite El) Hr i j Hv).
          rewrite R1, A1, !length_app in G. simpl in G.
          rewrite Er1 in G. replace (length (requests s) + S i)%nat
            with (length (requests s) + 1 + i)%nat by lia.
          apply G. lia. }
      destruct x as [e|[le|a]].
      * apply (Step (Some e) H). rewrite X. by eexists.
      * destruct X as (-> & Hs). by apply (Step _ H).
      * inversion H; subst r s'. rewrite A1, length_app in Hi. simpl in Hi. lia.
Qed.

End Failures.

Lemma fetchYouTubeAPI_failures {A} (fetch : Fetch A) (endpoint : string)
    (params : list (string * string)) (s s' : State) (r : exn + A) :
  apiKeys s <> [] ->
  fetchYouTubeAPI fetch endpoint params s = (r, s') ->
  forall i j,
    eligible s (cost_of endpoint) !! i = Some j ->
    (i + match r with inl _ => 0 | inr _ => 1 end
     < length (attempts s') - length (attempts s))%nat ->
    is_Some (observed (fetch (length (requests s) + i)%nat (req_at endpoint params s j))).
Proof.
  intros Hne H. rewrite fetchYouTubeAPI_unfold in H. simpl in H.
  destruct (apiKeys s) as [|k0 ks] eqn:Eks; [done|]. rewrite <- Eks in H.
  apply (rotate_failures fetch endpoint params (cost_of endpoint) (currentKeyIndex s)
           (seq 0 (length (apiKeys s))) None (push_routerCall (endpoint, params) s) s' r).
  - simpl. rewrite Eks. simpl. lia.
  - apply (rotation_NoDup s).
  - exact H.
Qed.

(** C2.  On an empty pool the call fails at once with the configuration
    error and attempts nothing.  On a non-empty pool the eligible
    credentials are attempted in rotation order, each at most once, and the
    call returns the parsed body of the first response that has a success
    status and a body that parses, without attempting a credential after
    it.  When every eligible credential has been attempted and none was
    served, and only then, the call raises; the error it raises is the
    aggregate error, which embeds the message of the error of the last
    attempt, or "Check connection." when no credential was eligible. *)
Theorem fetchYouTubeAPI_returns_or_exhausts {A} (fetch : Fetch A) (endpoint : string)
    (params : list (string * string)) (s : State) :
  let cost := cost_of endpoint in
  let result := fetchYouTubeAPI fetch endpoint params s in
  let tried := eligible s cost in
  let response (i k : nat) :=
    fetch (length (requests s) + i)%nat (req_at endpoint params s k) in
  let failed_before (m : nat) :=
    forall i j, (i < m)%nat -> tried !! i = Some j -> is_Some (observed (response i j)) in
  match apiKeys s with
  | [] =>
      result.1 = inl (Error "Please configure at least one YouTube Data API key in Settings.")
      /\ attempts result.2 = attempts s
      /\ requests result.2 = requests s
  | _ :: _ =>
      NoDup tried
      /\ (forall k, k ∈ tried <->
            exists key, apiKeys s !! k = Some key
                        /\ skipped (length (apiKeys s)) cost key = false)
      /\ (forall m k a,
            tried !! m = Some k ->
            response m k = HttpOk (Json a) ->
            failed_before m ->
            result.1 = inr a
            /\ attempts result.2 = attempts s ++ take (S m) tried
            /\ requests result.2
               = requests s ++ map (req_at endpoint params s) (take (S m) tried))
      /\ (failed_before (length tried) ->
            attempts result.2 = attempts s ++ tried
            /\ requests result.2 = requests s ++ map (req_at endpoint params s) tried
            /\ result.1
               = inl (Error ("API Request failed after trying all keys: "
                             +:+ str_or (message <$> last_observed fetch endpoint params s cost)
                                        "Check connection."))
            /\ match last tried with
               | Some k =>
                   exists err,
                     observed (response (length tried - 1)%nat k) = Some err
                     /\ last_observed fetch endpoint params s cost = Some err
               | None => last_observed fetch endpoint params s cost = None
               end)
      /\ match result.1 with
         | inr a =>
             exists m k, tried !! m = Some k
               /\ response m k = HttpOk (Json a)
               /\ failed_before m
         | inl e => failed_before (length tried)
         end
  end.
Proof.
  intros cost result tried response failed_before.
  destruct (apiKeys s) as [|k0 ks] eqn:Eks.
  { subst result. rewrite fetchYouTubeAPI_unfold, Eks. by simpl. }
  assert (Hne : apiKeys s <> []) by (by rewrite Eks).
  rewrite <- Eks. clear k0 ks Eks.
  split; [apply eligible_NoDup|]. split; [apply eligible_elem|].
  destruct result as [r s'] eqn:Er. subst result.
  destruct (fetchYouTubeAPI_spec fetch endpoint params s s' r Hne Er)
    as (m0 & Hm & Ha & Hq & _ & Hr).
  pose proof (fetchYouTubeAPI_failures fetch endpoint params s s' r Hne Er) as Hf.
  fold cost tried in Hm, Ha, Hq, Hr, Hf.
  assert (Hlen : (length (attempts s') - length (attempts s) = m0)%nat).
  { rewrite Ha, length_app, length_take. lia. }
  rewrite Hlen in Hf. cbn [fst snd].
  assert (Last : forall k, last tried = Some k ->
            last_observed fetch endpoint params s cost
            = observed (response (length tried - 1)%nat k)).
  { intros k Hk. unfold last_observed. fold tried. rewrite Hk. simpl. unfold response.
    do 2 f_equal. destruct tried; [done | simpl; lia]. }
  destruct r as [e|a].
  - destruct Hr as (-> & ->).
    assert (Hall : failed_before (length tried)).
    { intros i j Hi Hj. apply (Hf i j Hj). lia. }
    rewrite firstn_all in Ha, Hq.
    split; [|split; [|exact Hall]].
    + intros m k a Hk Hs _.
      assert (Hm' : (m < length tried)%nat) by (by eapply lookup_lt_Some).
      destruct (Hall m k Hm' Hk) as [err Herr]. unfold response in Hs.
      unfold response in Herr. rewrite Hs in Herr. discriminate.
    + intros _. split; [done|]. split; [done|]. split; [done|].
      destruct (last tried) as [k|] eqn:El.
      * rewrite (Last k eq_refl).
        assert (Hk : tried !! (length tried - 1)%nat = Some k).
        { rewrite <- El. rewrite last_lookup. f_equal. lia. }
        assert (Hi : (length tried - 1 < length tried)%nat) by (by eapply lookup_lt_Some).
        destruct (Hall _ k Hi Hk) as [err Herr]. by exists err.
      * unfold last_observed. fold tried. by rewrite El.
  - destruct Hr as (k & Hk & Hm0 & Hs).
    assert (Hs' : response (m0 - 1)%nat k = HttpOk (Json a)).
    { unfold response. rewrite <- Hs. f_equal. lia. }
    assert (Hbefore : failed_before (m0 - 1)%nat).
    { intros i j Hi Hj. apply (Hf i j Hj). lia. }
    split; [|split; [|by exists (m0 - 1)%nat, k]].
    + intros m k' a' Hk' Hsm Hfm.
      assert (m = (m0 - 1)%nat).
      { destruct (Nat.lt_trichotomy m (m0 - 1)) as [Hlt|[Heq|Hgt]]; [|done|].
        - destruct (Hbefore m k' Hlt Hk') as [err Herr]. rewrite Hsm in Herr. discriminate.
        - destruct (Hfm (m0 - 1)%nat k Hgt Hk) as [err Herr]. rewrite Hs' in Herr.
          discriminate. }
      subst m. rewrite Hk in Hk'. inversion Hk'; subst k'.
      rewrite Hs' in Hsm. inversion Hsm; subst a'.
      replace (S (m0 - 1)) with m0 by lia. done.
    + intros Hall.
      assert (Hi : (m0 - 1 < length tried)%nat) by (by eapply lookup_lt_Some).
      destruct (Hall _ k Hi Hk) as [err Herr]. rewrite Hs' in Herr. discriminate.
Qed.

Lemma fetchYouTubeAPI_returns_or_exhausts_witness :
  let served := fetchYouTubeAPI fetch_400_then_ok "channels" [("part", "id")] two_keys in
  let unserved := fetchYouTubeAPI fetch_offline "channels" [("part", "id")] two_keys in
  served.1 = inr 7%nat
  /\ attempts served.2 = [0; 1]%nat
  /\ unserved.1 = inl (Error "API Request failed after trying all keys: Failed to fetch")
  /\ attempts unserved.2 = [0; 1]%nat
  /\ (fetchYouTubeAPI fetch_offline "channels" [("part", "id")] (fresh [])).1
     = inl (Error "Please configure at least one YouTube Data API key in Settings.").
Proof.
  intros served unserved. subst served unserved.
  pose proof (fetchYouTubeAPI_returns_or_exhausts fetch_400_then_ok "channels"
                [("part", "id")] two_keys) as H1.
  pose proof (fetchYouTubeAPI_returns_or_exhausts fetch_offline "channels"
                [("part", "id")] two_keys) as H2.
  pose proof (fetchYouTubeAPI_returns_or_exhausts fetch_offline "channels"
                [("part", "id")] (fresh [])) as H0.
  cbv zeta in H1, H2, H0.
  change (apiKeys two_keys) with [key "k0" valid None; key "k1" valid None] in H1, H2.
  change (apiKeys (fresh [])) with (@nil ApiKey.t) in H0.
  cbv iota in H1, H2, H0.
  destruct H0 as (E0 & _). destruct H1 as (_ & _ & Hs & _). destruct H2 as (_ & _ & _ & Hu & _).
  destruct (Hs 1%nat 1%nat 7%nat) as (R1 & A1 & _).
  { vm_compute. reflexivity. }
  { vm_compute. reflexivity. }
  { intros i j Hi Hj. destruct i as [|i]; [|lia]. vm_compute in Hj. inversion Hj; subst j.
    vm_compute. by eexists. }
  destruct Hu as (A2 & _ & R2 & _).
  { intros i j Hi Hj. vm_compute. by eexists. }
  split; [exact R1|]. split; [rewrite A1; vm_compute; reflexivity|].
  split; [rewrite R2; vm_compute; reflexivity|].
  split; [rewrite A2; vm_compute; reflexivity | exact E0].
Defined.

Lemma eligibleb_acceptable (s : State) (cost : Z) (k : nat) :
  (1 < length (apiKeys s))%nat -> eligibleb s cost k = acceptable s cost k.
Proof.
  intros Hn. unfold eligibleb, acceptable, skipped.
  destruct (apiKeys s !! k) as [key|]; [|done].
  apply Nat.ltb_lt in Hn. rewrite Hn. rewrite Z.leb_antisym.
  destruct (bool_decide (ApiKey.status key = invalid)),
           (bool_decide (ApiKey.status key = quota_exceeded)),
           (10000 <? num_or0 (ApiKey.dailyUsage key) + cost); reflexivity.
Qed.

(** C3.  With more than one credential in the pool, the credentials a call
    attempts are, in rotation order, exactly the leading ones among those
    that are neither invalid nor out of quota and whose daily usage plus the
    cost stays within 10,000: no other credential is ever attempted.  With
    one credential in the pool, the call attempts it whatever its status
    and usage. *)
Theorem skip_policy {A} (fetch : Fetch A) (endpoint : string)
    (params : list (string * string)) (s : State) :
  let cost := cost_of endpoint in
  let s' := (fetchYouTubeAPI fetch endpoint params s).2 in
  match apiKeys s with
  | [] => attempts s' = attempts s
  | [_] => attempts s' = attempts s ++ [0%nat]
  | _ :: _ :: _ =>
      exists m, attempts s'
                = attempts s ++ take m (List.filter (acceptable s cost) (rotation s))
  end.
Proof.
  intros cost s'. subst s'.
  destruct (apiKeys s) as [|k0 ks] eqn:Eks.
  - rewrite fetchYouTubeAPI_unfold, Eks. by simpl.
  - destruct (fetchYouTubeAPI fetch endpoint params s) as [r s'] eqn:Er.
    destruct (fetchYouTubeAPI_spec fetch endpoint params s s' r) as (m & Hm & Ha & _ & _ & Hr);
      [by rewrite Eks | done |].
    fold cost in Hm, Ha, Hr. simpl.
    destruct ks as [|k1 ks].
    + assert (El : eligible s cost = [0%nat]).
      { unfold eligible, rotation, eligibleb. rewrite Eks.
        change (length [k0]) with 1%nat. change (seq 0 1) with [0%nat].
        cbn [map List.filter]. unfold idx. rewrite Nat.mod_1_r.
        cbn [lookup list_lookup]. unfold skipped.
        change (1 <? 1)%nat with false. by rewrite andb_false_r. }
      rewrite El in *. simpl in *.
      assert (m = 1%nat) as ->; [|done].
      destruct r as [e|a]; [by destruct Hr | destruct Hr as (_ & _ & ? & _); lia].
    + exists m. rewrite Ha. f_equal. f_equal. unfold eligible.
      apply List.filter_ext. intros k. apply eligibleb_acceptable.
      rewrite Eks. simpl. lia.
Qed.

Lemma skip_policy_witness :
  attempts (fetchYouTubeAPI fetch_offline "channels" [("part", "id")] one_key).2 = [0%nat]
  /\ (exists m,
        attempts (fetchYouTubeAPI fetch_ok "search" [("part", "snippet")] three_keys).2
        = take m [2%nat]).
Proof.
  split.
  - exact (skip_policy fetch_offline "channels" [("part", "id")] one_key).
  - destruct (skip_policy fetch_ok "search" [("part", "snippet")] three_keys) as [m Hm].
    exists m. rewrite Hm. vm_compute. reflexivity.
Defined.

Lemma getTotalDailyUsage_sum (s : State) :
  getTotalDailyUsage s = sum_usage (apiKeys s).
Proof.
  unfold getTotalDailyUsage, sum_usage.
  induction (apiKeys s) as [|k l IH]; simpl; [done|].
  rewrite foldl_usage_shift, IH. lia.
Qed.




(** ** Replacing the credential list *)

Lemma find_key_first (v : string) (ks : list ApiKey.t) (j : nat) (e : ApiKey.t) :
  ks !! j = Some e ->
  ApiKey.value e = v ->
  (forall j' e', (j' < j)%nat -> ks !! j' = Some e' -> ApiKey.value e' <> v) ->
  find_key v ks = Some e.
Proof.
  revert j. induction ks as [|k ks IH]; intros j Ej Ev Hfirst; [done|].
  unfold find_key. simpl. destruct j as [|j]; simpl in Ej.
  - inversion Ej; subst k. by rewrite bool_decide_eq_true_2.
  - rewrite bool_decide_eq_false_2.
    + apply (IH j); [done | done |]. intros j' e' Hj' Ej'.
      apply (Hfirst (S j') e'); [lia | done].
    + apply (Hfirst 0%nat k); [lia | done].
Qed.

Lemma find_key_none (v : string) (ks : list ApiKey.t) :
  (forall e, e ∈ ks -> ApiKey.value e <> v) -> find_key v ks = None.
Proof.
  induction ks as [|k ks IH]; intros Hno; [done|].
  unfold find_key. simpl. rewrite bool_decide_eq_false_2.
  - apply IH. intros e He. apply Hno. by right.
  - apply Hno. by left.
Qed.

(** C5 (as stated, refuted).  The new list carries a [dailyUsage] of its
    own for a credential that is already tracked with 70 units and for a
    credential that is new: the first ends at 5, not at the accumulated 70,
    and the second at 9, not at 0. *)
Lemma incoming_usage_wins :
  let s := fresh [key "A" valid (Some 70)] in
  let s' := setApiKeys [key "A" valid (Some 5); key "B" unknown (Some 9)] s in
  usage_at s 0 = 70
  /\ usage_at s' 0 <> 70
  /\ usage_at s' 1 <> 0.
Proof. vm_compute. repeat split; congruence. Qed.

(** C5 (amended).  [setApiKeys] replaces the working set, keeping the value
    and status of every credential of the new list, in order.  A credential
    that comes with a [dailyUsage] of its own keeps it; one that comes
    without takes the accumulated usage of the first credential of the
    previous set with the same value, and 0 when the previous set has none.
    The cursor is reset to 0 when it is out of bounds for the new list and
    is left alone otherwise; the quota observer gets the recomputed
    totals. *)
Theorem setApiKeys_merges_usage (keys : list ApiKey.t) (s : State) :
  let s' := setApiKeys keys s in
  length (apiKeys s') = length keys
  /\ (forall i newKey, keys !! i = Some newKey ->
        exists k', apiKeys s' !! i = Some k'
          /\ ApiKey.value k' = ApiKey.value newKey
          /\ ApiKey.status k' = ApiKey.status newKey
          /\ (forall u, ApiKey.dailyUsage newKey = Some u -> ApiKey.dailyUsage k' = Some u)
          /\ (ApiKey.dailyUsage newKey = None ->
              forall j e, apiKeys s !! j = Some e ->
                ApiKey.value e = ApiKey.value newKey ->
                (forall j' e', (j' < j)%nat -> apiKeys s !! j' = Some e' ->
                               ApiKey.value e' <> ApiKey.value newKey) ->
                ApiKey.dailyUsage k' = Some (num_or0 (ApiKey.dailyUsage e)))
          /\ (ApiKey.dailyUsage newKey = None ->
              (forall e, e ∈ apiKeys s -> ApiKey.value e <> ApiKey.value newKey) ->
              ApiKey.dailyUsage k' = Some 0))
  /\ currentKeyIndex s'
     = (if decide (currentKeyIndex s < length keys)%nat then currentKeyIndex s else 0%nat)
  /\ sessionQuotaUsed s' = sessionQuotaUsed s
  /\ (onQuotaChangeCallback s = true ->
      last (quotaEvents s') = Some (mkQuota (sessionQuotaUsed s) (sum_usage (apiKeys s')))).
Proof.
  intros s'. subst s'. unfold setApiKeys.
  set (merged := map _ keys).
  set (s1 := set_apiKeys merged s).
  set (s2 := if (length (apiKeys s1) <=? currentKeyIndex s1)%nat
             then set_currentKeyIndex 0 s1 else s1).
  assert (K2 : apiKeys s2 = merged) by (subst s2; by destruct (_ <=? _)%nat).
  assert (Q2 : sessionQuotaUsed s2 = sessionQuotaUsed s
               /\ onQuotaChangeCallback s2 = onQuotaChangeCallback s
               /\ quotaEvents s2 = quotaEvents s)
    by (subst s2; by destruct (_ <=? _)%nat).
  destruct Q2 as (Q2 & Cb2 & Ev2).
  assert (C2 : currentKeyIndex s2
               = if decide (currentKeyIndex s < length keys)%nat
                 then currentKeyIndex s else 0%nat).
  { subst s2. simpl. subst merged. rewrite length_map.
    destruct (Nat.leb_spec (length keys) (currentKeyIndex s));
      destruct (decide _); simpl; lia. }
  assert (KN : apiKeys (notifyQuota s2) = merged
               /\ currentKeyIndex (notifyQuota s2) = currentKeyIndex s2
               /\ sessionQuotaUsed (notifyQuota s2) = sessionQuotaUsed s2).
  { unfold notifyQuota. by destruct (onQuotaChangeCallback s2). }
  destruct KN as (KN & CN & QN). rewrite KN, CN, QN.
  split; [subst merged; apply length_map|].
  split; [|split; [done|split; [done|]]].
  - intros i newKey Ei. subst merged. rewrite list_lookup_fmap, Ei. simpl.
    eexists. split; [reflexivity|]. simpl. split; [done|]. split; [done|].
    unfold merged_usage. split; [|split].
    + intros u ->. done.
    + intros -> j e Ej Ev Hfirst. by rewrite (find_key_first _ _ j e).
    + intros -> Hno. by rewrite find_key_none.
  - intros Hcb. unfold notifyQuota. rewrite Cb2, Hcb. simpl.
    rewrite Ev2, last_snoc, Q2, getTotalDailyUsage_sum, K2. done.
Qed.

Lemma setApiKeys_merges_usage_witness :
  let s := fresh [key "A" valid (Some 70)] in
  let s' := setApiKeys [key "A" unknown None; key "B" unknown None] s in
  (ApiKey.dailyUsage <$> apiKeys s' !! 0%nat) = Some (Some 70)
  /\ (ApiKey.dailyUsage <$> apiKeys s' !! 1%nat) = Some (Some 0).
Proof.
  destruct (setApiKeys_merges_usage [key "A" unknown None; key "B" unknown None]
              (fresh [key "A" valid (Some 70)])) as (_ & H & _).
  split.
  - destruct (H 0%nat (key "A" unknown None) eq_refl) as (k' & -> & _ & _ & _ & Hold & _).
    simpl. f_equal.
    apply (Hold eq_refl 0%nat (key "A" valid (Some 70)) eq_refl eq_refl).
    intros j' e' Hj'. lia.
  - destruct (H 1%nat (key "B" unknown None) eq_refl) as (k' & -> & _ & _ & _ & _ & Hnew).
    simpl. f_equal. apply (Hnew eq_refl).
    intros e He. apply list_elem_of_singleton in He. subst e. simpl. congruence.
Defined.

(** ** The validator *)

(** C9 (as stated, refuted).  The message for an empty credential ends
    with a full stop: it is not the string the claim gives. *)
Lemma empty_key_message_differs :
  (validateYouTubeApiKey offline "" (fresh [])).1
  <> inr (mkValidation invalid (Some "Key cannot be empty")).
Proof. vm_compute. congruence. Qed.

(** C9 (amended).  Validation never throws.  An empty or blank credential
    is reported invalid with the message "Key cannot be empty." and no
    request is issued, the state being left as it was.  For any other
    credential, a fetch that rejects, or an error body that fails to parse,
    is caught and reported invalid with the message of the exception. *)
Theorem validateYouTubeApiKey_never_throws (w : World) (key : string) (s : State) :
  (exists v s', validateYouTubeApiKey w key s = (inr v, s'))
  /\ (key = "" \/ trim key = "" ->
      validateYouTubeApiKey w key s
      = (inr (mkValidation invalid (Some "Key cannot be empty.")), s))
  /\ (trim key <> "" ->
      forall msg,
        channels w (length (requests s)) (validation_request key) = FetchRejected msg
        \/ (exists status,
              channels w (length (requests s)) (validation_request key)
              = HttpError status (SyntaxError msg)) ->
        (validateYouTubeApiKey w key s).1 = inr (mkValidation invalid (Some msg))).
Proof.
  assert (T : trim "" = "") by reflexivity.
  unfold validateYouTubeApiKey. fold (validation_request key).
  destruct (decide (trim key = "")) as [Ht|Ht].
  - rewrite (bool_decide_eq_true_2 _ Ht), orb_true_r.
    split; [by eexists _, _|]. split; [done|done].
  - assert (Hk : key <> "") by (intros ->; done).
    rewrite (bool_decide_eq_false_2 _ Ht), (bool_decide_eq_false_2 _ Hk). simpl.
    unfold try_catch, ret.
    split; [|split].
    + destruct (channels w _ _) as [msg|body|status [msg|[|err]]]; try by eexists _, _.
      destruct (_ || _); by eexists _, _.
    + intros [->|Hb]; done.
    + intros _ msg [-> | (status & ->)]; done.
Qed.

Lemma validateYouTubeApiKey_never_throws_witness :
  validateYouTubeApiKey offline "   " (fresh [])
  = (inr (mkValidation invalid (Some "Key cannot be empty.")), fresh [])
  /\ (validateYouTubeApiKey offline "AIza" (fresh [])).1
     = inr (mkValidation invalid (Some "Failed to fetch")).
Proof.
  destruct (validateYouTubeApiKey_never_throws offline "   " (fresh [])) as (_ & B & _).
  destruct (validateYouTubeApiKey_never_throws offline "AIza" (fresh [])) as (_ & _ & T).
  split.
  - apply B. right. reflexivity.
  - apply T; [vm_compute; congruence | left; reflexivity].
Defined.

(** ** Channel statistics *)

Lemma try_catch_total {B} (m : M B) (h : exn -> M B) (s : State) :
  (forall e s1, exists b s2, h e s1 = (inr b, s2)) ->
  exists b s', try_catch m h s = (inr b, s').
Proof.
  intros Hh. unfold try_catch. destruct (m s) as [[e|b] s1]; [apply Hh | by eexists _, _].
Qed.

Lemma resolveChannelId_total (w : World) (channelIdentifier : string) (s : State) :
  exists resolvedId s1, resolveChannelId w channelIdentifier s = (inr resolvedId, s1).
Proof.
  unfold resolveChannelId.
  destruct (String.prefix "UC" channelIdentifier); [by eexists _, _|].
  unfold bind at 1.
  destruct (try_catch_total
              (let* data := fetchYouTubeAPI (channels w) "channels"
                              [("part", "id"); ("forUsername", channelIdentifier)] in
               match Channel.items data with
               | Some (c :: _) => ret (Some (Channel.id c))
               | _ => ret None
               end)
              (fun _ => ret None) s) as (byName & s1 & ->);
    [intros; by eexists _, _|].
  destruct byName as [found|]; [by eexists _, _|].
  unfold bind at 1.
  destruct (try_catch_total
              (let* searchData := fetchYouTubeAPI (search w) "search"
                                    [("part", "snippet"); ("q", channelIdentifier);
                                     ("type", "channel"); ("maxResults", "1")] in
               match SearchResult.items searchData with
               | Some (r :: _) =>
                   let* sn := deref (SearchResult.snippet r) in
                   ret (Some (SearchResult.channelId sn))
               | _ => ret None
               end)
              (fun _ => ret None) s1) as (bySearch & s2 & ->);
    [intros; by eexists _, _|].
  destruct bySearch; by eexists _, _.
Qed.

Lemma getChannelStats_total (w : World) (channelIdentifier : string) (s : State) :
  exists r s', getChannelStats w channelIdentifier s = (inr r, s').
Proof.
  unfold getChannelStats, bind at 1.
  destruct (resolveChannelId_total w channelIdentifier s) as (resolvedId & s1 & ->).
  apply try_catch_total. intros. by eexists _, _.
Qed.

Lemma getChannelStats_placeholder (w : World) (channelIdentifier resolvedId : string)
    (s s1 : State) :
  resolveChannelId w channelIdentifier s = (inr resolvedId, s1) ->
  no_metadata w resolvedId s1 ->
  exists s', getChannelStats w channelIdentifier s = (inr (placeholder w resolvedId), s').
Proof.
  intros Er Hno. unfold getChannelStats, bind at 1. rewrite Er.
  unfold no_metadata, metadata_call in Hno. unfold try_catch, bind at 1.
  destruct (fetchYouTubeAPI _ _ _ s1) as [[e|data] s2]; [by eexists|].
  simpl in Hno. destruct Hno as [-> | ->]; by eexists.
Qed.

(** C6.  [getChannelStats] never raises.  When the channel-metadata call
    fails or resolves to no metadata, the record it returns has status
    terminated and the three counters equal to the string "0". *)
Theorem getChannelStats_never_raises (w : World) (channelIdentifier : string) (s : State) :
  (exists r s', getChannelStats w channelIdentifier s = (inr r, s'))
  /\ (exists resolvedId s1, resolveChannelId w channelIdentifier s = (inr resolvedId, s1))
  /\ (forall resolvedId s1,
        resolveChannelId w channelIdentifier s = (inr resolvedId, s1) ->
        no_metadata w resolvedId s1 ->
        exists r s',
          getChannelStats w channelIdentifier s = (inr r, s')
          /\ ChannelStats.status r = Some ChannelStats.terminated
          /\ ChannelStats.subscriberCount r = "0"
          /\ ChannelStats.videoCount r = "0"
          /\ ChannelStats.viewCount r = "0").
Proof.
  split; [apply getChannelStats_total|]. split; [apply resolveChannelId_total|].
  intros resolvedId s1 Er Hno.
  destruct (getChannelStats_placeholder w channelIdentifier resolvedId s s1 Er Hno)
    as (s' & E).
  exists (placeholder w resolvedId), s'. by repeat split.
Qed.

Lemma getChannelStats_never_raises_witness :
  (exists r s',
     getChannelStats offline "somehandle" (fresh []) = (inr r, s')
     /\ ChannelStats.status r = Some ChannelStats.terminated
     /\ ChannelStats.subscriberCount r = "0"
     /\ ChannelStats.videoCount r = "0"
     /\ ChannelStats.viewCount r = "0")
  /\ (exists r s',
        getChannelStats no_such_channel "somehandle" (fresh [key "k0" valid None])
        = (inr r, s')
        /\ ChannelStats.status r = Some ChannelStats.terminated
        /\ ChannelStats.subscriberCount r = "0"
        /\ ChannelStats.videoCount r = "0"
        /\ ChannelStats.viewCount r = "0").
Proof.
  split.
  - destruct (getChannelStats_never_raises offline "somehandle" (fresh [])) as (_ & _ & H).
    apply (H "somehandle" (resolveChannelId offline "somehandle" (fresh [])).2).
    + vm_compute. reflexivity.
    + vm_compute. exact I.
  - destruct (getChannelStats_never_raises no_such_channel "somehandle"
                (fresh [key "k0" valid None])) as (_ & _ & H).
    apply (H "somehandle"
             (resolveChannelId no_such_channel "somehandle"
                (fresh [key "k0" valid None])).2).
    + vm_compute. reflexivity.
    + vm_compute. right. reflexivity.
Defined.

(** C10.  In the placeholder returned on metadata failure, [id] is the
    resolved identifier when that starts with "UC" and the literal
    "INVALID_ID" otherwise, and [title] and [customUrl] are the resolved
    identifier; so for an identifier that is not canonical the [id] of the
    record is "INVALID_ID", which is not a channel id of the platform. *)
Theorem placeholder_identity (w : World) (channelIdentifier resolvedId : string)
    (s s1 : State) :
  resolveChannelId w channelIdentifier s = (inr resolvedId, s1) ->
  no_metadata w resolvedId s1 ->
  exists r s',
    getChannelStats w channelIdentifier s = (inr r, s')
    /\ ChannelStats.id r
       = (if String.prefix "UC" resolvedId then resolvedId else "INVALID_ID")
    /\ ChannelStats.title r = resolvedId
    /\ ChannelStats.customUrl r = resolvedId
    /\ (String.prefix "UC" resolvedId = false ->
        ChannelStats.id r = "INVALID_ID"
        /\ String.prefix "UC" (ChannelStats.id r) = false).
Proof.
  intros Er Hno.
  destruct (getChannelStats_placeholder w channelIdentifier resolvedId s s1 Er Hno)
    as (s' & E).
  exists (placeholder w resolvedId), s'. simpl.
  split; [done|]. split; [done|]. split; [done|]. split; [done|].
  intros ->. done.
Qed.

Lemma placeholder_identity_witness :
  (exists r s',
     getChannelStats offline "somehandle" (fresh []) = (inr r, s')
     /\ ChannelStats.id r = "INVALID_ID"
     /\ ChannelStats.title r = "somehandle"
     /\ ChannelStats.customUrl r = "somehandle")
  /\ (exists r s',
        getChannelStats offline "UCabc" (fresh []) = (inr r, s')
        /\ ChannelStats.id r = "UCabc"
        /\ ChannelStats.title r = "UCabc"
        /\ ChannelStats.customUrl r = "UCabc").
Proof.
  split.
  - destruct (placeholder_identity offline "somehandle" "somehandle" (fresh [])
                (resolveChannelId offline "somehandle" (fresh [])).2)
      as (r & s' & E & I1 & I2 & I3 & _);
      [vm_compute; reflexivity | vm_compute; exact I |].
    exists r, s'. by repeat split.
  - destruct (placeholder_identity offline "UCabc" "UCabc" (fresh []) (fresh []))
      as (r & s' & E & I1 & I2 & I3 & _);
      [vm_compute; reflexivity | vm_compute; exact I |].
    exists r, s'. by repeat split.
Defined.

(** ** One page of videos *)

Lemma video_map_acc_Some (items : list Video.t) (m : gmap string Video.t)
    (k : string) (item : Video.t) :
  foldl (fun m item => <[Video.id item := item]> m) m items !! k = Some item ->
  (item ∈ items /\ Video.id item = k) \/ m !! k = Some item.
Proof.
  revert m. induction items as [|x items IH]; intros m; simpl; [by right|].
  intros L. destruct (IH _ L) as [[Hin Hid] | Hm].
  - left. split; [by right | done].
  - destruct (decide (Video.id x = k)) as [E|E].
    + subst k. rewrite lookup_insert_eq in Hm. inversion Hm; subst x.
      left. split; [by left | done].
    + rewrite lookup_insert_ne in Hm by done. by right.
Qed.

Lemma video_map_acc_None (items : list Video.t) (m : gmap string Video.t) (k : string) :
  foldl (fun m item => <[Video.id item := item]> m) m items !! k = None <->
  (k ∉ map Video.id items) /\ m !! k = None.
Proof.
  revert m. induction items as [|x items IH]; intros m; simpl.
  - split; [intros H; split; [apply not_elem_of_nil | done] | tauto].
  - rewrite IH, lookup_insert_None, not_elem_of_cons.
    split; [intros (? & ? & ?) | intros ((? & ?) & ?)]; repeat split; congruence.
Qed.

Lemma video_map_Some (items : list Video.t) (k : string) (item : Video.t) :
  video_map items !! k = Some item -> item ∈ items /\ Video.id item = k.
Proof.
  intros L. by destruct (video_map_acc_Some _ _ _ _ L) as [H | H].
Qed.

Lemma video_map_None (items : list Video.t) (k : string) :
  video_map items !! k = None <-> k ∉ map Video.id items.
Proof.
  unfold video_map. rewrite video_map_acc_None, lookup_empty. tauto.
Qed.

Lemma omap_cons_app {B C} (f : B -> option C) (x : B) (l : list B) :
  omap f (x :: l) = omap f [x] ++ omap f l.
Proof. simpl. by destruct (f x). Qed.

Lemma rebuild_all (vitems : list Video.t) (ids : list (option string)) :
  Forall (fun item => is_Some (video_to_stat item)) vitems ->
  exists rebuilt,
    mapM (rebuild (video_map vitems)) ids = Some rebuilt
    /\ map VideoStat.id (omap (fun v => v) rebuilt)
       = List.filter (fun k => bool_decide (k ∈ map Video.id vitems)) (defined_ids ids)
    /\ Forall (fun v => exists item, item ∈ vitems /\ video_to_stat item = Some v)
              (omap (fun v => v) rebuilt).
Proof.
  intros Hconv. induction ids as [|id ids (rebuilt & E & Hids & Hfrom)].
  - exists []. by repeat split.
  - assert (Hone : exists r, rebuild (video_map vitems) id = Some r
             /\ map VideoStat.id (omap (fun v => v) [r])
                = List.filter (fun k => bool_decide (k ∈ map Video.id vitems))
                              (defined_ids [id])
             /\ Forall (fun v => exists item, item ∈ vitems /\ video_to_stat item = Some v)
                       (omap (fun v => v) [r])).
    { unfold rebuild. destruct id as [k|]; simpl.
      - destruct (video_map vitems !! k) as [item|] eqn:L.
        + destruct (video_map_Some _ _ _ L) as [Hin Hid].
          rewrite Forall_forall in Hconv. destruct (Hconv item Hin) as [v Ev].
          exists (Some v). rewrite Ev. simpl. split; [done|]. split.
          * rewrite bool_decide_eq_true_2.
            -- unfold video_to_stat in Ev.
               destruct (Video.snippet item), (Video.statistics item); simpl in Ev;
                 try done. inversion Ev; subst v. simpl. by rewrite Hid.
            -- apply list_elem_of_fmap. by exists item.
          * apply Forall_cons. split; [by exists item | constructor].
        + exists None. split; [done|]. split; [|constructor]. simpl.
          rewrite bool_decide_eq_false_2; [done|]. by apply video_map_None.
      - exists None. repeat split; constructor. }
    destruct Hone as (r & Er & Hr1 & Hr2).
    exists (r :: rebuilt). split.
    { simpl. rewrite Er. simpl. rewrite E. done. }
    unfold defined_ids in *.
    rewrite (omap_cons_app _ r rebuilt), (omap_cons_app _ id ids).
    rewrite map_app, List.filter_app, Hr1, Hids. split; [done|].
    apply Forall_app. done.
Qed.

(** C7.  [getChannelVideos] never raises.  When the playlist call, the
    statistics call or the traversal of a payload fails, it returns an empty
    list and no continuation token.  When both calls succeed, the videos it
    returns are those entries of the playlist page whose id occurs in the
    statistics response, in the order of the page, whatever the order of
    the statistics response; an entry whose id is absent from the
    statistics response is left out. *)
Theorem getChannelVideos_page (w : World) (playlistId : string) (maxResults : Z)
    (pageToken : option string) (s : State) :
  let run := getChannelVideos w playlistId maxResults pageToken s in
  let call1 := fetchYouTubeAPI (playlistItems w) "playlistItems"
                 (playlistParams playlistId maxResults pageToken) in
  (exists page s', run = (inr page, s'))
  /\ (forall e s1, call1 s = (inl e, s1) -> run = (inr (mkVideoPage [] None), s1))
  /\ (forall pdata s1 pitems,
        call1 s = (inr pdata, s1) ->
        PlaylistItem.items pdata = Some pitems ->
        videoIds pitems <> "" ->
        let call2 := fetchYouTubeAPI (videos w) "videos"
                       [("part", "snippet,statistics"); ("id", videoIds pitems)] in
        (forall e s2, call2 s1 = (inl e, s2) -> run = (inr (mkVideoPage [] None), s2))
        /\ (forall vdata s2,
              call2 s1 = (inr vdata, s2) ->
              Video.items vdata = None \/ mapM videoId_strict pitems = None ->
              run = (inr (mkVideoPage [] None), s2))
        /\ (forall vdata s2 vitems ids,
              call2 s1 = (inr vdata, s2) ->
              Video.items vdata = Some vitems ->
              mapM videoId_strict pitems = Some ids ->
              Forall (fun item => is_Some (video_to_stat item)) vitems ->
              exists vs,
                run = (inr (mkVideoPage vs (PlaylistItem.nextPageToken pdata)), s2)
                /\ map VideoStat.id vs
                   = List.filter (fun k => bool_decide (k ∈ map Video.id vitems))
                                 (defined_ids ids)
                /\ Forall (fun v => exists item,
                             item ∈ vitems /\ video_to_stat item = Some v) vs)).
Proof.
  intros run call1. subst run. unfold getChannelVideos. fold call1.
  split; [apply try_catch_total; intros; by eexists _, _|].
  split.
  { intros e s1 E. unfold try_catch, bind. by rewrite E. }
  intros pdata s1 pitems E1 Ei Hv.
  set (call2 := fetchYouTubeAPI (videos w) "videos"
                  [("part", "snippet,statistics"); ("id", videoIds pitems)]).
  assert (Hne : exists p ps, pitems = p :: ps).
  { destruct pitems as [|p ps]; [by destruct Hv | by eexists _, _]. }
  destruct Hne as (p & ps & Hp).
  assert (Step : forall k,
    try_catch
      (let* playlistData := call1 in
       match PlaylistItem.items playlistData with
       | None | Some [] => ret (mkVideoPage [] None)
       | Some pitems =>
           if bool_decide (videoIds pitems = "")
           then ret (mkVideoPage [] (PlaylistItem.nextPageToken playlistData))
           else k pitems playlistData
       end)
      (fun _ => ret (mkVideoPage [] None)) s
    = try_catch (k pitems pdata) (fun _ => ret (mkVideoPage [] None)) s1).
  { intros k. unfold try_catch, bind at 1. rewrite E1, Ei, Hp. rewrite <- Hp.
    by rewrite (bool_decide_eq_false_2 _ Hv). }
  rewrite (Step (fun pitems playlistData =>
    let* videosData := fetchYouTubeAPI (videos w) "videos"
                         [("part", "snippet,statistics"); ("id", videoIds pitems)] in
    let* vitems := deref (Video.items videosData) in
    let videoDataMap := video_map vitems in
    let* originalOrderVideoIds := deref (mapM videoId_strict pitems) in
    let* rebuilt := deref (mapM (rebuild videoDataMap) originalOrderVideoIds) in
    ret (mkVideoPage (omap (fun v => v) rebuilt)
                     (PlaylistItem.nextPageToken playlistData)))).
  fold call2. clear Step. split; [|split].
  - intros e s2 E2. unfold try_catch, bind at 1. by rewrite E2.
  - intros vdata s2 E2 Hbad. unfold try_catch, bind at 1. rewrite E2.
    destruct (Video.items vdata) as [vitems|] eqn:Ev; [|done].
    destruct Hbad as [Hbad|Hbad]; [done|]. simpl. unfold bind at 1. simpl.
    by rewrite Hbad.
  - intros vdata s2 vitems ids E2 Ev Eids Hconv.
    destruct (rebuild_all vitems ids Hconv) as (rebuilt & Er & Hids & Hfrom).
    exists (omap (fun v => v) rebuilt). split; [|done].
    unfold try_catch, bind at 1. rewrite E2, Ev. simpl. unfold bind at 1. simpl.
    rewrite Eids. simpl. unfold bind at 1. simpl. rewrite Er. done.
Qed.

Lemma getChannelVideos_page_witness :
  exists vs s',
    getChannelVideos shuffled "PLuploads" 50 None (fresh [key "k0" valid None])
    = (inr (mkVideoPage vs (Some "NEXT")), s')
    /\ map VideoStat.id vs = ["v1"; "v3"].
Proof.
  set (s0 := fresh [key "k0" valid None]).
  destruct (getChannelVideos_page shuffled "PLuploads" 50 None s0) as (_ & _ & H).
  destruct (H page123
              (fetchYouTubeAPI (playlistItems shuffled) "playlistItems"
                 (playlistParams "PLuploads" 50 None) s0).2
              [pitem "v1"; pitem "v2"; pitem "v3"]) as (_ & _ & H2);
    [vm_compute; reflexivity | reflexivity | vm_compute; congruence |].
  destruct (H2 stats31
              (getChannelVideos shuffled "PLuploads" 50 None s0).2
              [vitem "v3"; vitem "v1"]
              [Some "v1"; Some "v2"; Some "v3"]) as (vs & E & Hids & _);
    [vm_compute; reflexivity | reflexivity | reflexivity
    | repeat constructor; by eexists |].
  exists vs, (getChannelVideos shuffled "PLuploads" 50 None s0).2.
  split; [exact E|]. rewrite Hids. vm_compute. reflexivity.
Defined.

(** ** The batch fetch *)

Lemma fetchYouTubeAPI_routerCalls {A} (fetch : Fetch A) (endpoint : string)
    (params : list (string * string)) (s : State) :
  routerCalls (fetchYouTubeAPI fetch endpoint params s).2
  = routerCalls s ++ [(endpoint, params)].
Proof.
  destruct (fetchYouTubeAPI fetch endpoint params s) as [r s'] eqn:E.
  destruct (decide (apiKeys s = [])) as [Hk|Hk].
  - rewrite fetchYouTubeAPI_unfold, Hk in E. simpl in E. by inversion E.
  - by destruct (fetchYouTubeAPI_spec fetch endpoint params s s' r Hk E)
      as (m & _ & _ & _ & Hc & _).
Qed.

Lemma batch_chunk_result (w : World) (chunk : list string)
    (results : list ChannelStats.t) (s : State) :
  batch_chunk w chunk results s
  = (inr (results ++ (chunk_result w chunk s).1), (chunk_result w chunk s).2).
Proof.
  unfold batch_chunk, chunk_result, try_catch, bind at 1. fold (chunk_call w chunk).
  destruct (chunk_call w chunk s) as [[e|data] s1]; simpl.
  - by rewrite app_nil_r.
  - destruct (Channel.items data) as [its|]; simpl.
    + unfold bind. destruct (mapM channel_to_stats its); simpl; [done|].
      by rewrite app_nil_r.
    + by rewrite app_nil_r.
Qed.

Lemma chunk_results_cons (w : World) (c : list string) (cs : list (list string))
    (s : State) :
  chunk_results w (c :: cs) s
  = ((chunk_result w c s).1 :: (chunk_results w cs (chunk_result w c s).2).1,
     (chunk_results w cs (chunk_result w c s).2).2).
Proof.
  simpl. destruct (chunk_result w c s) as [r s1]. simpl.
  by destruct (chunk_results w cs s1).
Qed.

Lemma batch_loop_chunks (w : World) (channelIds : list string) (fuel : nat) :
  forall (i : nat) (results : list ChannelStats.t) (s : State),
  (length channelIds - i <= fuel)%nat ->
  batch_loop w channelIds fuel i results s
  = (inr (results
          ++ concat (chunk_results w (chunks_fuel fuel 50 (drop i channelIds)) s).1),
     (chunk_results w (chunks_fuel fuel 50 (drop i channelIds)) s).2).
Proof.
  induction fuel as [|fuel IH]; intros i results s Hf.
  - simpl. by rewrite app_nil_r.
  - simpl. destruct (Nat.ltb_spec i (length channelIds)) as [Hi|Hi].
    + destruct (drop i channelIds) as [|x rest] eqn:Ed.
      { apply (f_equal length) in Ed. rewrite length_drop in Ed. simpl in Ed. lia. }
      rewrite <- Ed. rewrite chunk_results_cons. simpl.
      unfold bind at 1. rewrite batch_chunk_result.
      rewrite IH by lia. rewrite drop_drop, <- app_assoc. done.
    + rewrite drop_ge by lia. simpl. by rewrite app_nil_r.
Qed.

Lemma chunks_fuel_concat (fuel : nat) :
  forall l : list string, (length l <= fuel)%nat -> concat (chunks_fuel fuel 50 l) = l.
Proof.
  induction fuel as [|fuel IH]; intros l Hl.
  - destruct l; [done | simpl in Hl; lia].
  - destruct l as [|x l]; [done|].
    assert (Hpos : (0 < length (x :: l))%nat) by (simpl; lia).
    remember (x :: l) as l' eqn:El'.
    assert (E : chunks_fuel (S fuel) 50 l'
                = take 50 l' :: chunks_fuel fuel 50 (drop 50 l')) by (by subst l').
    rewrite E. cbn [concat]. rewrite IH; [apply take_drop|].
    rewrite length_drop. lia.
Qed.

Lemma chunks_fuel_bounds (fuel : nat) :
  forall l : list string,
  Forall (fun c => (1 <= length c <= 50)%nat) (chunks_fuel fuel 50 l).
Proof.
  induction fuel as [|fuel IH]; intros l; [constructor|].
  destruct l as [|x l]; [constructor|].
  assert (Hpos : (0 < length (x :: l))%nat) by (simpl; lia).
  remember (x :: l) as l' eqn:El'.
  assert (E : chunks_fuel (S fuel) 50 l'
              = take 50 l' :: chunks_fuel fuel 50 (drop 50 l')) by (by subst l').
  rewrite E. constructor; [|apply IH].
  rewrite length_take. lia.
Qed.

Lemma chunks_fuel_lengths (fuel : nat) :
  forall l : list string,
  (length l <= fuel)%nat ->
  map length (chunks_fuel fuel 50 l)
  = replicate (length l / 50) 50%nat
    ++ (if (length l mod 50 =? 0)%nat then [] else [(length l mod 50)%nat]).
Proof.
  induction fuel as [|fuel IH]; intros l Hl.
  - destruct l; [done | simpl in Hl; lia].
  - destruct l as [|x l]; [done|].
    assert (Hpos : (0 < length (x :: l))%nat) by (simpl; lia).
    remember (x :: l) as l' eqn:El'.
    assert (E : chunks_fuel (S fuel) 50 l'
                = take 50 l' :: chunks_fuel fuel 50 (drop 50 l')) by (by subst l').
    rewrite E. cbn [map]. rewrite IH by (rewrite length_drop; lia).
    rewrite length_take, length_drop.
    destruct (Nat.le_gt_cases 50 (length l')) as [Hge|Hlt].
    + assert (Ed : (length l' / 50 = S ((length l' - 50) / 50))%nat).
      { replace (length l') with ((length l' - 50) + 1 * 50)%nat at 1 by lia.
        rewrite Nat.div_add by lia. lia. }
      assert (Em : (length l' mod 50 = (length l' - 50) mod 50)%nat).
      { replace (length l') with ((length l' - 50) + 1 * 50)%nat at 1 by lia.
        by rewrite Nat.Div0.mod_add. }
      rewrite Ed, Em, Nat.min_l by lia. reflexivity.
    + rewrite (Nat.div_small (length l')), (Nat.mod_small (length l')) by lia.
      replace (length l' - 50)%nat with 0%nat by lia.
      rewrite Nat.min_r by lia.
      destruct (Nat.eqb_spec (length l') 0); [lia|]. reflexivity.
Qed.

Lemma chunk_results_routerCalls (w : World) (cs : list (list string)) :
  forall s : State,
  routerCalls (chunk_results w cs s).2
  = routerCalls s
    ++ map (fun c => ("channels",
                      [("part", "snippet,statistics,contentDetails");
                       ("id", String.concat "," c); ("maxResults", "50")])) cs.
Proof.
  induction cs as [|c cs IH]; intros s.
  - simpl. by rewrite app_nil_r.
  - rewrite chunk_results_cons. simpl. rewrite IH.
    assert (E : routerCalls (chunk_result w c s).2
                = routerCalls s
                  ++ [("channels",
                       [("part", "snippet,statistics,contentDetails");
                        ("id", String.concat "," c); ("maxResults", "50")])]).
    { unfold chunk_result.
      pose proof (fetchYouTubeAPI_routerCalls (channels w) "channels"
                    [("part", "snippet,statistics,contentDetails");
                     ("id", String.concat "," c); ("maxResults", "50")] s) as R.
      fold (chunk_call w c) in R.
      by destruct (chunk_call w c s) as [[e|data] s1]. }
    rewrite E, <- app_assoc. done.
Qed.

(** C8.  [getChannelStatsBatch] cuts the identifier list into consecutive
    chunks of at most 50 (all of 50 but possibly the last) and makes one
    router call per chunk, in order; 120 identifiers make three calls, for
    50, 50 and 20 identifiers.  Its result is the concatenation, in chunk
    order, of what each chunk contributes: the records of the channels its
    call returned, and nothing when its call fails. *)
Theorem getChannelStatsBatch_chunks (w : World) (channelIds : list string) (s : State) :
  let cs := chunks 50 channelIds in
  let result := getChannelStatsBatch w channelIds s in
  concat cs = channelIds
  /\ Forall (fun c => (1 <= length c <= 50)%nat) cs
  /\ map length cs
     = replicate (length channelIds / 50) 50%nat
       ++ (if (length channelIds mod 50 =? 0)%nat then []
           else [(length channelIds mod 50)%nat])
  /\ (length channelIds = 120%nat -> map length cs = [50; 50; 20]%nat)
  /\ result.1 = inr (concat (chunk_results w cs s).1)
  /\ result.2 = (chunk_results w cs s).2
  /\ routerCalls result.2
     = routerCalls s
       ++ map (fun c => ("channels",
                         [("part", "snippet,statistics,contentDetails");
                          ("id", String.concat "," c); ("maxResults", "50")])) cs.
Proof.
  intros cs result. subst cs result. unfold chunks.
  pose proof (chunks_fuel_lengths (length channelIds) channelIds (Nat.le_refl _)) as HL.
  split; [by apply chunks_fuel_concat|].
  split; [apply chunks_fuel_bounds|].
  split; [exact HL|].
  split; [intros E; rewrite HL, E; reflexivity|].
  assert (R : getChannelStatsBatch w channelIds s
              = (inr (concat (chunk_results w
                                (chunks_fuel (length channelIds) 50 channelIds) s).1),
                 (chunk_results w (chunks_fuel (length channelIds) 50 channelIds) s).2)).
  { unfold getChannelStatsBatch.
    destruct channelIds as [|x l] eqn:E; [done|]. rewrite <- E.
    replace (length channelIds =? 0)%nat with false
      by (symmetry; apply Nat.eqb_neq; subst; simpl; lia).
    rewrite batch_loop_chunks by lia. by rewrite drop_0. }
  rewrite R. simpl. split; [done|]. split; [done|].
  apply chunk_results_routerCalls.
Qed.

Lemma getChannelStatsBatch_chunks_witness :
  let result := getChannelStatsBatch second_call_fails ids120 (fresh [key "k0" valid None]) in
  map length (chunks 50 ids120) = [50; 50; 20]%nat
  /\ length (routerCalls result.2) = 3%nat
  /\ (exists rs, result.1 = inr rs /\ map ChannelStats.id rs = ["chunk0"; "chunk2"]).
Proof.
  destruct (getChannelStatsBatch_chunks second_call_fails ids120
              (fresh [key "k0" valid None])) as (_ & _ & _ & H120 & Hr & _ & Hc).
  split; [apply H120; reflexivity|].
  split; [rewrite Hc; vm_compute; reflexivity|].
  eexists. split; [exact Hr|]. vm_compute. reflexivity.
Defined.

(** * Further properties of the service *)

(** ** The router: ledger, pool and cursor over a whole call *)

Lemma try_key_traces {A} (fetch : Fetch A) (endpoint : string)
    (params : list (string * string)) (cost : Z) (k : nat) (key : ApiKey.t)
    (s s1 : State) (x : exn + Flow A) :
  apiKeys s !! k = Some key ->
  try_key fetch endpoint params cost k key s = (x, s1) ->
  onKeyIndexChangeCallback s1 = onKeyIndexChangeCallback s
  /\ match fetch (length (requests s)) (req_at endpoint params s k) with
     | HttpOk _ =>
         keyIndexEvents s1
         = keyIndexEvents s ++ (if onKeyIndexChangeCallback s then [k] else [])
         /\ dbSyncs s1
            = dbSyncs s ++ [(ApiKey.value key, num_or0 (ApiKey.dailyUsage key) + cost)]
     | _ => keyIndexEvents s1 = keyIndexEvents s /\ dbSyncs s1 = dbSyncs s
     end.
Proof.
  intros Ek H.
  assert (Er : req_at endpoint params s k
               = mkRequest endpoint (obj_set "key" (ApiKey.value key) params)).
  { unfold req_at. by rewrite Ek. }
  rewrite Er. unfold try_key in H.
  destruct (fetch _ _) as [msg|body|status body].
  - by inversion H.
  - assert (K : forall y s2,
      (y, notifyKeyIndex k (set_currentKeyIndex k
            (updateKeyUsage k cost
               (push_attempt k (push_request
                  (mkRequest endpoint (obj_set "key" (ApiKey.value key) params)) s)))))
      = (x, s2) ->
      onKeyIndexChangeCallback s2 = onKeyIndexChangeCallback s
      /\ keyIndexEvents s2
         = keyIndexEvents s ++ (if onKeyIndexChangeCallback s then [k] else [])
      /\ dbSyncs s2
         = dbSyncs s ++ [(ApiKey.value key, num_or0 (ApiKey.dailyUsage key) + cost)]).
    { intros y s2 E. inversion E; subst; clear E.
      unfold updateKeyUsage. simpl. rewrite Ek. unfold notifyQuota, notifyKeyIndex. simpl.
      destruct (onQuotaChangeCallback s); simpl;
        destruct (onKeyIndexChangeCallback s) eqn:Ecb; simpl;
        rewrite ?Ecb, ?app_nil_r; by repeat split. }
    destruct body; by apply (K _ _ H).
  - destruct body as [msg|[|err]]; simpl in H.
    + destruct (key_related _ _); by inversion H.
    + by inversion H.
    + destruct (key_related _ _); by inversion H.
Qed.

Section Effects.
Context {A : Type} (fetch : Fetch A) (endpoint : string)
        (params : list (string * string)) (cost : Z) (startIndex : nat).

Lemma rotate_effects (todo : list nat) :
  forall (lastError : option exn) (s s' : State) (r : exn + A),
  (0 < length (apiKeys s))%nat ->
  NoDup (map (idx startIndex (length (apiKeys s))) todo) ->
  rotate fetch endpoint params cost startIndex todo lastError s = (r, s') ->
  length (apiKeys s') = length (apiKeys s)
  /\ (forall j, j ∉ map (idx startIndex (length (apiKeys s))) todo ->
                apiKeys s' !! j = apiKeys s !! j)
  /\ (forall j key, apiKeys s !! j = Some key ->
        apiKeys s' !! j = Some key
        \/ apiKeys s' !! j
           = Some (ApiKey.with_dailyUsage key
                     (Some (num_or0 (ApiKey.dailyUsage key) + cost))))
  /\ sessionQuotaUsed s' = sessionQuotaUsed s + cost * charges s s'
  /\ getTotalDailyUsage s' = getTotalDailyUsage s + cost * charges s s'
  /\ (length (dbSyncs s) <= length (dbSyncs s'))%nat
  /\ (currentKeyIndex s' = currentKeyIndex s
      \/ (currentKeyIndex s' < length (apiKeys s))%nat)
  /\ onKeyIndexChangeCallback s' = onKeyIndexChangeCallback s
  /\ (charges s s' = 0 ->
      apiKeys s' = apiKeys s /\ currentKeyIndex s' = currentKeyIndex s
      /\ quotaEvents s' = quotaEvents s /\ keyIndexEvents s' = keyIndexEvents s)
  /\ match r with
     | inr _ =>
         exists k, last (attempts s') = Some k
           /\ currentKeyIndex s' = k
           /\ (k < length (apiKeys s))%nat
           /\ (onKeyIndexChangeCallback s = true -> last (keyIndexEvents s') = Some k)
     | inl _ => True
     end.
Proof.
  unfold charges.
  induction todo as [|i todo IH]; intros lastError s s' r Hn ND H; simpl in H.
  - inversion H; subst; clear H. rewrite Nat.sub_diag. simpl.
    repeat split; eauto; lia.
  - set (n := length (apiKeys s)) in *.
    assert (Hk : (idx startIndex n i < n)%nat) by (apply Nat.mod_upper_bound; lia).
    fold (idx startIndex n i) in H. set (k := idx startIndex n i) in *.
    destruct (lookup_lt_is_Some_2 (apiKeys s) k Hk) as [key Ek]. rewrite Ek in H.
    simpl in ND. apply NoDup_cons in ND as [Hnk ND]. fold k in Hnk.
    destruct (skipped n cost key).
    { destruct (IH lastError s s' r Hn ND H)
        as (I1 & I2 & I3 & I4 & I5 & I6 & I7 & I8 & I9 & I10).
      repeat (split; [done|]). split; [|done].
      intros j Hj. apply I2. simpl in Hj. fold n k in Hj.
      by apply not_elem_of_cons in Hj as [_ Hj]. }
    destruct (try_key fetch endpoint params cost k key s) as [x s1] eqn:T.
    destruct (try_key_spec _ _ _ _ _ _ _ _ _ Ek T) as (R1 & A1 & _ & Cb & L & X).
    destruct (try_key_traces _ _ _ _ _ _ _ _ _ Ek T) as (Ci & Tr).
    destruct (ledger_after_pool _ _ _ _ _ _ Ek L) as (El & Eo & _).
    (* the state after this attempt, against the state before it *)
    assert (One :
      (apiKeys s1 = apiKeys s
       \/ apiKeys s1 = <[k := ApiKey.with_dailyUsage key
                                 (Some (num_or0 (ApiKey.dailyUsage key) + cost))]>
                          (apiKeys s))
      /\ exists c : nat, (c <= 1)%nat
           /\ length (dbSyncs s1) = (length (dbSyncs s) + c)%nat
           /\ sessionQuotaUsed s1 = sessionQuotaUsed s + cost * Z.of_nat c
           /\ getTotalDailyUsage s1 = getTotalDailyUsage s + cost * Z.of_nat c
           /\ (currentKeyIndex s1 = currentKeyIndex s \/ currentKeyIndex s1 = k)
           /\ (c = 0%nat ->
               apiKeys s1 = apiKeys s /\ currentKeyIndex s1 = currentKeyIndex s
               /\ quotaEvents s1 = quotaEvents s /\ keyIndexEvents s1 = keyIndexEvents s)).
    { unfold ledger_after in L.
      destruct (fetch (length (requests s)) (req_at endpoint params s k))
        as [msg|body|st body].
      - destruct L as (L1 & L2 & L3 & L4 & L5), Tr as (T1 & T2).
        split; [by left|]. exists 0%nat. rewrite T2. simpl.
        repeat split; try done; lia.
      - destruct L as (L1 & L2 & L3 & L4 & L5), Tr as (T1 & T2).
        split; [by right|]. exists 1%nat. rewrite T2, length_app. simpl.
        repeat split; try done; try lia; try by right.
      - destruct L as (L1 & L2 & L3 & L4 & L5), Tr as (T1 & T2).
        split; [by left|]. exists 0%nat. rewrite T2. simpl.
        repeat split; try done; lia. }
    destruct One as (Pool & c & Hc & D1 & S1 & G1 & C1 & Z1).
    assert (Rest : forall le,
      rotate fetch endpoint params cost startIndex todo le s1 = (r, s') ->
      length (apiKeys s') = n
      /\ (forall j, j ∉ k :: map (idx startIndex n) todo -> apiKeys s' !! j = apiKeys s !! j)
      /\ (forall j key0, apiKeys s !! j = Some key0 ->
            apiKeys s' !! j = Some key0
            \/ apiKeys s' !! j
               = Some (ApiKey.with_dailyUsage key0
                         (Some (num_or0 (ApiKey.dailyUsage key0) + cost))))
      /\ sessionQuotaUsed s'
         = sessionQuotaUsed s
           + cost * Z.of_nat (length (dbSyncs s') - length (dbSyncs s))
      /\ getTotalDailyUsage s'
         = getTotalDailyUsage s
           + cost * Z.of_nat (length (dbSyncs s') - length (dbSyncs s))
      /\ (length (dbSyncs s) <= length (dbSyncs s'))%nat
      /\ (currentKeyIndex s' = currentKeyIndex s \/ (currentKeyIndex s' < n)%nat)
      /\ onKeyIndexChangeCallback s' = onKeyIndexChangeCallback s
      /\ (Z.of_nat (length (dbSyncs s') - length (dbSyncs s)) = 0 ->
          apiKeys s' = apiKeys s /\ currentKeyIndex s' = currentKeyIndex s
          /\ quotaEvents s' = quotaEvents s /\ keyIndexEvents s' = keyIndexEvents s)
      /\ match r with
         | inr _ =>
             exists k0, last (attempts s') = Some k0
               /\ currentKeyIndex s' = k0
               /\ (k0 < n)%nat
               /\ (onKeyIndexChangeCallback s = true -> last (keyIndexEvents s') = Some k0)
         | inl _ => True
         end).
    { intros le Hr.
      destruct (IH le s1 s' r) as (I1 & I2 & I3 & I4 & I5 & I6 & I7 & I8 & I9 & I10);
        [lia | by rewrite El | exact Hr |].
      rewrite El in *. fold n in I1, I2, I7, I10.
      split; [done|]. split.
      { intros j Hj. apply not_elem_of_cons in Hj as [Hjk Hj].
        rewrite I2 by done. by apply Eo. }
      split.
      { intros j key0 Ej. destruct (decide (j = k)) as [->|Hjk].
        - rewrite (I2 k Hnk). rewrite Ek in Ej. inversion Ej; subst key0.
          destruct Pool as [-> | ->]; [by left|]. right.
          by rewrite list_lookup_insert_eq by (by eapply lookup_lt_Some).
        - apply I3. rewrite Eo by done. done. }
      assert (Ec : (length (dbSyncs s') - length (dbSyncs s)
                    = (length (dbSyncs s') - length (dbSyncs s1)) + c)%nat) by lia.
      rewrite Ec, Nat2Z.inj_add.
      split; [rewrite I4, S1; ring|]. split; [rewrite I5, G1; ring|].
      split; [lia|].
      split.
      { destruct I7 as [-> | I7]; [|by right].
        destruct C1 as [-> | ->]; [by left | by right]. }
      split; [congruence|].
      split.
      { intros Hz. assert (c = 0%nat) as -> by lia.
        destruct (Z1 eq_refl) as (Z11 & Z12 & Z13 & Z14).
        destruct I9 as (Z21 & Z22 & Z23 & Z24); [lia|].
        repeat split; congruence. }
      destruct r as [e|a]; [done|].
      destruct I10 as (k0 & Hl & Hc0 & Hk0 & Hev). exists k0.
      repeat split; try done. intros Hcb. apply Hev. congruence. }
    destruct x as [e|[le|a]]; simpl in H.
    + by apply (Rest _ H).
    + by apply (Rest _ H).
    + inversion H; subst r s'; clear H. fold n. rewrite X in L, Tr.
      unfold ledger_after in L. destruct L as (L1 & L2 & L3 & L4 & L5), Tr as (T1 & T2).
      rewrite T2, length_app. simpl.
      replace (length (dbSyncs s) + 1 - length (dbSyncs s))%nat with 1%nat by lia.
      split; [by rewrite L1, length_insert|]. split.
      { intros j Hj. apply not_elem_of_cons in Hj as [Hjk _].
        rewrite L1. by apply list_lookup_insert_ne. }
      split.
      { intros j key0 Ej. rewrite L1. destruct (decide (j = k)) as [->|Hjk].
        - rewrite Ek in Ej. inversion Ej; subst key0. right.
          by rewrite list_lookup_insert_eq by (by eapply lookup_lt_Some).
        - left. by rewrite list_lookup_insert_ne. }
      split; [rewrite L2; lia|]. split; [rewrite L3; lia|]. split; [lia|].
      split; [right; by rewrite L4|]. split; [done|]. split; [lia|].
      exists k. rewrite A1, last_snoc. repeat split; try done.
      intros Hcb. rewrite T1, Hcb. by rewrite last_snoc.
Qed.

End Effects.


Lemma fetchYouTubeAPI_effects {A} (fetch : Fetch A) (endpoint : string)
    (params : list (string * string)) (s s' : State) (r : exn + A) :
  fetchYouTubeAPI fetch endpoint params s = (r, s') ->
  let cost := cost_of endpoint in
  length (apiKeys s') = length (apiKeys s)
  /\ (forall j key, apiKeys s !! j = Some key ->
        apiKeys s' !! j = Some key
        \/ apiKeys s' !! j
           = Some (ApiKey.with_dailyUsage key
                     (Some (num_or0 (ApiKey.dailyUsage key) + cost))))
  /\ sessionQuotaUsed s' = sessionQuotaUsed s + cost * charges s s'
  /\ getTotalDailyUsage s' = getTotalDailyUsage s + cost * charges s s'
  /\ (currentKeyIndex s' = currentKeyIndex s
      \/ (currentKeyIndex s' < length (apiKeys s))%nat)
  /\ (charges s s' = 0 ->
      apiKeys s' = apiKeys s /\ currentKeyIndex s' = currentKeyIndex s
      /\ quotaEvents s' = quotaEvents s /\ keyIndexEvents s' = keyIndexEvents s)
  /\ match r with
     | inr _ =>
         exists k, last (attempts s') = Some k
           /\ currentKeyIndex s' = k
           /\ (k < length (apiKeys s))%nat
           /\ (onKeyIndexChangeCallback s = true -> last (keyIndexEvents s') = Some k)
     | inl _ => True
     end.
Proof.
  intros H cost. rewrite fetchYouTubeAPI_unfold in H. simpl in H.
  destruct (apiKeys s) as [|k0 ks] eqn:Eks.
  - inversion H; subst; clear H. unfold charges. simpl. rewrite Eks, Nat.sub_diag.
    repeat split; try done; try lia; try (by left).
    change (getTotalDailyUsage (push_routerCall (endpoint, params) s))
      with (getTotalDailyUsage s). lia.
  - rewrite <- Eks in *.
    apply rotate_effects in H as (I1 & I2 & I3 & I4 & I5 & I6 & I7 & I8 & I9 & I10).
    + unfold charges in *. simpl in *.
      change (getTotalDailyUsage (push_routerCall (endpoint, params) s))
        with (getTotalDailyUsage s) in I5.
      exact (conj I1 (conj I3 (conj I4 (conj I5 (conj I7 (conj I9 I10)))))).
    + simpl. rewrite Eks. simpl. lia.
    + apply (rotation_NoDup s).
Qed.

Lemma rotate_no_success {A} (fetch : Fetch A) (endpoint : string)
    (params : list (string * string)) (cost : Z) (startIndex : nat) (todo : list nat) :
  forall (lastError : option exn) (s s' : State) (r : exn + A),
  (0 < length (apiKeys s))%nat ->
  (forall t q body, (length (requests s) <= t)%nat -> fetch t q <> HttpOk body) ->
  rotate fetch endpoint params cost startIndex todo lastError s = (r, s') ->
  dbSyncs s' = dbSyncs s /\ exists e, r = inl e.
Proof.
  induction todo as [|i todo IH]; intros lastError s s' r Hn Hp H; simpl in H.
  - inversion H; subst. split; [done | by eexists].
  - set (n := length (apiKeys s)) in *.
    assert (Hk : (idx startIndex n i < n)%nat) by (apply Nat.mod_upper_bound; lia).
    fold (idx startIndex n i) in H. set (k := idx startIndex n i) in *.
    destruct (lookup_lt_is_Some_2 (apiKeys s) k Hk) as [key Ek]. rewrite Ek in H.
    destruct (skipped n cost key); [exact (IH lastError s s' r Hn Hp H)|].
    destruct (try_key fetch endpoint params cost k key s) as [x s1] eqn:T.
    destruct (try_key_spec _ _ _ _ _ _ _ _ _ Ek T) as (R1 & _ & _ & _ & L & X).
    destruct (try_key_traces _ _ _ _ _ _ _ _ _ Ek T) as (_ & Tr).
    destruct (ledger_after_pool _ _ _ _ _ _ Ek L) as (El & _ & _).
    assert (Hp1 : forall t q body, (length (requests s1) <= t)%nat -> fetch t q <> HttpOk body).
    { intros t q body Ht. apply Hp. rewrite R1, length_app in Ht. simpl in Ht. lia. }
    assert (D : dbSyncs s1 = dbSyncs s).
    { destruct (fetch (length (requests s)) (req_at endpoint params s k)) as [msg|body|st body] eqn:Ef;
        [by destruct Tr | | by destruct Tr].
      exfalso. exact (Hp _ _ body (Nat.le_refl _) Ef). }
    destruct x as [e|[le|a]]; simpl in H.
    + destruct (IH (Some e) s1 s' r) as (I1 & I2); [lia | done | exact H |].
      split; [congruence | done].
    + destruct (IH le s1 s' r) as (I1 & I2); [lia | done | exact H |].
      split; [congruence | done].
    + exfalso. exact (Hp _ _ _ (Nat.le_refl _) X).
Qed.









Lemma fetchYouTubeAPI_no_success {A} (fetch : Fetch A) (endpoint : string)
    (params : list (string * string)) (s : State) :
  (forall t q body, (length (requests s) <= t)%nat -> fetch t q <> HttpOk body) ->
  let result := fetchYouTubeAPI fetch endpoint params s in
  (exists e, result.1 = inl e)
  /\ apiKeys result.2 = apiKeys s
  /\ sessionQuotaUsed result.2 = sessionQuotaUsed s
  /\ currentKeyIndex result.2 = currentKeyIndex s
  /\ quotaEvents result.2 = quotaEvents s
  /\ keyIndexEvents result.2 = keyIndexEvents s.
Proof.
  intros Hp result. subst result.
  destruct (fetchYouTubeAPI fetch endpoint params s) as [r s'] eqn:E.
  destruct (fetchYouTubeAPI_effects _ _ _ _ _ _ E) as (_ & _ & E3 & _ & _ & Z & _).
  assert (D : dbSyncs s' = dbSyncs s /\ exists e, r = inl e).
  { rewrite fetchYouTubeAPI_unfold in E. simpl in E.
    destruct (apiKeys s) as [|k0 ks] eqn:Eks.
    - inversion E; subst. split; [done | by eexists].
    - rewrite <- Eks in E. apply rotate_no_success in E; [done | |done].
      simpl. rewrite Eks. simpl. lia. }
  destruct D as (D & e & ->).
  assert (C : charges s s' = 0) by (unfold charges; rewrite D; lia).
  destruct (Z C) as (Z1 & Z2 & Z3 & Z4). simpl.
  split; [by eexists|]. rewrite E3, C. repeat split; try done. lia.
Qed.



Lemma param_obj_set_eq (k v : string) (o : list (string * string)) :
  param k (obj_set k v o) = Some v.
Proof.
  unfold param. induction o as [|[k' v'] o IH]; simpl.
  - by rewrite bool_decide_eq_true_2.
  - destruct (decide (k' = k)) as [->|Hk]; simpl.
    + by rewrite bool_decide_eq_true_2.
    + by rewrite bool_decide_eq_false_2.
Qed.

Lemma param_obj_set_ne (k v p : string) (o : list (string * string)) :
  p <> k -> param p (obj_set k v o) = param p o.
Proof.
  intros Hp. unfold param. induction o as [|[k' v'] o IH]; simpl.
  - by rewrite bool_decide_eq_false_2.
  - destruct (decide (k' = k)) as [->|Hk]; simpl.
    + by rewrite !bool_decide_eq_false_2 by done.
    + destruct (bool_decide (k' = p)); [done | exact IH].
Qed.

(** X6.  Every request that a call of the router issues goes to the
    endpoint asked for, carries under [key] the value of a credential of
    the pool that passes the skip guards, and carries every other parameter
    as the caller gave it. *)
Theorem requests_carry_one_credential {A} (fetch : Fetch A) (operation : string)
    (params : list (string * string)) (s : State) :
  let s' := (fetchYouTubeAPI fetch operation params s).2 in
  exists sent,
    requests s' = requests s ++ sent
    /\ Forall (fun q =>
         endpoint q = operation
         /\ (exists k key, apiKeys s !! k = Some key
               /\ skipped (length (apiKeys s)) (cost_of operation) key = false
               /\ param "key" (query q) = Some (ApiKey.value key))
         /\ (forall p, p <> "key" -> param p (query q) = param p params)) sent.
Proof.
  intros s'. subst s'.
  destruct (fetchYouTubeAPI fetch operation params s) as [r s'] eqn:E. simpl.
  destruct (decide (apiKeys s = [])) as [Hk|Hk].
  - exists []. rewrite fetchYouTubeAPI_unfold, Hk in E. simpl in E.
    inversion E; subst. simpl. by rewrite app_nil_r.
  - destruct (fetchYouTubeAPI_spec fetch operation params s s' r Hk E)
      as (m & _ & _ & Hq & _).
    eexists. split; [exact Hq|].
    apply Forall_fmap, Forall_forall. intros k Hin.
    apply elem_of_take in Hin as (i & Hi & _).
    apply list_elem_of_lookup_2 in Hi. apply eligible_elem in Hi as (key & Ek & Sk).
    unfold compose, req_at. simpl. rewrite Ek. simpl. split; [done|]. split.
    + exists k, key. split; [done|]. split; [done|]. apply param_obj_set_eq.
    + intros p Hp. by apply param_obj_set_ne.
Qed.

(** ** Replacing the list twice *)

Lemma setApiKeys_pool (keys : list ApiKey.t) (s : State) :
  apiKeys (setApiKeys keys s)
  = map (fun newKey =>
           ApiKey.with_dailyUsage newKey
             (Some (merged_usage newKey (find_key (ApiKey.value newKey) (apiKeys s)))))
        keys
  /\ currentKeyIndex (setApiKeys keys s)
     = (if (length keys <=? currentKeyIndex s)%nat then 0%nat else currentKeyIndex s)
  /\ sessionQuotaUsed (setApiKeys keys s) = sessionQuotaUsed s.
Proof.
  unfold setApiKeys. set (merged := map _ keys).
  assert (N : forall t, apiKeys (notifyQuota t) = apiKeys t
                        /\ currentKeyIndex (notifyQuota t) = currentKeyIndex t
                        /\ sessionQuotaUsed (notifyQuota t) = sessionQuotaUsed t).
  { intros t. unfold notifyQuota. by destruct (onQuotaChangeCallback t). }
  destruct (N (if (length (apiKeys (set_apiKeys merged s))
                   <=? currentKeyIndex (set_apiKeys merged s))%nat
               then set_currentKeyIndex 0 (set_apiKeys merged s)
               else set_apiKeys merged s)) as (-> & -> & ->).
  simpl. subst merged. rewrite length_map.
  by destruct (length keys <=? currentKeyIndex s)%nat.
Qed.

(** X7.  Handing [setApiKeys] the same list a second time changes nothing,
    when no two credentials of the list have the same value: the pool and
    the cursor after the second replacement are those after the first. *)
Theorem setApiKeys_idempotent (keys : list ApiKey.t) (s : State) :
  NoDup (map ApiKey.value keys) ->
  apiKeys (setApiKeys keys (setApiKeys keys s)) = apiKeys (setApiKeys keys s)
  /\ currentKeyIndex (setApiKeys keys (setApiKeys keys s))
     = currentKeyIndex (setApiKeys keys s).
Proof.
  intros ND.
  destruct (setApiKeys_pool keys s) as (P1 & C1 & _).
  destruct (setApiKeys_pool keys (setApiKeys keys s)) as (P2 & C2 & _).
  split.
  - rewrite P2, P1. apply list_eq. intros i. rewrite !list_lookup_fmap.
    destruct (keys !! i) as [newKey|] eqn:Ei; [|done]. simpl. do 3 f_equal.
    unfold merged_usage at 1 3. destruct (ApiKey.dailyUsage newKey) eqn:Eu; [done|].
    rewrite (find_key_first (ApiKey.value newKey) _ i
               (ApiKey.with_dailyUsage newKey
                  (Some (merged_usage newKey
                           (find_key (ApiKey.value newKey) (apiKeys s)))))).
    + simpl. unfold merged_usage. by rewrite Eu.
    + by rewrite list_lookup_fmap, Ei.
    + done.
    + intros j' e' Hj' Ej' Hv. rewrite list_lookup_fmap in Ej'.
      destruct (keys !! j') as [k'|] eqn:Ek'; [|done]. inversion Ej'; subst e'.
      simpl in Hv.
      assert (j' = i); [|lia].
      apply (NoDup_lookup (map ApiKey.value keys) j' i (ApiKey.value newKey)); [done | |].
      * rewrite list_lookup_fmap, Ek'. simpl. by rewrite Hv.
      * by rewrite list_lookup_fmap, Ei.
  - rewrite C2, C1.
    destruct (Nat.leb_spec (length keys) (currentKeyIndex s)) as [H|H]; [|].
    + by destruct (length keys <=? 0)%nat.
    + by rewrite (proj2 (Nat.leb_gt _ _) H).
Qed.

Lemma setApiKeys_idempotent_witness :
  let keys := [key "A" unknown None; key "B" unknown (Some 3)] in
  let s := fresh [key "A" valid (Some 70)] in
  apiKeys (setApiKeys keys (setApiKeys keys s)) = apiKeys (setApiKeys keys s)
  /\ currentKeyIndex (setApiKeys keys (setApiKeys keys s))
     = currentKeyIndex (setApiKeys keys s).
Proof.
  apply (setApiKeys_idempotent [key "A" unknown None; key "B" unknown (Some 3)]
           (fresh [key "A" valid (Some 70)])).
  apply NoDup_cons. split; [|apply NoDup_singleton].
  intros H. apply list_elem_of_singleton in H. discriminate.
Defined.

(** ** The validator *)

(** X8.  For a credential that is not blank, validation issues exactly one
    request, the probe for that credential, and touches neither the pool
    nor the ledger nor the cursor.  Its verdict is valid exactly when the
    response has a success status; it is quota_exceeded exactly when the
    error body carries one of the two quota reasons; it is never unknown or
    checking. *)
Theorem validation_probe (w : World) (key : string) (s : State) :
  trim key <> "" ->
  let response := channels w (length (requests s)) (validation_request key) in
  exists v s',
    validateYouTubeApiKey w key s = (inr v, s')
    /\ requests s' = requests s ++ [validation_request key]
    /\ apiKeys s' = apiKeys s
    /\ sessionQuotaUsed s' = sessionQuotaUsed s
    /\ currentKeyIndex s' = currentKeyIndex s
    /\ dbSyncs s' = dbSyncs s
    /\ (v_status v = valid <-> exists body, response = HttpOk body)
    /\ (v_status v = quota_exceeded <->
        exists status err reason,
          response = HttpError status (Json (JsonObject (Some err)))
          /\ errors0_reason err = Some reason
          /\ (reason = "quotaExceeded" \/ reason = "dailyLimitExceeded"))
    /\ v_status v <> unknown /\ v_status v <> checking.
Proof.
  intros Ht response. subst response.
  assert (Hk : key <> "") by (by intros ->).
  unfold validateYouTubeApiKey. fold (validation_request key).
  rewrite (bool_decide_eq_false_2 _ Ht), (bool_decide_eq_false_2 _ Hk). simpl.
  unfold try_catch, ret.
  destruct (channels w _ _) as [msg|body|status [msg|[|[[[reason|] m]|]]]]; simpl.
  - eexists _, _. split; [reflexivity|]. simpl. do 5 (split; [reflexivity|]).
    split; [split; [discriminate | intros (b & E); discriminate]|].
    split; [split; [discriminate | intros (st & e & r & E & _); discriminate]|].
    split; discriminate.
  - eexists _, _. split; [reflexivity|]. simpl. do 5 (split; [reflexivity|]).
    split; [split; [by eexists | done]|].
    split; [split; [discriminate | intros (st & e & r & E & _); discriminate]|].
    split; discriminate.
  - eexists _, _. split; [reflexivity|]. simpl. do 5 (split; [reflexivity|]).
    split; [split; [discriminate | intros (b & E); discriminate]|].
    split; [split; [discriminate | intros (st & e & r & E & _); discriminate]|].
    split; discriminate.
  - eexists _, _. split; [reflexivity|]. simpl. do 5 (split; [reflexivity|]).
    split; [split; [discriminate | intros (b & E); discriminate]|].
    split; [split; [discriminate | intros (st & e & r & E & _); discriminate]|].
    split; discriminate.
  - destruct (decide (reason = "quotaExceeded")) as [Hq|Hq];
      [|destruct (decide (reason = "dailyLimitExceeded")) as [Hd|Hd]].
    + rewrite (bool_decide_eq_true_2 _ (f_equal Some Hq)). simpl.
      eexists _, _. split; [reflexivity|]. simpl. do 5 (split; [reflexivity|]).
      split; [split; [discriminate | intros (b & E); discriminate]|].
      split; [split; [|done]|split; discriminate].
      intros _. exists status, (mkErrorObject (Some reason) m), reason.
      split; [done|]. split; [done|]. by left.
    + rewrite (bool_decide_eq_true_2 (Some reason = Some "dailyLimitExceeded")
                 (f_equal Some Hd)), orb_true_r. simpl.
      eexists _, _. split; [reflexivity|]. simpl. do 5 (split; [reflexivity|]).
      split; [split; [discriminate | intros (b & E); discriminate]|].
      split; [split; [|done]|split; discriminate].
      intros _. exists status, (mkErrorObject (Some reason) m), reason.
      split; [done|]. split; [done|]. by right.
    + rewrite !bool_decide_eq_false_2 by congruence. simpl.
      eexists _, _. split; [reflexivity|]. simpl. do 5 (split; [reflexivity|]).
      split; [split; [discriminate | intros (b & E); discriminate]|].
      split; [split; [discriminate|]|split; discriminate].
      intros (st & e & r & E & Er & Hr). inversion E; subst. simpl in Er.
      inversion Er; subst. by destruct Hr.
  - eexists _, _. split; [reflexivity|]. simpl. do 5 (split; [reflexivity|]).
    split; [split; [discriminate | intros (b & E); discriminate]|].
    split; [split; [discriminate|]|split; discriminate].
    intros (st & e & r & E & Er & Hr). inversion E; subst. discriminate.
  - eexists _, _. split; [reflexivity|]. simpl. do 5 (split; [reflexivity|]).
    split; [split; [discriminate | intros (b & E); discriminate]|].
    split; [split; [discriminate | intros (st & e & r & E & _); discriminate]|].
    split; discriminate.
Qed.

Lemma validation_probe_witness :
  exists v s',
    validateYouTubeApiKey exhausted_platform "AIza" (fresh []) = (inr v, s')
    /\ requests s' = [validation_request "AIza"]
    /\ v_status v = quota_exceeded.
Proof.
  destruct (validation_probe exhausted_platform "AIza" (fresh []))
    as (v & s' & E & Hr & _ & _ & _ & _ & _ & Hq & _); [vm_compute; congruence|].
  exists v, s'. split; [exact E|]. split; [exact Hr|].
  apply Hq. exists 403, (mkErrorObject (Some "quotaExceeded") (Some "Quota exceeded.")),
    "quotaExceeded".
  split; [reflexivity|]. split; [reflexivity|]. by left.
Defined.

(** ** Resolving an identifier *)

Lemma fetchYouTubeAPI_requests_grow {A} (fetch : Fetch A) (endpoint : string)
    (params : list (string * string)) (s : State) :
  (length (requests s) <= length (requests (fetchYouTubeAPI fetch endpoint params s).2))%nat.
Proof.
  destruct (fetchYouTubeAPI fetch endpoint params s) as [r s'] eqn:E. simpl.
  destruct (decide (apiKeys s = [])) as [Hk|Hk].
  - rewrite fetchYouTubeAPI_unfold, Hk in E. simpl in E. by inversion E.
  - destruct (fetchYouTubeAPI_spec fetch endpoint params s s' r Hk E)
      as (m & _ & _ & Hq & _).
    rewrite Hq, length_app. lia.
Qed.

Lemma resolve_byName (w : World) (channelIdentifier : string) (s : State) :
  let call := fetchYouTubeAPI (channels w) "channels"
                [("part", "id"); ("forUsername", channelIdentifier)] in
  try_catch
    (let* data := call in
     match Channel.items data with
     | Some (c :: _) => ret (Some (Channel.id c))
     | _ => ret None
     end)
    (fun _ => ret None) s
  = (inr match (call s).1 with
         | inr data =>
             match Channel.items data with
             | Some (c :: _) => Some (Channel.id c)
             | _ => None
             end
         | inl _ => None
         end, (call s).2).
Proof.
  intros call. unfold try_catch, bind. destruct (call s) as [[e|data] s1]; [done|].
  simpl. by destruct (Channel.items data) as [[|c cs]|].
Qed.

Lemma resolve_bySearch (w : World) (channelIdentifier : string) (s : State) :
  let call := fetchYouTubeAPI (search w) "search"
                [("part", "snippet"); ("q", channelIdentifier);
                 ("type", "channel"); ("maxResults", "1")] in
  try_catch
    (let* searchData := call in
     match SearchResult.items searchData with
     | Some (r :: _) =>
         let* sn := deref (SearchResult.snippet r) in
         ret (Some (SearchResult.channelId sn))
     | _ => ret None
     end)
    (fun _ => ret None) s
  = (inr match (call s).1 with
         | inr data =>
             match SearchResult.items data with
             | Some (r :: _) => SearchResult.channelId <$> SearchResult.snippet r
             | _ => None
             end
         | inl _ => None
         end, (call s).2).
Proof.
  intros call. unfold try_catch, bind at 1. destruct (call s) as [[e|data] s1]; [done|].
  simpl. destruct (SearchResult.items data) as [[|r rs]|]; try done.
  unfold bind. by destruct (SearchResult.snippet r).
Qed.

(** X9.  [resolveChannelId] never raises.  An identifier that starts with
    "UC" is returned as it is, with no call and the state untouched.  For
    any other identifier the router is called for the lookup by user name;
    when that lookup yields a channel, its id is the result and no other
    call is made; when it fails or yields no channel, and only then, the
    router is called a second time, for the keyword search, and the result
    is the channel id of the first search result, or the identifier itself
    when the search fails or yields nothing.  When no request is answered
    with a success status, the identifier comes back unchanged. *)
Theorem resolveChannelId_lookups (w : World) (channelIdentifier : string) (s : State) :
  let lookup :=
    fetchYouTubeAPI (channels w) "channels" (username_query channelIdentifier) s in
  let searched :=
    fetchYouTubeAPI (search w) "search" (search_query channelIdentifier) lookup.2 in
  exists resolvedId s',
    resolveChannelId w channelIdentifier s = (inr resolvedId, s')
    /\ (String.prefix "UC" channelIdentifier = true ->
        resolvedId = channelIdentifier /\ s' = s)
    /\ (String.prefix "UC" channelIdentifier = false ->
        (forall data c rest,
           lookup.1 = inr data ->
           Channel.items data = Some (c :: rest) ->
           resolvedId = Channel.id c
           /\ s' = lookup.2
           /\ routerCalls s'
              = routerCalls s ++ [("channels", username_query channelIdentifier)])
        /\ ((forall data c rest,
               lookup.1 = inr data -> Channel.items data <> Some (c :: rest)) ->
            s' = searched.2
            /\ routerCalls s'
               = routerCalls s ++ [("channels", username_query channelIdentifier);
                                   ("search", search_query channelIdentifier)]
            /\ resolvedId
               = match searched.1 with
                 | inr found =>
                     match SearchResult.items found with
                     | Some (r :: _) =>
                         from_option SearchResult.channelId channelIdentifier
                                     (SearchResult.snippet r)
                     | _ => channelIdentifier
                     end
                 | inl _ => channelIdentifier
                 end))
    /\ ((forall t q body, (length (requests s) <= t)%nat ->
           channels w t q <> HttpOk body) ->
        (forall t q body, (length (requests s) <= t)%nat ->
           search w t q <> HttpOk body) ->
        resolvedId = channelIdentifier).
Proof.
  intros lookup searched. unfold resolveChannelId.
  destruct (String.prefix "UC" channelIdentifier) eqn:Ep.
  { exists channelIdentifier, s. by repeat split. }
  unfold bind at 1. rewrite resolve_byName.
  fold (username_query channelIdentifier). fold lookup.
  pose proof (fetchYouTubeAPI_routerCalls (channels w) "channels"
                (username_query channelIdentifier) s) as R1.
  pose proof (fetchYouTubeAPI_requests_grow (channels w) "channels"
                (username_query channelIdentifier) s) as G1.
  pose proof (fetchYouTubeAPI_no_success (channels w) "channels"
                (username_query channelIdentifier) s) as N1.
  pose proof (fetchYouTubeAPI_routerCalls (search w) "search"
                (search_query channelIdentifier) lookup.2) as R2.
  pose proof (fetchYouTubeAPI_no_success (search w) "search"
                (search_query channelIdentifier) lookup.2) as N2.
  fold lookup in R1, G1, N1. fold searched in R2, N2.
  assert (Search :
    (forall data c rest, lookup.1 = inr data -> Channel.items data <> Some (c :: rest)) ->
    exists resolvedId s',
      (let* bySearch :=
         try_catch
           (let* searchData := fetchYouTubeAPI (search w) "search"
                                 [("part", "snippet"); ("q", channelIdentifier);
                                  ("type", "channel"); ("maxResults", "1")] in
            match SearchResult.items searchData with
            | Some (r :: _) =>
                let* sn := deref (SearchResult.snippet r) in
                ret (Some (SearchResult.channelId sn))
            | _ => ret None
            end)
           (fun _ => ret None) in
       match bySearch with
       | Some found => ret found
       | None => ret channelIdentifier
       end) lookup.2 = (inr resolvedId, s')
      /\ (false = true -> resolvedId = channelIdentifier /\ s' = s)
      /\ (false = false ->
          (forall data c rest,
             lookup.1 = inr data ->
             Channel.items data = Some (c :: rest) ->
             resolvedId = Channel.id c
             /\ s' = lookup.2
             /\ routerCalls s'
                = routerCalls s ++ [("channels", username_query channelIdentifier)])
          /\ ((forall data c rest,
                 lookup.1 = inr data -> Channel.items data <> Some (c :: rest)) ->
              s' = searched.2
              /\ routerCalls s'
                 = routerCalls s ++ [("channels", username_query channelIdentifier);
                                     ("search", search_query channelIdentifier)]
              /\ resolvedId
                 = match searched.1 with
                   | inr found =>
                       match SearchResult.items found with
                       | Some (r :: _) =>
                           from_option SearchResult.channelId channelIdentifier
                                       (SearchResult.snippet r)
                       | _ => channelIdentifier
                       end
                   | inl _ => channelIdentifier
                   end))
      /\ ((forall t q body, (length (requests s) <= t)%nat ->
             channels w t q <> HttpOk body) ->
          (forall t q body, (length (requests s) <= t)%nat ->
             search w t q <> HttpOk body) ->
          resolvedId = channelIdentifier)).
  { intros Hnone. unfold bind at 1. rewrite resolve_bySearch.
    fold (search_query channelIdentifier). fold searched.
    assert (RC : routerCalls searched.2
                 = routerCalls s ++ [("channels", username_query channelIdentifier);
                                     ("search", search_query channelIdentifier)])
      by (by rewrite R2, R1, <- app_assoc).
    assert (Hno : (forall t q body, (length (requests s) <= t)%nat ->
                     search w t q <> HttpOk body) -> exists e, searched.1 = inl e).
    { intros Hs. destruct N2 as (He & _); [|done].
      intros t q body Ht. apply Hs. lia. }
    exists (match searched.1 with
            | inr found =>
                match SearchResult.items found with
                | Some (r :: _) =>
                    from_option SearchResult.channelId channelIdentifier
                                (SearchResult.snippet r)
                | _ => channelIdentifier
                end
            | inl _ => channelIdentifier
            end), searched.2.
    split; [|split; [done|split]].
    - destruct searched.1 as [e|found]; [reflexivity|].
      destruct (SearchResult.items found) as [[|r rs]|]; [reflexivity| |reflexivity].
      destruct (SearchResult.snippet r); reflexivity.
    - intros _. split.
      + intros data c rest E Ei. by destruct (Hnone data c rest E).
      + intros _. by repeat split.
    - intros _ Hs. destruct (Hno Hs) as (e & ->). done. }
  destruct lookup.1 as [e1|data] eqn:El; [apply Search; by intros|].
  destruct (Channel.items data) as [[|c cs]|] eqn:Ei;
    [apply Search; intros ? ? ? [= <-]; congruence | |
     apply Search; intros ? ? ? [= <-]; congruence].
  exists (Channel.id c), lookup.2. split; [done|]. split; [done|]. split.
  - intros _. split.
    + intros data' c' rest [= <-] Ei'. rewrite Ei in Ei'. inversion Ei'; subst.
      by repeat split.
    + intros Hnone. by destruct (Hnone data c cs).
  - intros Hc _. destruct (N1 Hc) as ((e & He) & _). congruence.
Qed.

Lemma resolveChannelId_lookups_witness :
  (resolveChannelId offline "somehandle" two_keys).1 = inr "somehandle"
  /\ length (routerCalls (resolveChannelId offline "somehandle" two_keys).2) = 2%nat.
Proof.
  destruct (resolveChannelId_lookups offline "somehandle" two_keys)
    as (rid & s' & E & _ & _ & Hoff).
  rewrite E. simpl. split.
  - f_equal. apply Hoff; intros t q body _; discriminate.
  - apply (f_equal snd) in E. simpl in E. rewrite <- E. vm_compute. reflexivity.
Defined.

(** ** The oldest and the newest video *)

Lemma head_insert_by (cmp : VideoStat.t -> VideoStat.t -> Z) (x : VideoStat.t)
    (l : list VideoStat.t) :
  head (insert_by cmp x l)
  = Some match head l with
         | Some y => if cmp x y <=? 0 then x else y
         | None => x
         end.
Proof. destruct l as [|y l]; simpl; [done|]. by destruct (cmp x y <=? 0). Qed.

Lemma sort_by_head_first_min (t : VideoStat.t -> Z)
    (cmp : VideoStat.t -> VideoStat.t -> Z) (l : list VideoStat.t) :
  (forall a b, a ∈ l -> b ∈ l -> cmp a b = t a - t b) ->
  l <> [] ->
  exists i v,
    head (sort_by cmp l) = Some v
    /\ l !! i = Some v
    /\ forall j u, l !! j = Some u -> t v <= t u /\ ((j < i)%nat -> t v < t u).
Proof.
  induction l as [|x l IH]; intros Hcmp Hne; [done|].
  unfold sort_by. simpl. fold (sort_by cmp l). rewrite head_insert_by.
  destruct l as [|y l'].
  - exists 0%nat, x. simpl. split; [done|]. split; [done|].
    intros [|j] u Hu; simpl in Hu; [|done]. inversion Hu; subst. lia.
  - destruct IH as (i & v & Hh & Hi & Hmin); [|done|].
    { intros a b Ha Hb. apply Hcmp; by right. }
    rewrite Hh.
    assert (Hv : v ∈ y :: l') by (by eapply list_elem_of_lookup_2).
    rewrite (Hcmp x v) by (by left || by right).
    destruct (Z.leb_spec (t x - t v) 0) as [Hle|Hgt].
    + exists 0%nat, x. split; [done|]. split; [done|].
      intros [|j] u Hu; simpl in Hu.
      * inversion Hu; subst. lia.
      * destruct (Hmin j u Hu). lia.
    + exists (S i), v. split; [done|]. split; [done|].
      intros [|j] u Hu; simpl in Hu.
      * inversion Hu; subst. lia.
      * destruct (Hmin j u Hu). split; [lia|]. intros. apply H0. lia.
Qed.

(** X10.  [getAbsoluteOldestVideo] never raises.  When the search succeeds
    with results whose dates are readable, it returns the result with the
    earliest publication time, and among several with that time the one the
    response lists first. *)
Theorem oldest_is_earliest (w : World) (channelId channelPublishedAt : string) (s : State) :
  (exists r s', getAbsoluteOldestVideo w channelId channelPublishedAt s = (inr r, s'))
  /\ forall startDate data s1 its mapped,
       minus12h w channelPublishedAt = Some startDate ->
       fetchYouTubeAPI (search w) "search" (oldest_query channelId startDate) s
       = (inr data, s1) ->
       SearchResult.items data = Some its ->
       its <> [] ->
       mapM search_to_video its = Some mapped ->
       Forall (fun v => is_Some (getTime w (VideoStat.publishedAt v))) mapped ->
       exists i v,
         getAbsoluteOldestVideo w channelId channelPublishedAt s = (inr (Some v), s1)
         /\ mapped !! i = Some v
         /\ forall j u, mapped !! j = Some u ->
              time_of w v <= time_of w u /\ ((j < i)%nat -> time_of w v < time_of w u).
Proof.
  split; [apply try_catch_total; intros; by eexists _, _|].
  intros startDate data s1 its mapped Hd Hc Hi Hne Hm Hr.
  assert (Hmne : mapped <> []).
  { intros ->. apply mapM_Some_1, Forall2_length in Hm. destruct its; [done | discriminate]. }
  destruct (sort_by_head_first_min (time_of w) (cmp_publishedAt w) mapped)
    as (i & v & Hh & Hv & Hmin); [|done|].
  { intros a b Ha Hb. rewrite Forall_forall in Hr.
    destruct (Hr a Ha) as [ta Eta], (Hr b Hb) as [tb Etb].
    unfold cmp_publishedAt, time_of. by rewrite Eta, Etb. }
  exists i, v. split; [|done].
  unfold getAbsoluteOldestVideo, try_catch, bind at 1. rewrite Hd. simpl.
  unfold bind at 1. unfold oldest_query in Hc. rewrite Hc, Hi.
  destruct its as [|it its']; [done|]. unfold bind. rewrite Hm. simpl.
  by rewrite Hh.
Qed.

Lemma oldest_is_earliest_witness :
  exists v s',
    getAbsoluteOldestVideo dated "UCx" "2020-01-01T00:00:00Z" (fresh [key "k0" valid None])
    = (inr (Some v), s')
    /\ VideoStat.id v = "b".
Proof.
  set (s0 := fresh [key "k0" valid None]).
  destruct (oldest_is_earliest dated "UCx" "2020-01-01T00:00:00Z" s0) as (_ & H).
  destruct (H "2019-12-31T12:00:00.000Z"
              (SearchResult.mkList
                 (Some [sresult "a" "2020-03-01T00:00:00Z";
                        sresult "b" "2020-01-01T00:00:00Z";
                        sresult "c" "2020-01-01T00:00:00Z"]))
              (getAbsoluteOldestVideo dated "UCx" "2020-01-01T00:00:00Z" s0).2
              [sresult "a" "2020-03-01T00:00:00Z";
               sresult "b" "2020-01-01T00:00:00Z";
               sresult "c" "2020-01-01T00:00:00Z"]
              (default [] (mapM search_to_video
                 [sresult "a" "2020-03-01T00:00:00Z";
                  sresult "b" "2020-01-01T00:00:00Z";
                  sresult "c" "2020-01-01T00:00:00Z"])))
    as (i & v & E & Hv & Hmin);
    [reflexivity | vm_compute; reflexivity | reflexivity | discriminate
    | reflexivity | repeat constructor; by eexists |].
  exists v, (getAbsoluteOldestVideo dated "UCx" "2020-01-01T00:00:00Z" s0).2.
  split; [exact E|].
  vm_compute in E. by inversion E.
Defined.

Lemma newest_total (w : World) (uploadsPlaylistId : string) (s : State) :
  exists r s', getAbsoluteNewestVideo w uploadsPlaylistId s = (inr r, s').
Proof. apply try_catch_total. intros. by eexists _, _. Qed.

Lemma oldest_total (w : World) (channelId channelPublishedAt : string) (s : State) :
  exists r s', getAbsoluteOldestVideo w channelId channelPublishedAt s = (inr r, s').
Proof. apply try_catch_total. intros. by eexists _, _. Qed.

(** X11.  [getAbsoluteNewestVideo] never raises.  When the playlist call
    fails or returns no entry, it returns null after that one router call,
    without asking for statistics.  A video it returns is the record of the
    first item of the statistics response, and that response was asked for
    with the id of the first playlist entry. *)
Theorem newest_video_calls (w : World) (uploadsPlaylistId : string) (s : State) :
  let call1 := fetchYouTubeAPI (playlistItems w) "playlistItems"
                 (newest_query uploadsPlaylistId) in
  exists r s',
    getAbsoluteNewestVideo w uploadsPlaylistId s = (inr r, s')
    /\ (match (call1 s).1 with
        | inl _ => True
        | inr pdata =>
            PlaylistItem.items pdata = None \/ PlaylistItem.items pdata = Some []
        end ->
        r = None /\ s' = (call1 s).2
        /\ routerCalls s'
           = routerCalls s ++ [("playlistItems", newest_query uploadsPlaylistId)])
    /\ (forall v, r = Some v ->
        exists pdata first rest videoId vdata item items',
          (call1 s).1 = inr pdata
          /\ PlaylistItem.items pdata = Some (first :: rest)
          /\ videoId_strict first = Some videoId
          /\ fetchYouTubeAPI (videos w) "videos" (video_query (string_of_id videoId))
               (call1 s).2 = (inr vdata, s')
          /\ Video.items vdata = Some (item :: items')
          /\ video_to_stat item = Some v).
Proof.
  intros call1. subst call1. unfold getAbsoluteNewestVideo, newest_query, video_query.
  unfold try_catch, bind at 1.
  pose proof (fetchYouTubeAPI_routerCalls (playlistItems w) "playlistItems"
                [("part", "snippet"); ("playlistId", uploadsPlaylistId);
                 ("maxResults", "1")] s) as R1.
  destruct (fetchYouTubeAPI (playlistItems w) "playlistItems" _ s) as [[e|pdata] s1];
    simpl in *.
  { eexists _, _. split; [reflexivity|]. split; [done|]. done. }
  destruct (PlaylistItem.items pdata) as [[|first rest]|] eqn:Ei; simpl.
  1,3: eexists _, _; split; [reflexivity|]; split; [done | done].
  unfold bind at 1. unfold videoId_strict.
  destruct (PlaylistItem.snippet first) as [sn|] eqn:Es; simpl.
  2: { eexists _, _. split; [reflexivity|]. split; [intros [?|?]; done | done]. }
  unfold bind at 1.
  destruct (PlaylistItem.resourceId sn) as [rid|] eqn:Er; simpl.
  2: { eexists _, _. split; [reflexivity|]. split; [intros [?|?]; done | done]. }
  unfold bind at 1.
  destruct (fetchYouTubeAPI (videos w) "videos" _ s1) as [[e|vdata] s2] eqn:E2; simpl.
  { eexists _, _. split; [reflexivity|]. split; [intros [?|?]; done | done]. }
  destruct (Video.items vdata) as [[|item items']|] eqn:Ev; simpl.
  1,3: eexists _, _; split; [reflexivity|]; split; [intros [?|?]; done | done].
  unfold bind at 1. destruct (video_to_stat item) as [v|] eqn:Et; simpl.
  2: { eexists _, _. split; [reflexivity|]. split; [intros [?|?]; done | done]. }
  eexists _, _. split; [reflexivity|]. split; [intros [?|?]; done|].
  intros v' [= <-].
  exists pdata, first, rest, (PlaylistItem.videoId rid), vdata, item, items'.
  split; [done|]. split; [done|].
  split; [by rewrite Es; simpl; rewrite Er|]. done.
Qed.

Lemma newest_video_calls_witness :
  (exists v s',
     getAbsoluteNewestVideo shuffled "UUx" (fresh [key "k0" valid None]) = (inr (Some v), s')
     /\ VideoStat.id v = "v3")
  /\ (getAbsoluteNewestVideo offline "UUx" two_keys).1 = inr None
  /\ routerCalls (getAbsoluteNewestVideo offline "UUx" two_keys).2
     = [("playlistItems", newest_query "UUx")].
Proof.
  split.
  - destruct (newest_video_calls shuffled "UUx" (fresh [key "k0" valid None]))
      as (r & s' & E & _ & Hsome).
    assert (Er : r = Some (default (VideoStat.mk "" "" "" "" "" "" "" "")
                                   (video_to_stat (vitem "v3")))).
    { vm_compute in E. by inversion E. }
    destruct (Hsome _ Er) as (pdata & first & rest & vid & vdata & item & its & _).
    eexists _, s'. split; [by rewrite E, Er|]. reflexivity.
  - destruct (newest_video_calls offline "UUx" two_keys) as (r & s' & E & Hnone & _).
    rewrite E. simpl.
    destruct Hnone as (-> & _ & Hc); [vm_compute; exact I|]. split; [done | exact Hc].
Defined.

(** ** Calls in flight *)

Lemma Task_induction {A} (P : InFlight.Task A -> Prop) :
  (forall r, P (InFlight.Settled r)) ->
  (forall resume, (forall s, P (resume s).1) -> P (InFlight.Suspended resume)) ->
  forall t, P t.
Proof.
  intros HS HP. fix IH 1. intros [r|resume].
  - apply HS.
  - apply HP. intros s. apply IH.
Qed.

Lemma among_nothing {A} (m : InFlight.T A) (s : State) :
  InFlight.among (fun _ s0 => s0) m s = InFlight.alone m s.
Proof.
  unfold InFlight.among, InFlight.alone. destruct (m s) as [t s1].
  generalize 0%nat. revert s1.
  induction t as [r|resume IH] using Task_induction; intros s1 n; simpl; [done|].
  specialize (IH s1). destruct (resume s1) as [t' s']. apply IH.
Qed.

Lemma run_and_then {A B} (t : InFlight.Task A) (k : A -> InFlight.T B) (s : State) :
  InFlight.run (InFlight.and_then t k s).1 (InFlight.and_then t k s).2
  = match InFlight.run t s with
    | (inr a, s') => InFlight.alone (k a) s'
    | (inl e, s') => (inl e, s')
    end.
Proof.
  revert s. induction t as [[e|a]|resume IH] using Task_induction; intros s; simpl.
  - done.
  - unfold InFlight.alone. by destruct (k a s).
  - specialize (IH s). destruct (resume s) as [t' s']. simpl in IH.
    specialize (IH s'). by destruct (InFlight.and_then t' k s').
Qed.

Lemma run_or_else {A} (t : InFlight.Task A) (h : exn -> InFlight.T A) (s : State) :
  InFlight.run (InFlight.or_else t h s).1 (InFlight.or_else t h s).2
  = match InFlight.run t s with
    | (inr a, s') => (inr a, s')
    | (inl e, s') => InFlight.alone (h e) s'
    end.
Proof.
  revert s. induction t as [[e|a]|resume IH] using Task_induction; intros s; simpl.
  - unfold InFlight.alone. by destruct (h e s).
  - done.
  - specialize (IH s). destruct (resume s) as [t' s']. simpl in IH.
    specialize (IH s'). by destruct (InFlight.or_else t' h s').
Qed.

Lemma alone_bind {A B} (m : InFlight.T A) (k : A -> InFlight.T B) (s : State) :
  InFlight.alone (InFlight.bind m k) s
  = bind (InFlight.alone m) (fun a => InFlight.alone (k a)) s.
Proof.
  pose proof (run_and_then (m s).1 k (m s).2) as H.
  unfold InFlight.alone, InFlight.bind, bind in *.
  destruct (m s) as [t s1]. simpl in H.
  destruct (InFlight.and_then t k s1) as [t' s']. exact H.
Qed.

Lemma alone_try_catch {A} (m : InFlight.T A) (h : exn -> InFlight.T A) (s : State) :
  InFlight.alone (InFlight.try_catch m h) s
  = try_catch (InFlight.alone m) (fun e => InFlight.alone (h e)) s.
Proof.
  pose proof (run_or_else (m s).1 h (m s).2) as H.
  unfold InFlight.alone, InFlight.try_catch, try_catch in *.
  destruct (m s) as [t s1]. simpl in H.
  destruct (InFlight.or_else t h s1) as [t' s']. exact H.
Qed.

Lemma alone_rotate {A} (fetch : Fetch A) (endpoint : string)
    (params : list (string * string)) (cost : Z) (startIndex : nat) (todo : list nat) :
  forall (lastError : option exn) (s : State),
  InFlight.alone (InFlight.rotate fetch endpoint params cost startIndex todo lastError) s
  = rotate fetch endpoint params cost startIndex todo lastError s.
Proof.
  induction todo as [|i todo IH]; intros lastError s; [done|].
  unfold InFlight.alone in *. simpl.
  destruct (apiKeys s !! _) as [key|]; [|done].
  destruct (skipped _ _ key); [apply IH|].
  unfold try_key. simpl.
  destruct (fetch _ _) as [msg|body|status body]; simpl.
  - apply IH.
  - destruct body as [msg|a]; simpl; [apply IH | done].
  - destruct body as [msg|[|error]]; simpl.
    + destruct (key_related _ _); apply IH.
    + apply IH.
    + destruct (key_related _ _); apply IH.
Qed.

Lemma alone_fetchYouTubeAPI {A} (fetch : Fetch A) (endpoint : string)
    (params : list (string * string)) (s : State) :
  InFlight.alone (InFlight.fetchYouTubeAPI fetch endpoint params) s
  = fetchYouTubeAPI fetch endpoint params s.
Proof.
  unfold InFlight.alone, InFlight.fetchYouTubeAPI, fetchYouTubeAPI.
  destruct (length (apiKeys (push_routerCall (endpoint, params) s)) =? 0)%nat; [done|].
  apply alone_rotate.
Qed.

Lemma alone_bind_with {A B} (m : InFlight.T A) (k : A -> InFlight.T B)
    (m' : M A) (k' : A -> M B) (s : State) :
  InFlight.alone m s = m' s ->
  (forall a s', InFlight.alone (k a) s' = k' a s') ->
  InFlight.alone (InFlight.bind m k) s = bind m' k' s.
Proof.
  intros Hm Hk. rewrite alone_bind. unfold bind. rewrite Hm.
  destruct (m' s) as [[e|a] s']; [done | apply Hk].
Qed.

Lemma alone_try_catch_with {A} (m : InFlight.T A) (h : exn -> InFlight.T A)
    (m' : M A) (h' : exn -> M A) (s : State) :
  InFlight.alone m s = m' s ->
  (forall e s', InFlight.alone (h e) s' = h' e s') ->
  InFlight.alone (InFlight.try_catch m h) s = try_catch m' h' s.
Proof.
  intros Hm Hh. rewrite alone_try_catch. unfold try_catch. rewrite Hm.
  destruct (m' s) as [[e|a] s']; [apply Hh | done].
Qed.

Lemma alone_deref {A} (o : option A) (s : State) :
  InFlight.alone (InFlight.deref o) s = deref o s.
Proof. by destruct o. Qed.

Lemma alone_getAbsoluteOldestVideo (w : World) (channelId channelPublishedAt : string)
    (s : State) :
  InFlight.alone (InFlight.getAbsoluteOldestVideo w channelId channelPublishedAt) s
  = getAbsoluteOldestVideo w channelId channelPublishedAt s.
Proof.
  apply alone_try_catch_with; [|done].
  apply alone_bind_with; [apply alone_deref|]. intros startDate s1.
  apply alone_bind_with; [apply alone_fetchYouTubeAPI|]. intros data s2.
  destruct (SearchResult.items data) as [[|it its]|]; [done| |done].
  apply alone_bind_with; [apply alone_deref | done].
Qed.

Lemma alone_getAbsoluteNewestVideo (w : World) (uploadsPlaylistId : string) (s : State) :
  InFlight.alone (InFlight.getAbsoluteNewestVideo w uploadsPlaylistId) s
  = getAbsoluteNewestVideo w uploadsPlaylistId s.
Proof.
  apply alone_try_catch_with; [|done].
  apply alone_bind_with; [apply alone_fetchYouTubeAPI|]. intros data s1.
  destruct (PlaylistItem.items data) as [[|first rest]|]; [done| |done].
  apply alone_bind_with; [apply alone_deref|]. intros sn s2.
  apply alone_bind_with; [apply alone_deref|]. intros rid s3.
  apply alone_bind_with; [apply alone_fetchYouTubeAPI|]. intros vdata s4.
  destruct (Video.items vdata) as [[|item items]|]; [done| |done].
  apply alone_bind_with; [apply alone_deref | done].
Qed.

Section Calls.
Context (Q : string * list (string * string) -> Prop).

Lemma calls_at_most_mono {A} (t : InFlight.Task A) :
  forall n n', (n <= n')%nat -> calls_at_most Q n t -> calls_at_most Q n' t.
Proof.
  induction t as [r|resume IH] using Task_induction; intros n n' Hn H.
  - constructor.
  - inversion H as [|? ? Hr]; subst. constructor. intros s.
    destruct (Hr s) as (added & E & HQ & Hl & Hc).
    exists added. split; [done|]. split; [done|]. split; [lia|].
    apply (IH s (n - length added)%nat); [lia | done].
Qed.

Lemma spends_at_after {A} (n k : nat) (x : InFlight.Task A * State) (s s1 : State)
    (added : list (string * list (string * string))) :
  routerCalls s1 = routerCalls s ++ added ->
  Forall Q added ->
  (length added <= n)%nat ->
  spends_at Q (n - length added + k) x s1 ->
  spends_at Q (n + k) x s.
Proof.
  intros E HQ Hl (added' & E' & HQ' & Hl' & Hc).
  exists (added ++ added'). rewrite E', E, <- app_assoc, length_app.
  split; [done|]. split; [by apply Forall_app|]. split; [lia|].
  replace (n + k - (length added + length added'))%nat
    with (n - length added + k - length added')%nat by lia.
  exact Hc.
Qed.

Lemma spends_at_mono {A} (n n' : nat) (x : InFlight.Task A * State) (s : State) :
  (n <= n')%nat -> spends_at Q n x s -> spends_at Q n' x s.
Proof.
  intros Hn (added & E & HQ & Hl & Hc). exists added.
  split; [done|]. split; [done|]. split; [lia|].
  eapply calls_at_most_mono; [|exact Hc]. lia.
Qed.

Lemma spends_at_here {A} (n : nat) (t : InFlight.Task A) (s : State) :
  calls_at_most Q n t -> spends_at Q n (t, s) s.
Proof.
  intros H. exists []. rewrite app_nil_r. simpl. rewrite Nat.sub_0_r.
  split; [done|]. split; [constructor|]. split; [lia | done].
Qed.

Lemma calls_and_then {A B} (t : InFlight.Task A) (k : A -> InFlight.T B) (m : nat) :
  (forall a, spends Q m (k a)) ->
  forall n s, calls_at_most Q n t -> spends_at Q (n + m) (InFlight.and_then t k s) s.
Proof.
  intros Hk. induction t as [[e|a]|resume IH] using Task_induction; intros n s H; simpl.
  - apply spends_at_here. constructor.
  - apply (spends_at_mono m); [lia | apply Hk].
  - apply spends_at_here. constructor. intros s'.
    inversion H as [|? ? Hr]; subst.
    destruct (Hr s') as (added & E & HQ & Hl & Hc).
    specialize (IH s' (n - length added)%nat).
    destruct (resume s') as [t' s'']. simpl in *.
    apply (spends_at_after n m _ s' s'' added E HQ Hl). by apply IH.
Qed.

Lemma calls_or_else {A} (t : InFlight.Task A) (h : exn -> InFlight.T A) (m : nat) :
  (forall e, spends Q m (h e)) ->
  forall n s, calls_at_most Q n t -> spends_at Q (n + m) (InFlight.or_else t h s) s.
Proof.
  intros Hh. induction t as [[e|a]|resume IH] using Task_induction; intros n s H; simpl.
  - apply (spends_at_mono m); [lia | apply Hh].
  - apply spends_at_here. constructor.
  - apply spends_at_here. constructor. intros s'.
    inversion H as [|? ? Hr]; subst.
    destruct (Hr s') as (added & E & HQ & Hl & Hc).
    specialize (IH s' (n - length added)%nat).
    destruct (resume s') as [t' s'']. simpl in *.
    apply (spends_at_after n m _ s' s'' added E HQ Hl). by apply IH.
Qed.

Lemma spends_bind {A B} (m : InFlight.T A) (k : A -> InFlight.T B) (n n' : nat) :
  spends Q n m -> (forall a, spends Q n' (k a)) -> spends Q (n + n') (InFlight.bind m k).
Proof.
  intros Hm Hk s. unfold InFlight.bind.
  destruct (Hm s) as (added & E & HQ & Hl & Hc).
  destruct (m s) as [t s1]. simpl in *.
  apply (spends_at_after n n' _ s s1 added E HQ Hl). by apply calls_and_then.
Qed.

Lemma spends_try_catch {A} (m : InFlight.T A) (h : exn -> InFlight.T A) (n n' : nat) :
  spends Q n m -> (forall e, spends Q n' (h e)) ->
  spends Q (n + n') (InFlight.try_catch m h).
Proof.
  intros Hm Hh s. unfold InFlight.try_catch.
  destruct (Hm s) as (added & E & HQ & Hl & Hc).
  destruct (m s) as [t s1]. simpl in *.
  apply (spends_at_after n n' _ s s1 added E HQ Hl). by apply calls_or_else.
Qed.

Lemma spends_ret {A} (a : A) : spends Q 0 (InFlight.ret a).
Proof. intros s. apply spends_at_here. constructor. Qed.

Lemma spends_deref {A} (o : option A) : spends Q 0 (InFlight.deref o).
Proof. intros s. destruct o; apply spends_at_here; constructor. Qed.

Lemma spends_mono {A} (m : InFlight.T A) (n n' : nat) :
  (n <= n')%nat -> spends Q n m -> spends Q n' m.
Proof. intros Hn H s. by apply (spends_at_mono n). Qed.

Lemma routerCalls_updateKeyUsage (keyIndex : nat) (cost : Z) (s : State) :
  routerCalls (updateKeyUsage keyIndex cost s) = routerCalls s.
Proof.
  unfold updateKeyUsage. destruct (apiKeys s !! keyIndex); [|done].
  unfold notifyQuota. simpl. by destruct (onQuotaChangeCallback s).
Qed.

Lemma spends_rotate {A} (fetch : Fetch A) (endpoint : string)
    (params : list (string * string)) (cost : Z) (startIndex : nat) (todo : list nat) :
  forall lastError,
  spends Q 0 (InFlight.rotate fetch endpoint params cost startIndex todo lastError).
Proof.
  induction todo as [|i todo IH]; intros lastError s; simpl.
  - apply spends_at_here. constructor.
  - destruct (apiKeys s !! _) as [key|]; [|apply spends_at_here; constructor].
    destruct (skipped _ _ key); [apply IH|].
    exists []. simpl. rewrite app_nil_r. split; [done|]. split; [constructor|].
    split; [lia|]. constructor. intros s1.
    destruct (fetch _ _) as [msg|body|status body].
    + apply IH.
    + exists []. simpl. rewrite app_nil_r. split.
      { unfold notifyKeyIndex. simpl.
        destruct (onKeyIndexChangeCallback _); simpl; apply routerCalls_updateKeyUsage. }
      split; [constructor|]. split; [lia|]. constructor. intros s2.
      destruct body as [msg|a]; [apply IH | apply spends_at_here; constructor].
    + apply spends_at_here. constructor. intros s2.
      destruct body as [msg|[|error]]; simpl.
      * destruct (key_related _ _); apply IH.
      * apply IH.
      * destruct (key_related _ _); apply IH.
Qed.

Lemma spends_fetchYouTubeAPI {A} (fetch : Fetch A) (endpoint : string)
    (params : list (string * string)) :
  Q (endpoint, params) -> spends Q 1 (InFlight.fetchYouTubeAPI fetch endpoint params).
Proof.
  intros HQ s. unfold InFlight.fetchYouTubeAPI.
  apply (spends_at_after 1 0 _ s (push_routerCall (endpoint, params) s)
           [(endpoint, params)]); [done | by constructor | simpl; lia |].
  destruct (length _ =? 0)%nat; [apply spends_at_here; constructor | apply spends_rotate].
Qed.

End Calls.

Lemma Promise_all_unfold {A B} (first : nat -> bool) (a : InFlight.Task A)
    (b : InFlight.Task B) (n : nat) (s : State) :
  InFlight.Promise_all first a b n s
  = match a, b with
    | InFlight.Settled (inl e), _ => (inl e, s)
    | _, InFlight.Settled (inl e) => (inl e, s)
    | InFlight.Settled (inr x), InFlight.Settled (inr y) => (inr (x, y), s)
    | InFlight.Suspended resume, InFlight.Settled (inr _) =>
        let (a', s') := resume s in InFlight.Promise_all first a' b (S n) s'
    | InFlight.Settled (inr _), InFlight.Suspended resume =>
        let (b', s') := resume s in InFlight.Promise_all first a b' (S n) s'
    | InFlight.Suspended resume_a, InFlight.Suspended resume_b =>
        if first n
        then let (a', s') := resume_a s in InFlight.Promise_all first a' b (S n) s'
        else let (b', s') := resume_b s in InFlight.Promise_all first a b' (S n) s'
    end.
Proof. by destruct a as [[?|?]|?], b as [[?|?]|?]. Qed.

Lemma Promise_all_calls {A B} (Q : string * list (string * string) -> Prop)
    (first : nat -> bool) (a : InFlight.Task A) :
  forall (b : InFlight.Task B) (na nb n : nat) (s : State),
  calls_at_most Q na a -> calls_at_most Q nb b ->
  exists added,
    routerCalls (InFlight.Promise_all first a b n s).2 = routerCalls s ++ added
    /\ Forall Q added /\ (length added <= na + nb)%nat.
Proof.
  assert (Here : forall (x : exn + A * B) (s : State) (m : nat),
    exists added : list (string * list (string * string)),
      routerCalls (x, s).2 = routerCalls s ++ added
      /\ Forall Q added /\ (length added <= m)%nat).
  { intros x s m. exists []. rewrite app_nil_r. split; [done|].
    split; [constructor | simpl; lia]. }
  assert (After : forall (x : (exn + A * B) * State) (s s' : State) added (m m' : nat),
    routerCalls s' = routerCalls s ++ added -> Forall Q added ->
    (length added + m <= m')%nat ->
    (exists added', routerCalls x.2 = routerCalls s' ++ added'
                    /\ Forall Q added' /\ (length added' <= m)%nat) ->
    exists added', routerCalls x.2 = routerCalls s ++ added'
                   /\ Forall Q added' /\ (length added' <= m')%nat).
  { intros x s s' added m m' E HQ Hl (added' & E' & HQ' & Hl').
    exists (added ++ added'). rewrite E', E, <- app_assoc, length_app.
    split; [done|]. split; [by apply Forall_app | lia]. }
  induction a as [ra|resume_a IHa] using Task_induction;
    intros b; induction b as [rb|resume_b IHb] using Task_induction;
    intros na nb n s Ha Hb; rewrite Promise_all_unfold.
  - destruct ra as [e|x], rb as [e'|y]; apply Here.
  - destruct ra as [e|x]; [apply Here|].
    inversion Hb as [|? ? Hr]; subst.
    destruct (Hr s) as (added & E & HQ & Hl & Hc).
    specialize (IHb s). destruct (resume_b s) as [b' s']. simpl in *.
    apply (After _ s s' added (na + (nb - length added))%nat); [done | done | lia |].
    by apply IHb.
  - destruct rb as [e|y]; [apply Here|].
    inversion Ha as [|? ? Hr]; subst.
    destruct (Hr s) as (added & E & HQ & Hl & Hc).
    specialize (IHa s). destruct (resume_a s) as [a' s']. simpl in *.
    apply (After _ s s' added ((na - length added) + nb)%nat); [done | done | lia |].
    by apply IHa.
  - destruct (first n).
    + inversion Ha as [|? ? Hr]; subst.
      destruct (Hr s) as (added & E & HQ & Hl & Hc).
      specialize (IHa s). destruct (resume_a s) as [a' s']. simpl in *.
      apply (After _ s s' added ((na - length added) + nb)%nat); [done | done | lia |].
      by apply IHa.
    + inversion Hb as [|? ? Hr]; subst.
      destruct (Hr s) as (added & E & HQ & Hl & Hc).
      specialize (IHb s). destruct (resume_b s) as [b' s']. simpl in *.
      apply (After _ s s' added (na + (nb - length added))%nat); [done | done | lia |].
      by apply IHb.
Qed.

Lemma rotate_not_fulfilled {A} (fetch : Fetch A) (endpoint : string)
    (params : list (string * string)) (cost : Z) (startIndex : nat) (todo : list nat) :
  forall lastError s a,
  (InFlight.rotate fetch endpoint params cost startIndex todo lastError s).1
  <> InFlight.Settled (inr a).
Proof.
  induction todo as [|i todo IH]; intros lastError s a; simpl; [done|].
  destruct (apiKeys s !! _) as [key|]; [|done].
  destruct (skipped _ _ key); [apply IH | done].
Qed.

(** A call of the router has been entered in [routerCalls], and nothing
    else has changed there, when the caller gets to its first await; the
    call is not fulfilled by then. *)
Lemma fetchYouTubeAPI_started {A} (Q : string * list (string * string) -> Prop)
    (fetch : Fetch A) (endpoint : string) (params : list (string * string)) (s : State) :
  let started := InFlight.fetchYouTubeAPI fetch endpoint params s in
  routerCalls started.2 = routerCalls s ++ [(endpoint, params)]
  /\ calls_at_most Q 0 started.1
  /\ forall a, started.1 <> InFlight.Settled (inr a).
Proof.
  unfold InFlight.fetchYouTubeAPI.
  set (s0 := push_routerCall (endpoint, params) s).
  destruct (length (apiKeys s0) =? 0)%nat.
  - simpl. split; [done|]. split; [constructor | done].
  - destruct (spends_rotate Q fetch endpoint params (cost_of endpoint) (currentKeyIndex s0)
                (seq 0 (length (apiKeys s0))) None s0) as (added & E & _ & Hl & Hc).
    destruct added; [|simpl in Hl; lia]. rewrite app_nil_r in E. simpl in *.
    split; [by rewrite E|]. split; [done|]. intros a. apply rotate_not_fulfilled.
Qed.

Lemma try_bind_started {A B} (Q : string * list (string * string) -> Prop)
    (m : InFlight.T A) (k : A -> InFlight.T B) (h : exn -> InFlight.T B)
    (n : nat) (s : State) (now : list (string * list (string * string))) :
  routerCalls (m s).2 = routerCalls s ++ now ->
  calls_at_most Q 0 (m s).1 ->
  (forall a, (m s).1 <> InFlight.Settled (inr a)) ->
  (forall a, spends Q n (k a)) ->
  (forall e, spends Q 0 (h e)) ->
  let started := InFlight.try_catch (InFlight.bind m k) h s in
  routerCalls started.2 = routerCalls s ++ now
  /\ calls_at_most Q n started.1.
Proof.
  intros E Hc Hn Hk Hh. unfold InFlight.try_catch, InFlight.bind.
  destruct (m s) as [[[e|a]|resume] s1]; simpl in *.
  - destruct (Hh e s1) as (added & E' & _ & Hl & Hc').
    destruct added; [|simpl in Hl; lia]. rewrite app_nil_r in E'.
    split; [by rewrite E'|]. eapply calls_at_most_mono; [|exact Hc']. lia.
  - by destruct (Hn a).
  - split; [done|]. constructor.
    change (spends Q n (InFlight.try_catch (InFlight.bind resume k) h)).
    inversion Hc as [|? ? Hr]; subst.
    pose proof (spends_try_catch Q (InFlight.bind resume k) h n 0
                  (spends_bind Q resume k 0 n Hr Hk) Hh) as H.
    by rewrite Nat.add_0_r in H.
Qed.

Lemma newest_started (w : World) (uploadsPlaylistId : string) (s : State) :
  let started := InFlight.getAbsoluteNewestVideo w uploadsPlaylistId s in
  routerCalls started.2
  = routerCalls s ++ [("playlistItems", newest_query uploadsPlaylistId)]
  /\ calls_at_most videos_call 1 started.1.
Proof.
  destruct (fetchYouTubeAPI_started videos_call (playlistItems w) "playlistItems"
              (newest_query uploadsPlaylistId) s) as (E & Hc & Hn).
  apply (try_bind_started videos_call); [done | done | done | | intros; apply spends_ret].
  intros data. destruct (PlaylistItem.items data) as [[|first rest]|];
    [apply (spends_mono videos_call _ 0); [lia | apply spends_ret] |
    | apply (spends_mono videos_call _ 0); [lia | apply spends_ret]].
  apply (spends_bind videos_call _ _ 0 1); [apply spends_deref|]. intros sn.
  apply (spends_bind videos_call _ _ 0 1); [apply spends_deref|]. intros rid.
  apply (spends_bind videos_call _ _ 1 0);
    [apply spends_fetchYouTubeAPI; by eexists|].
  intros vdata. destruct (Video.items vdata) as [[|item items]|];
    [apply spends_ret | | apply spends_ret].
  apply (spends_bind videos_call _ _ 0 0); [apply spends_deref|]. intros v.
  apply spends_ret.
Qed.

Lemma oldest_started (w : World) (channelId channelPublishedAt : string) (s : State) :
  let started := InFlight.getAbsoluteOldestVideo w channelId channelPublishedAt s in
  routerCalls started.2
  = routerCalls s
    ++ match minus12h w channelPublishedAt with
       | Some startDate => [("search", oldest_query channelId startDate)]
       | None => []
       end
  /\ calls_at_most videos_call 0 started.1.
Proof.
  destruct (minus12h w channelPublishedAt) as [startDate|] eqn:Ed.
  2: { unfold InFlight.getAbsoluteOldestVideo, InFlight.try_catch, InFlight.bind.
       rewrite Ed. simpl. rewrite app_nil_r. split; [done | constructor]. }
  unfold InFlight.getAbsoluteOldestVideo, InFlight.try_catch. rewrite Ed.
  change (InFlight.bind (InFlight.deref (Some startDate)) ?k s) with (k startDate s).
  cbv beta.
  destruct (fetchYouTubeAPI_started videos_call (search w) "search"
              (oldest_query channelId startDate) s) as (E & Hc & Hn).
  apply (try_bind_started videos_call _ _ (fun _ => InFlight.ret None));
    [done | done | done | | intros; apply spends_ret].
  intros data. destruct (SearchResult.items data) as [[|it its]|];
    [apply spends_ret | | apply spends_ret].
  apply (spends_bind videos_call _ _ 0 0); [apply spends_deref|]. intros mapped.
  apply spends_ret.
Qed.

(** ** Channel statistics, the successful path *)

Lemma newest_and_oldest_calls (w : World) (up : string) (channel : Channel.t)
    (sn : Channel.Snippet) (s : State) :
  Channel.snippet channel = Some sn ->
  exists later,
    routerCalls (newest_and_oldest w up channel s).2
    = routerCalls s
      ++ ("playlistItems", newest_query up)
         :: match minus12h w (Channel.publishedAt sn) with
            | Some startDate => [("search", oldest_query (Channel.id channel) startDate)]
            | None => []
            end
         ++ later
    /\ (later = [] \/ exists videoId, later = [("videos", video_query videoId)]).
Proof.
  intros Es. unfold newest_and_oldest. rewrite Es.
  destruct (newest_started w up s) as (E1 & C1).
  destruct (InFlight.getAbsoluteNewestVideo w up s) as [newest s1]. simpl in E1, C1.
  destruct (oldest_started w (Channel.id channel) (Channel.publishedAt sn) s1) as (E2 & C2).
  destruct (InFlight.getAbsoluteOldestVideo w (Channel.id channel) (Channel.publishedAt sn) s1)
    as [oldest s2]. simpl in E2, C2.
  destruct (Promise_all_calls videos_call (arrival w (length (requests s))) newest oldest
              1 0 0 s2 C1 C2) as (later & E3 & HQ & Hl).
  exists later. split.
  - rewrite E3, E2, E1, <- !app_assoc. reflexivity.
  - destruct later as [|c [|c' later]]; [by left | | simpl in Hl; lia].
    right. apply Forall_cons in HQ as [(videoId & ->) _]. by exists videoId.
Qed.

(** X12.  The record [getChannelStats] returns is the placeholder, with
    status terminated, or a record with status active built from the first
    channel of the metadata response: it carries that channel's id (not the
    identifier asked for), its title, counters, uploads playlist and high
    thumbnail.  The status is never error.  On the way to an active record
    the two sub-fetches are in flight together: after the metadata call the
    router is called for the newest entry of the uploads playlist, then,
    before that call is answered, for the search of the oldest video (when
    the channel's date is readable), and after that at most once more, for
    the statistics of a video. *)
Theorem getChannelStats_active_or_placeholder (w : World) (channelIdentifier : string)
    (s : State) :
  exists resolvedId s1 r s',
    resolveChannelId w channelIdentifier s = (inr resolvedId, s1)
    /\ getChannelStats w channelIdentifier s = (inr r, s')
    /\ (r = placeholder w resolvedId
        \/ exists data s2 channel rest sn st up thumbnail later,
             metadata_call w resolvedId s1 = (inr data, s2)
             /\ Channel.items data = Some (channel :: rest)
             /\ Channel.snippet channel = Some sn
             /\ Channel.statistics channel = Some st
             /\ Channel.uploads channel = Some up
             /\ high (Channel.thumbnails sn) = Some thumbnail
             /\ ChannelStats.status r = Some ChannelStats.active
             /\ ChannelStats.id r = Channel.id channel
             /\ ChannelStats.title r = Channel.title sn
             /\ ChannelStats.customUrl r = str_or (Channel.customUrl sn) ""
             /\ ChannelStats.thumbnailUrl r = thumbnail
             /\ ChannelStats.subscriberCount r = Channel.subscriberCount st
             /\ ChannelStats.videoCount r = Channel.videoCount st
             /\ ChannelStats.viewCount r = Channel.viewCount st
             /\ ChannelStats.uploadsPlaylistId r = up
             /\ ChannelStats.history r = Some []
             /\ routerCalls s'
                = routerCalls s2
                  ++ ("playlistItems", newest_query up)
                     :: match minus12h w (Channel.publishedAt sn) with
                        | Some startDate =>
                            [("search", oldest_query (Channel.id channel) startDate)]
                        | None => []
                        end
                     ++ later
             /\ (later = [] \/ exists videoId, later = [("videos", video_query videoId)]))
    /\ ChannelStats.status r <> Some ChannelStats.error.
Proof.
  destruct (resolveChannelId_total w channelIdentifier s) as (resolvedId & s1 & Er).
  exists resolvedId, s1.
  unfold getChannelStats, bind at 1. rewrite Er. unfold try_catch, bind at 1.
  fold (metadata_call w resolvedId).
  destruct (metadata_call w resolvedId s1) as [[e|data] s2] eqn:Em; simpl.
  { eexists _, _. split; [done|]. split; [reflexivity|]. split; [by left | done]. }
  destruct (Channel.items data) as [[|channel rest]|] eqn:Ei; simpl.
  1,3: eexists _, _; split; [done|]; split; [reflexivity|]; split; [by left | done].
  unfold bind at 1. destruct (Channel.uploads channel) as [up|] eqn:Eu; simpl.
  2: { eexists _, _. split; [done|]. split; [reflexivity|]. split; [by left | done]. }
  unfold bind at 1.
  destruct (newest_and_oldest w up channel s2) as [[e|both] s3] eqn:Eb.
  { eexists _, _. split; [done|]. split; [reflexivity|]. split; [by left | done]. }
  unfold bind at 1. destruct (Channel.snippet channel) as [sn|] eqn:Es; simpl.
  2: { eexists _, _. split; [done|]. split; [reflexivity|]. split; [by left | done]. }
  unfold bind at 1. destruct (high (Channel.thumbnails sn)) as [thumbnail|] eqn:Eh; simpl.
  2: { eexists _, _. split; [done|]. split; [reflexivity|]. split; [by left | done]. }
  unfold bind at 1. destruct (Channel.statistics channel) as [st|] eqn:Et; simpl.
  2: { eexists _, _. split; [done|]. split; [reflexivity|]. split; [by left | done]. }
  destruct (newest_and_oldest_calls w up channel sn s2 Es) as (later & Ec & Hl).
  rewrite Eb in Ec. simpl in Ec.
  eexists _, _. split; [done|]. split; [reflexivity|]. split; [|done].
  right. exists data, s2, channel, rest, sn, st, up, thumbnail, later. simpl.
  by repeat (split; [done|]).
Qed.

Lemma getChannelStats_active_or_placeholder_witness :
  (exists r s',
     getChannelStats (overlapping true) "UCx" near_cap = (inr r, s')
     /\ ChannelStats.status r = Some ChannelStats.active
     /\ VideoStat.id <$> ChannelStats.newestVideo r = Some "v3"
     /\ VideoStat.id <$> ChannelStats.oldestVideo r = Some "b"
     /\ map fst (routerCalls s') = ["channels"; "playlistItems"; "search"; "videos"]
     /\ usage_at s' 0 = 10001)
  /\ (exists r s',
        getChannelStats (overlapping false) "UCx" near_cap = (inr r, s')
        /\ ChannelStats.status r = Some ChannelStats.active
        /\ ChannelStats.newestVideo r = None
        /\ VideoStat.id <$> ChannelStats.oldestVideo r = Some "b"
        /\ map fst (routerCalls s') = ["channels"; "playlistItems"; "search"; "videos"]
        /\ usage_at s' 0 = 10000).
Proof.
  split.
  - destruct (getChannelStats_active_or_placeholder (overlapping true) "UCx" near_cap)
      as (resolvedId & s1 & r & s' & _ & E & Hr & _).
    exists r, s'. split; [exact E|].
    assert (R : (getChannelStats (overlapping true) "UCx" near_cap).1 = inr r)
      by (by rewrite E).
    assert (S : (getChannelStats (overlapping true) "UCx" near_cap).2 = s')
      by (by rewrite E).
    vm_compute in R. injection R as Rr.
    split.
    + destruct Hr as [Hp | (? & ? & ? & ? & ? & ? & ? & ? & ? & _ & _ & _ & _ & _ & _ & H & _)];
        [|exact H].
      rewrite <- Rr in Hp. vm_compute in Hp. discriminate.
    + rewrite <- S, <- Rr. vm_compute. by repeat split.
  - destruct (getChannelStats_active_or_placeholder (overlapping false) "UCx" near_cap)
      as (resolvedId & s1 & r & s' & _ & E & Hr & _).
    exists r, s'. split; [exact E|].
    assert (R : (getChannelStats (overlapping false) "UCx" near_cap).1 = inr r)
      by (by rewrite E).
    assert (S : (getChannelStats (overlapping false) "UCx" near_cap).2 = s')
      by (by rewrite E).
    vm_compute in R. injection R as Rr.
    split.
    + destruct Hr as [Hp | (? & ? & ? & ? & ? & ? & ? & ? & ? & _ & _ & _ & _ & _ & _ & H & _)];
        [|exact H].
      rewrite <- Rr in Hp. vm_compute in Hp. discriminate.
    + rewrite <- S, <- Rr. vm_compute. by repeat split.
Defined.

(** ** The batch, record by record *)

Lemma channel_to_stats_active (item : Channel.t) (r : ChannelStats.t) :
  channel_to_stats item = Some r ->
  ChannelStats.id r = Channel.id item
  /\ ChannelStats.status r = Some ChannelStats.active
  /\ ChannelStats.newestVideo r = None
  /\ ChannelStats.oldestVideo r = None
  /\ ChannelStats.history r = None.
Proof.
  unfold channel_to_stats.
  destruct (Channel.snippet item), (Channel.statistics item), (Channel.uploads item);
    simpl; try done. by intros [= <-].
Qed.

Lemma chunk_results_active (w : World) (cs : list (list string)) :
  forall s : State,
  Forall (fun r => ChannelStats.status r = Some ChannelStats.active
                   /\ ChannelStats.newestVideo r = None
                   /\ ChannelStats.oldestVideo r = None
                   /\ ChannelStats.history r = None)
         (concat (chunk_results w cs s).1).
Proof.
  induction cs as [|c cs IH]; intros s; [constructor|].
  rewrite chunk_results_cons. simpl. apply Forall_app. split; [|apply IH].
  unfold chunk_result. destruct (chunk_call w c s) as [[e|data] s1]; simpl; [constructor|].
  destruct (Channel.items data) as [its|]; simpl; [|constructor].
  destruct (mapM channel_to_stats its) as [rs|] eqn:Em; simpl; [|constructor].
  apply mapM_Some_1 in Em. apply Forall_forall. intros r Hr.
  apply list_elem_of_lookup in Hr as [i Hi].
  destruct (Forall2_lookup_r _ _ _ _ _ Em Hi) as (item & _ & Hc).
  apply channel_to_stats_active in Hc. tauto.
Qed.

(** X13.  [getChannelStatsBatch] never raises; every record it returns has
    status active and carries no newest video, oldest video or history; for
    an empty identifier list it returns the empty list without calling the
    router, the state being left as it was. *)
Theorem batch_records_are_active (w : World) (channelIds : list string) (s : State) :
  exists rs s',
    getChannelStatsBatch w channelIds s = (inr rs, s')
    /\ Forall (fun r => ChannelStats.status r = Some ChannelStats.active
                        /\ ChannelStats.newestVideo r = None
                        /\ ChannelStats.oldestVideo r = None
                        /\ ChannelStats.history r = None) rs
    /\ (channelIds = [] -> rs = [] /\ s' = s).
Proof.
  unfold getChannelStatsBatch. destruct channelIds as [|x l] eqn:E.
  - exists [], s. by repeat split.
  - rewrite <- E.
    replace (length channelIds =? 0)%nat with false
      by (symmetry; apply Nat.eqb_neq; subst; simpl; lia).
    rewrite batch_loop_chunks by lia. eexists _, _. split; [reflexivity|].
    split; [apply chunk_results_active | by subst].
Qed.

Lemma batch_records_are_active_witness :
  (exists rs s',
     getChannelStatsBatch second_call_fails ids120 (fresh [key "k0" valid None]) = (inr rs, s')
     /\ map ChannelStats.status rs = [Some ChannelStats.active; Some ChannelStats.active])
  /\ getChannelStatsBatch second_call_fails [] two_keys = (inr [], two_keys).
Proof.
  split.
  - destruct (batch_records_are_active second_call_fails ids120 (fresh [key "k0" valid None]))
      as (rs & s' & E & _ & _).
    exists rs, s'. split; [exact E|]. vm_compute in E. by inversion E.
  - destruct (batch_records_are_active second_call_fails [] two_keys)
      as (rs & s' & E & _ & H).
    destruct (H eq_refl) as [-> ->]. exact E.
Defined.

(** ** A page without videos *)

Lemma videoIds_none (pitems : list PlaylistItem.t) :
  Forall (fun item => truthy (videoId_opt item) = false) pitems ->
  videoIds pitems = "".
Proof.
  intros H. unfold videoIds.
  replace (omap _ pitems) with (@nil string); [done|].
  induction H as [|item l Hi _ IH]; [done|]. simpl. by rewrite Hi.
Qed.

(** X14.  When the playlist call returns no entries, [getChannelVideos]
    returns an empty page without a continuation token; when it returns
    entries none of which has a video id, it returns an empty page that
    keeps the continuation token of the playlist page.  In both cases the
    statistics call is not made: the playlist call is the only router
    call. *)
Theorem page_without_videos (w : World) (playlistId : string) (maxResults : Z)
    (pageToken : option string) (s s1 : State) (pdata : PlaylistItem.List) :
  fetchYouTubeAPI (playlistItems w) "playlistItems"
    (playlistParams playlistId maxResults pageToken) s = (inr pdata, s1) ->
  let run := getChannelVideos w playlistId maxResults pageToken s in
  routerCalls s1
  = routerCalls s ++ [("playlistItems", playlistParams playlistId maxResults pageToken)]
  /\ (PlaylistItem.items pdata = None \/ PlaylistItem.items pdata = Some [] ->
      run = (inr (mkVideoPage [] None), s1))
  /\ (forall pitems,
        PlaylistItem.items pdata = Some pitems ->
        pitems <> [] ->
        Forall (fun item => truthy (videoId_opt item) = false) pitems ->
        run = (inr (mkVideoPage [] (PlaylistItem.nextPageToken pdata)), s1)).
Proof.
  intros E run. subst run.
  pose proof (fetchYouTubeAPI_routerCalls (playlistItems w) "playlistItems"
                (playlistParams playlistId maxResults pageToken) s) as R.
  rewrite E in R. simpl in R. split; [exact R|].
  split.
  - unfold getChannelVideos, try_catch, bind at 1. rewrite E. cbn beta iota.
    intros [H | H]; destruct (PlaylistItem.items pdata) as [[|p ps]|]; done.
  - unfold getChannelVideos, try_catch, bind at 1. rewrite E. cbn beta iota.
    intros pitems H Hne Hno.
    destruct (PlaylistItem.items pdata) as [[|p ps]|]; inversion H; subst pitems;
      [done|].
    cbn beta iota. by rewrite (bool_decide_eq_true_2 _ (videoIds_none _ Hno)).
Qed.

Lemma page_without_videos_witness :
  let s0 := fresh [key "k0" valid None] in
  let s1 := (fetchYouTubeAPI (playlistItems idless) "playlistItems"
               (playlistParams "PLx" 24 None) s0).2 in
  getChannelVideos idless "PLx" 24 None s0 = (inr (mkVideoPage [] (Some "NEXT")), s1)
  /\ routerCalls s1 = [("playlistItems", playlistParams "PLx" 24 None)]
  /\ (getChannelVideos no_such_channel "PLx" 24 None s0).1 = inr (mkVideoPage [] None).
Proof.
  intros s0 s1.
  destruct (page_without_videos idless "PLx" 24 None s0 s1 page_without_ids)
    as (Hc & _ & Hids); [vm_compute; reflexivity|].
  destruct (page_without_videos no_such_channel "PLx" 24 None s0
              (fetchYouTubeAPI (playlistItems no_such_channel) "playlistItems"
                 (playlistParams "PLx" 24 None) s0).2 (PlaylistItem.mkList (Some []) None))
    as (_ & Hemp & _); [vm_compute; reflexivity|].
  split; [|split].
  - exact (Hids _ eq_refl ltac:(discriminate) ltac:(repeat constructor)).
  - exact Hc.
  - exact (f_equal fst (Hemp (or_intror eq_refl))).
Defined.

(** ** The daily cap of a credential *)

Lemma apiKeys_charged (k : nat) (cost : Z) (s : State) (key : ApiKey.t) :
  apiKeys s !! k = Some key ->
  apiKeys (notifyKeyIndex k (set_currentKeyIndex k (updateKeyUsage k cost s)))
  = <[k := ApiKey.with_dailyUsage key (Some (num_or0 (ApiKey.dailyUsage key) + cost))]>
      (apiKeys s).
Proof.
  intros Ek. destruct (updateKeyUsage_Some k cost s key Ek) as (E & _).
  unfold notifyKeyIndex. simpl. by destruct (onKeyIndexChangeCallback _).
Qed.

Section Cap.
Context {A : Type} (fetch : Fetch A) (endpoint : string)
        (params : list (string * string)) (cost : Z) (startIndex : nat)
        (others : nat -> State -> State).
Hypothesis others_keep_pool : forall n s, apiKeys (others n s) = apiKeys s.

(** While nothing else changes the pool, the loop charges a credential at
    most once, and only one that passed the guards. *)
Lemma rotate_among_pool (todo : list nat) :
  forall (lastError : option exn) (s s' : State) (r : exn + A) (n : nat),
  (0 < length (apiKeys s))%nat ->
  NoDup (map (idx startIndex (length (apiKeys s))) todo) ->
  (let (t, s0) := InFlight.rotate fetch endpoint params cost startIndex todo lastError s in
   InFlight.run_among others n t s0) = (r, s') ->
  length (apiKeys s') = length (apiKeys s)
  /\ (forall j, j ∉ map (idx startIndex (length (apiKeys s))) todo ->
                apiKeys s' !! j = apiKeys s !! j)
  /\ (forall j key, apiKeys s !! j = Some key ->
        apiKeys s' !! j = Some key
        \/ (skipped (length (apiKeys s)) cost key = false
            /\ apiKeys s' !! j
               = Some (ApiKey.with_dailyUsage key
                         (Some (num_or0 (ApiKey.dailyUsage key) + cost))))).
Proof.
  induction todo as [|i todo IH]; intros lastError s s' r n Hn ND H; simpl in H.
  - inversion H; subst. split; [done|]. split; [done|]. intros j key Ej. by left.
  - set (len := length (apiKeys s)) in *.
    assert (Hk : (idx startIndex len i < len)%nat) by (apply Nat.mod_upper_bound; lia).
    fold (idx startIndex len i) in H. set (k := idx startIndex len i) in *.
    destruct (lookup_lt_is_Some_2 (apiKeys s) k Hk) as [key Ek]. rewrite Ek in H.
    simpl in ND. apply NoDup_cons in ND as [Hnk ND]. fold len k in Hnk, ND.
    assert (Skip : forall le s1 m,
      apiKeys s1 = apiKeys s ->
      (let (t, s0) := InFlight.rotate fetch endpoint params cost startIndex todo le s1 in
       InFlight.run_among others m t s0) = (r, s') ->
      length (apiKeys s') = len
      /\ (forall j, j ∉ k :: map (idx startIndex len) todo ->
                    apiKeys s' !! j = apiKeys s !! j)
      /\ (forall j key0, apiKeys s !! j = Some key0 ->
            apiKeys s' !! j = Some key0
            \/ (skipped len cost key0 = false
                /\ apiKeys s' !! j
                   = Some (ApiKey.with_dailyUsage key0
                             (Some (num_or0 (ApiKey.dailyUsage key0) + cost)))))).
    { intros le s1 m E1 Hr.
      destruct (IH le s1 s' r m) as (I1 & I2 & I3);
        [by rewrite E1 | by rewrite E1 | exact Hr |].
      rewrite E1 in I1, I2, I3. split; [done|]. split; [|done].
      intros j Hj. apply I2. intros Hin. apply Hj. by right. }
    destruct (skipped len cost key) eqn:Sk; [by apply (Skip lastError s n)|].
    set (req := mkRequest endpoint (obj_set "key" (ApiKey.value key) params)) in *.
    simpl in H.
    set (s0 := push_attempt k (push_request req s)) in *.
    assert (E0 : apiKeys (others n s0) = apiKeys s) by (by rewrite others_keep_pool).
    destruct (fetch (length (requests s)) req) as [msg|body|status body].
    + by apply (Skip (Some (Error msg)) (others n s0) (S n)).
    + simpl in H.
      set (s1 := notifyKeyIndex k (set_currentKeyIndex k
                   (updateKeyUsage k cost (others n s0)))) in *.
      assert (E1 : apiKeys s1
                   = <[k := ApiKey.with_dailyUsage key
                              (Some (num_or0 (ApiKey.dailyUsage key) + cost))]> (apiKeys s)).
      { subst s1. rewrite (apiKeys_charged k cost (others n s0) key); by rewrite E0. }
      assert (E2 : apiKeys (others (S n) s1) = apiKeys s1) by apply others_keep_pool.
      assert (Charged : forall s2,
        apiKeys s2 = apiKeys s1 ->
        length (apiKeys s2) = len
        /\ (forall j, j <> k -> apiKeys s2 !! j = apiKeys s !! j)
        /\ apiKeys s2 !! k
           = Some (ApiKey.with_dailyUsage key
                     (Some (num_or0 (ApiKey.dailyUsage key) + cost)))).
      { intros s2 ->. rewrite E1. split; [apply length_insert|]. split.
        - intros j Hj. by apply list_lookup_insert_ne.
        - by apply list_lookup_insert_eq. }
      destruct (Charged _ E2) as (C1 & C2 & C3).
      destruct body as [msg|a].
      * destruct (IH (Some (Error msg)) (others (S n) s1) s' r (S (S n)))
          as (I1 & I2 & I3); [lia | by rewrite C1 | exact H |].
        rewrite C1 in I1, I2, I3. split; [done|]. split.
        { intros j Hj. rewrite I2; [|intros Hin; apply Hj; by right].
          apply C2. intros ->. apply Hj. by left. }
        intros j key0 Ej. destruct (decide (j = k)) as [->|Hj].
        -- right. rewrite Ek in Ej. inversion Ej; subst key0.
           split; [done|]. by rewrite I2.
        -- apply I3. by rewrite C2.
      * inversion H; subst r s'. split; [done|]. split.
        { intros j Hj. apply C2. intros ->. apply Hj. by left. }
        intros j key0 Ej. destruct (decide (j = k)) as [->|Hj].
        -- right. rewrite Ek in Ej. by inversion Ej; subst key0.
        -- left. by rewrite C2.
    + simpl in H.
      assert (E1 : apiKeys (others (S n) (others n s0)) = apiKeys s)
        by (by rewrite others_keep_pool).
      destruct body as [msg|[|error]]; simpl in H.
      * destruct (key_related _ _); by apply (Skip _ _ _ E1 H).
      * by apply (Skip _ _ _ E1 H).
      * destruct (key_related _ _); by apply (Skip _ _ _ E1 H).
Qed.

End Cap.

Lemma fetchYouTubeAPI_among_pool {A} (fetch : Fetch A) (endpoint : string)
    (params : list (string * string)) (others : nat -> State -> State)
    (s s' : State) (r : exn + A) :
  (forall n s0, apiKeys (others n s0) = apiKeys s0) ->
  InFlight.among others (InFlight.fetchYouTubeAPI fetch endpoint params) s = (r, s') ->
  length (apiKeys s') = length (apiKeys s)
  /\ forall j key, apiKeys s !! j = Some key ->
       apiKeys s' !! j = Some key
       \/ (skipped (length (apiKeys s)) (cost_of endpoint) key = false
           /\ apiKeys s' !! j
              = Some (ApiKey.with_dailyUsage key
                        (Some (num_or0 (ApiKey.dailyUsage key) + cost_of endpoint)))).
Proof.
  intros Ho H. unfold InFlight.among, InFlight.fetchYouTubeAPI in H.
  set (s0 := push_routerCall (endpoint, params) s) in *.
  change (apiKeys s) with (apiKeys s0).
  destruct (length (apiKeys s0) =? 0)%nat eqn:E0.
  - simpl in H. inversion H; subst. split; [done|]. intros j key Ej. by left.
  - apply Nat.eqb_neq in E0.
    destruct (rotate_among_pool fetch endpoint params (cost_of endpoint)
                (currentKeyIndex s0) others Ho (seq 0 (length (apiKeys s0))) None s0 s' r 0)
      as (I1 & _ & I3); [lia | apply (rotation_NoDup s0) | exact H |].
    by split.
Qed.

(** X15.  A call of the router during which nothing else changes the pool
    (no other call is charged between two of its awaits, and the list is
    not replaced): in a pool of more than one credential it leaves a
    credential marked invalid or quota_exceeded exactly as it was, and it
    never takes the daily count of any credential above 10000 if it was not
    above it before the call.  The guards are read when a request goes out
    and the charge is made when its response arrives, so calls that
    overlap, as the two sub-fetches of [getChannelStats] do, can pass
    the cap. *)
Theorem daily_cap_respected {A} (fetch : Fetch A) (operation : string)
    (params : list (string * string)) (others : nat -> State -> State)
    (s s' : State) (r : exn + A) (j : nat) (key : ApiKey.t) :
  (1 < length (apiKeys s))%nat ->
  (forall n s0, apiKeys (others n s0) = apiKeys s0) ->
  InFlight.among others (InFlight.fetchYouTubeAPI fetch operation params) s = (r, s') ->
  apiKeys s !! j = Some key ->
  (ApiKey.status key = invalid \/ ApiKey.status key = quota_exceeded ->
   apiKeys s' !! j = Some key)
  /\ (usage_at s j <= 10000 -> usage_at s' j <= 10000).
Proof.
  intros Hn Ho H Ej.
  assert (Hn' : (1 <? length (apiKeys s))%nat = true) by (by apply Nat.ltb_lt).
  destruct (fetchYouTubeAPI_among_pool _ _ _ _ _ _ _ Ho H) as (_ & P).
  destruct (P j key Ej) as [E | (Sk & E)].
  - split; [done|]. unfold usage_at. by rewrite E, Ej.
  - unfold skipped in Sk. rewrite Hn' in Sk. simpl in Sk.
    apply orb_false_iff in Sk as [Sk1 Sk2]. rewrite andb_true_r in Sk2.
    apply orb_false_iff in Sk1 as [S1 S2].
    apply bool_decide_eq_false_1 in S1, S2. apply Z.ltb_ge in Sk2.
    split; [by intros [?|?]|]. intros _. unfold usage_at. rewrite E. exact Sk2.
Qed.

Lemma daily_cap_respected_witness :
  let others := fun (_ : nat) (s : State) => push_request (mkRequest "videos" []) s in
  let s' := (InFlight.among others
               (InFlight.fetchYouTubeAPI fetch_400_then_ok "search" [("q", "rocq")])
               three_keys).2 in
  apiKeys s' !! 0%nat = Some (key "k0" invalid None) /\ usage_at s' 1 <= 10000.
Proof.
  intros others s'. subst s'. split.
  - refine (proj1 (daily_cap_respected fetch_400_then_ok "search" [("q", "rocq")] others
                     three_keys _ (inr 7%nat) 0%nat (key "k0" invalid None) _ _ _ _)
                     (or_introl eq_refl)).
    + vm_compute. lia.
    + intros n s0. reflexivity.
    + vm_compute. reflexivity.
    + vm_compute. reflexivity.
  - refine (proj2 (daily_cap_respected fetch_400_then_ok "search" [("q", "rocq")] others
                     three_keys _ (inr 7%nat) 1%nat (key "k1" valid (Some 9999)) _ _ _ _) _).
    + vm_compute. lia.
    + intros n s0. reflexivity.
    + vm_compute. reflexivity.
    + vm_compute. reflexivity.
    + vm_compute. discriminate.
Defined.

(** * Properties of the application shell *)

(** ** Validation of the credentials *)







(** ** The pool that the shell hands to the service *)

Lemma setApiKeys_lookup (keys : list ApiKey.t) (s : State) (i : nat) (newKey : ApiKey.t) :
  keys !! i = Some newKey ->
  apiKeys (setApiKeys keys s) !! i
  = Some (ApiKey.with_dailyUsage newKey
            (Some (merged_usage newKey (find_key (ApiKey.value newKey) (apiKeys s))))).
Proof.
  intros E. destruct (setApiKeys_pool keys s) as (-> & _).
  change (map ?f keys) with (f <$> keys). by rewrite list_lookup_fmap, E.
Qed.

(** X17.  Saving a non-empty list of credentials in the settings hands the
    service a pool with the same values in the same order, every status
    unknown, and for every credential the daily count that the service had
    for the first entry of that value, or 0 when it had none; the session
    count is kept, and the cursor is a valid index afterwards.  Saving an
    empty list leaves the service as it was. *)
Theorem settings_save_keeps_usage (keys : list string) (s : State) :
  let s' := syncApiKeys (keys_from_settings keys) s in
  (keys = [] -> s' = s)
  /\ (keys <> [] ->
      map ApiKey.value (apiKeys s') = keys
      /\ (forall k, k ∈ apiKeys s' -> ApiKey.status k = unknown)
      /\ (forall i v, keys !! i = Some v ->
            ApiKey.dailyUsage <$> (apiKeys s' !! i)
            = Some (Some (from_option (fun e => num_or0 (ApiKey.dailyUsage e)) 0
                            (find_key v (apiKeys s)))))
      /\ sessionQuotaUsed s' = sessionQuotaUsed s
      /\ (currentKeyIndex s' < length (apiKeys s'))%nat).
Proof.
  intros s'. subst s'. unfold syncApiKeys, keys_from_settings. rewrite length_map.
  split; [by intros ->|]. intros Hne.
  assert (Hl : (0 < length keys)%nat) by (destruct keys; [done | simpl; lia]).
  rewrite (proj2 (Nat.ltb_lt _ _) Hl).
  destruct (setApiKeys_pool (map (fun k => ApiKey.mk k unknown None None None) keys) s)
    as (Ep & Ec & Es).
  rewrite Ep, Ec, Es, !map_map, !length_map. simpl.
  split; [by rewrite map_id|].
  split.
  { intros k Hk. change (map ?f keys) with (f <$> keys) in Hk.
    by apply list_elem_of_fmap in Hk as (v & -> & _). }
  split.
  { intros i v Ei. change (map ?f keys) with (f <$> keys).
    rewrite list_lookup_fmap, Ei. simpl. unfold merged_usage. simpl.
    by destruct (find_key v (apiKeys s)). }
  split; [done|].
  destruct (length keys <=? currentKeyIndex s)%nat eqn:E; [lia|].
  apply Nat.leb_gt in E. lia.
Qed.

Lemma settings_save_keeps_usage_witness :
  let s := fresh [key "k0" valid (Some 70); key "k1" invalid (Some 5)] in
  let s' := syncApiKeys (keys_from_settings ["k9"; "k0"]) s in
  map ApiKey.value (apiKeys s') = ["k9"; "k0"]
  /\ ApiKey.dailyUsage <$> (apiKeys s' !! 1%nat) = Some (Some 70).
Proof.
  intros s s'.
  destruct (proj2 (settings_save_keeps_usage ["k9"; "k0"] s) ltac:(discriminate))
    as (Hv & _ & Hu & _).
  split; [exact Hv | exact (Hu 1%nat "k0" eq_refl)].
Defined.

(** ** The quota shown in the header *)

Lemma dailyQuotaLimit_all_valid (keys : list ApiKey.t) :
  keys <> [] ->
  Forall (fun k => ApiKey.status k = valid) keys ->
  dailyQuotaLimit keys = 10000 * Z.of_nat (length keys).
Proof.
  intros Hne Hv. unfold dailyQuotaLimit.
  assert (E : List.filter (fun k => bool_decide (ApiKey.status k = valid)) keys = keys).
  { induction Hv as [|k l Hk _ IH]; [done|]. simpl.
    rewrite (bool_decide_eq_true_2 _ Hk). f_equal.
    destruct l; [done|]. by apply IH. }
  rewrite E. destruct keys; [done|]. simpl length.
  destruct (0 <? Z.of_nat (S (length keys))) eqn:B; [lia|]. apply Z.ltb_ge in B. lia.
Qed.

Lemma sum_usage_bound (ks : list ApiKey.t) :
  Forall (fun k => num_or0 (ApiKey.dailyUsage k) <= 10000) ks ->
  sum_usage ks <= 10000 * Z.of_nat (length ks).
Proof.
  unfold sum_usage. induction 1 as [|k l Hk _ IH]; simpl; [lia|].
  simpl in IH. lia.
Qed.

(** X18.  A call of the router during which nothing else changes the pool:
    in a pool of more than one credential, all of them valid and none above
    10000 units for the day, the daily total that the service reports after
    the call is within the limit that the header computes from the
    credentials, and the pool is again one of valid credentials none of
    which is above 10000.  Calls that overlap can pass the limit, as they
    can pass the cap. *)
Theorem usage_within_limit {A} (fetch : Fetch A) (operation : string)
    (params : list (string * string)) (others : nat -> State -> State)
    (s s' : State) (r : exn + A) :
  (1 < length (apiKeys s))%nat ->
  (forall n s0, apiKeys (others n s0) = apiKeys s0) ->
  Forall (fun k => ApiKey.status k = valid /\ num_or0 (ApiKey.dailyUsage k) <= 10000)
         (apiKeys s) ->
  InFlight.among others (InFlight.fetchYouTubeAPI fetch operation params) s = (r, s') ->
  Forall (fun k => ApiKey.status k = valid /\ num_or0 (ApiKey.dailyUsage k) <= 10000)
         (apiKeys s')
  /\ getTotalDailyUsage s' <= dailyQuotaLimit (apiKeys s').
Proof.
  intros Hn Ho Hall H.
  destruct (fetchYouTubeAPI_among_pool _ _ _ _ _ _ _ Ho H) as (Hl & P).
  assert (Hall' : Forall (fun k => ApiKey.status k = valid
                                   /\ num_or0 (ApiKey.dailyUsage k) <= 10000)
                         (apiKeys s')).
  { apply Forall_lookup. intros j k' Ej'.
    assert (Hj : (j < length (apiKeys s))%nat).
    { rewrite <- Hl. by eapply lookup_lt_Some. }
    destruct (lookup_lt_is_Some_2 _ _ Hj) as [k Ej].
    destruct (proj1 (Forall_lookup _ _) Hall j k Ej) as [Hs Hu].
    destruct (P j k Ej) as [E | (Sk & E)]; rewrite E in Ej'; inversion Ej'; subst k'.
    - done.
    - unfold skipped in Sk. rewrite (proj2 (Nat.ltb_lt _ _) Hn) in Sk.
      apply orb_false_iff in Sk as [_ Sk]. rewrite andb_true_r in Sk.
      apply Z.ltb_ge in Sk. by split. }
  split; [exact Hall'|].
  rewrite getTotalDailyUsage_sum.
  rewrite dailyQuotaLimit_all_valid.
  - apply sum_usage_bound. eapply Forall_impl; [exact Hall'|]. by intros k [_ ?].
  - intros E. rewrite E in Hl. simpl in Hl. lia.
  - eapply Forall_impl; [exact Hall'|]. by intros k [? _].
Qed.

Lemma usage_within_limit_witness :
  let others := fun (_ : nat) (s : State) => push_request (mkRequest "videos" []) s in
  let s' := (InFlight.among others
               (InFlight.fetchYouTubeAPI fetch_400_then_ok "search" [("q", "rocq")])
               two_keys).2 in
  getTotalDailyUsage s' <= dailyQuotaLimit (apiKeys s').
Proof.
  intros others s'. subst s'.
  refine (proj2 (usage_within_limit fetch_400_then_ok "search" [("q", "rocq")] others
                   two_keys _ (inr 7%nat) _ _ _ _)).
  - vm_compute. lia.
  - intros n s0. reflexivity.
  - repeat constructor; vm_compute; discriminate.
  - vm_compute. reflexivity.
Defined.

(** ** Opening a channel *)

Lemma getChannelVideos_calls (w : World) (playlistId : string) (maxResults : Z)
    (pageToken : option string) (s : State) :
  exists page s' rest,
    getChannelVideos w playlistId maxResults pageToken s = (inr page, s')
    /\ routerCalls s'
       = routerCalls s
         ++ ("playlistItems", playlistParams playlistId maxResults pageToken) :: rest
    /\ (length rest <= 1)%nat.
Proof.
  unfold getChannelVideos, try_catch, bind at 1.
  pose proof (fetchYouTubeAPI_routerCalls (playlistItems w) "playlistItems"
                (playlistParams playlistId maxResults pageToken) s) as R.
  destruct (fetchYouTubeAPI (playlistItems w) "playlistItems" _ s) as [[e|pdata] s1];
    simpl in R.
  { exists (mkVideoPage [] None), s1, []. simpl. split; [done|]. split; [done | lia]. }
  destruct (PlaylistItem.items pdata) as [[|p ps]|].
  1, 3: exists (mkVideoPage [] None), s1, []; simpl; (split; [done|]); split; [done | lia].
  destruct (bool_decide (videoIds (p :: ps) = "")).
  { eexists _, s1, []. simpl. split; [done|]. split; [done | lia]. }
  unfold bind at 1.
  pose proof (fetchYouTubeAPI_routerCalls (videos w) "videos"
                [("part", "snippet,statistics"); ("id", videoIds (p :: ps))] s1) as R2.
  destruct (fetchYouTubeAPI (videos w) "videos" _ s1) as [[e|vdata] s2]; simpl in R2.
  { exists (mkVideoPage [] None), s2, [("videos", [("part", "snippet,statistics");
                                                    ("id", videoIds (p :: ps))])].
    simpl. split; [done|]. rewrite R2, R, <- app_assoc. split; [done | simpl; lia]. }
  assert (C : routerCalls s2
              = routerCalls s
                ++ ("playlistItems", playlistParams playlistId maxResults pageToken)
                   :: [("videos", [("part", "snippet,statistics");
                                   ("id", videoIds (p :: ps))])]).
  { by rewrite R2, R, <- app_assoc. }
  unfold bind, deref, ret, throw.
  destruct (Video.items vdata) as [vitems|];
    [|eexists _, s2, _; split; [reflexivity|]; split; [exact C | simpl; lia]].
  destruct (mapM videoId_strict (p :: ps)) as [ids|];
    [|eexists _, s2, _; split; [reflexivity|]; split; [exact C | simpl; lia]].
  destruct (mapM (rebuild (video_map vitems)) ids) as [rebuilt|];
    eexists _, s2, _; (split; [reflexivity|]); split; (exact C || (simpl; lia)).
Qed.

Lemma recent_update_spec (id : string) (prev : list string) :
  head (recent_update id prev) = Some id
  /\ (length (recent_update id prev) <= 5)%nat
  /\ (forall x, x ∈ recent_update id prev -> x = id \/ x ∈ prev)
  /\ (id ∉ tail (recent_update id prev))
  /\ (NoDup prev -> NoDup (recent_update id prev)).
Proof.
  unfold recent_update.
  set (others := List.filter (fun rid => negb (bool_decide (rid = id))) prev).
  assert (Hin : forall x, x ∈ others -> x ∈ prev /\ x <> id).
  { intros x Hx. apply list_elem_of_In, filter_In in Hx as [Hx Hb].
    apply negb_true_iff, bool_decide_eq_false_1 in Hb. split; [by apply list_elem_of_In|done]. }
  split; [done|]. split; [rewrite length_take; lia|]. split; [|split].
  - intros x Hx. apply elem_of_take in Hx as (i & Hx & _).
    apply list_elem_of_lookup_2 in Hx. apply elem_of_cons in Hx as [->|Hx]; [by left|].
    right. by apply Hin.
  - change (take 5 (id :: others)) with (id :: take 4 others). simpl.
    intros Hx. apply elem_of_take in Hx as (i & Hx & _).
    apply list_elem_of_lookup_2 in Hx. by apply Hin in Hx as [_ ?].
  - intros ND. eapply sublist_NoDup; [|apply sublist_take]. apply NoDup_cons. split.
    + intros Hx. by apply Hin in Hx as [_ ?].
    + subst others. by apply NoDup_List_filter.
Qed.

(** X19.  Opening a channel that is not tracked, or whose first tracked
    record is terminated, changes nothing and makes no call.  Opening any
    other tracked channel puts its id at the head of the recent list, which
    keeps at most five entries, gains no entry other than that id and has no
    repetition if it had none; the dashboard ends open and not loading, on
    the tracked record with the videos of the first page of its uploads
    playlist; and the service has been called once for that page of 24
    entries and at most once more. *)
Theorem handleSelectChannel_outcome (w : World) (trackedChannels : list ChannelStats.t)
    (id : string) (d : Dashboard) (s : State) :
  let found := List.find (fun c => bool_decide (ChannelStats.id c = id)) trackedChannels in
  let out := handleSelectChannel w trackedChannels id d s in
  (found = None
   \/ (exists stats, found = Some stats
                     /\ ChannelStats.status stats = Some ChannelStats.terminated) ->
   out = (d, s))
  /\ (forall stats,
        found = Some stats ->
        ChannelStats.status stats <> Some ChannelStats.terminated ->
        ChannelStats.id stats = id
        /\ head (recentlyViewedIds out.1) = Some id
        /\ (length (recentlyViewedIds out.1) <= 5)%nat
        /\ (forall x, x ∈ recentlyViewedIds out.1 -> x = id \/ x ∈ recentlyViewedIds d)
        /\ (NoDup (recentlyViewedIds d) -> NoDup (recentlyViewedIds out.1))
        /\ isDashboardModalOpen out.1 = true
        /\ isDashboardLoading out.1 = false
        /\ (exists page,
              (getChannelVideos w (ChannelStats.uploadsPlaylistId stats) 24 None s).1
              = inr page
              /\ selectedChannel out.1 = Some (stats, page_videos page))
        /\ exists rest,
             routerCalls out.2
             = routerCalls s
               ++ ("playlistItems",
                   [("part", "snippet");
                    ("playlistId", ChannelStats.uploadsPlaylistId stats);
                    ("maxResults", "24")]) :: rest
             /\ (length rest <= 1)%nat).
Proof.
  intros found out. subst found out. split.
  - unfold handleSelectChannel. intros [-> | (stats & -> & ->)]; reflexivity.
  - intros stats E Hs.
    assert (Hid : ChannelStats.id stats = id).
    { apply find_some in E as [_ E]. by apply bool_decide_eq_true_1 in E. }
    destruct (getChannelVideos_calls w (ChannelStats.uploadsPlaylistId stats) 24 None s)
      as (page & s' & rest & Er & Hc & Hr).
    destruct (recent_update_spec id (recentlyViewedIds d)) as (R1 & R2 & R3 & _ & R5).
    assert (G : handleSelectChannel w trackedChannels id d s
                = (mkDashboard (recent_update id (recentlyViewedIds d))
                               (Some (stats, page_videos page)) true false, s')).
    { unfold handleSelectChannel. rewrite E, Er.
      by destruct (ChannelStats.status stats) as [[| |]|]. }
    rewrite G, Er. cbn [fst snd recentlyViewedIds isDashboardModalOpen isDashboardLoading
                        selectedChannel].
    do 7 (split; [done|]). split; [by exists page|]. by exists rest.
Qed.

Lemma handleSelectChannel_outcome_witness :
  let trackedChannels := [tracked "UCb" (Some ChannelStats.terminated); tracked "UCa" None] in
  let d := mkDashboard ["x"; "UCa"; "y"; "z"; "u"; "v"] None false false in
  handleSelectChannel offline trackedChannels "UCb" d two_keys = (d, two_keys)
  /\ head (recentlyViewedIds
             (handleSelectChannel offline trackedChannels "UCa" d two_keys).1) = Some "UCa"
  /\ isDashboardLoading (handleSelectChannel offline trackedChannels "UCa" d two_keys).1
     = false.
Proof.
  intros trackedChannels d. split.
  - apply (proj1 (handleSelectChannel_outcome offline trackedChannels "UCb" d two_keys)).
    right. exists (tracked "UCb" (Some ChannelStats.terminated)). by split.
  - destruct (proj2 (handleSelectChannel_outcome offline trackedChannels "UCa" d two_keys)
                (tracked "UCa" None) eq_refl ltac:(discriminate))
      as (_ & H1 & _ & _ & _ & _ & H2 & _).
    split; [exact H1 | exact H2].
Defined.

(** ** Selections *)

Lemma set_from_acc (l : list string) :
  forall acc : list string,
  NoDup acc ->
  let r := foldl (fun acc x => if bool_decide (x ∈ acc) then acc else acc ++ [x]) acc l in
  NoDup r
  /\ (forall x, x ∈ r <-> x ∈ acc \/ x ∈ l)
  /\ exists added, r = acc ++ added /\ forall x, x ∈ added -> x ∈ l /\ x ∉ acc.
Proof.
  induction l as [|y l IH]; intros acc ND; simpl.
  - split; [done|]. split.
    + intros x. split; [by left | intros [?|H]; [done | by apply elem_of_nil in H]].
    + exists []. split; [by rewrite app_nil_r|]. intros x H. by apply elem_of_nil in H.
  - destruct (bool_decide (y ∈ acc)) eqn:B.
    + apply bool_decide_eq_true_1 in B.
      destruct (IH acc ND) as (N & M & added & E & Ha).
      split; [exact N|]. split.
      * intros x. rewrite M, elem_of_cons. split; [intros [?|?]; eauto|].
        intros [?|[->|?]]; eauto.
      * exists added. split; [exact E|]. intros x Hx.
        destruct (Ha x Hx). split; [by right | done].
    + apply bool_decide_eq_false_1 in B.
      assert (ND' : NoDup (acc ++ [y])).
      { apply NoDup_app. split; [done|]. split; [|apply NoDup_singleton].
        intros x Hx Hy. apply list_elem_of_singleton in Hy. by subst. }
      destruct (IH (acc ++ [y]) ND') as (N & M & added & E & Ha).
      split; [exact N|]. split.
      * intros x. rewrite M, elem_of_app, list_elem_of_singleton, elem_of_cons.
        split; [intros [[?|?]|?]; eauto | intros [?|[?|?]]; eauto].
      * exists (y :: added). split; [by rewrite E, <- app_assoc|].
        intros x Hx. apply elem_of_cons in Hx as [->|Hx].
        -- split; [by left | done].
        -- destruct (Ha x Hx) as [H1 H2]. split; [by right|].
           intros H3. apply H2. apply elem_of_app. by left.
Qed.

Lemma set_from_NoDup (l : list string) : NoDup l -> set_from l = l.
Proof.
  intros ND. unfold set_from.
  assert (G : forall acc, NoDup (acc ++ l) ->
    foldl (fun acc x => if bool_decide (x ∈ acc) then acc else acc ++ [x]) acc l
    = acc ++ l).
  { clear ND. induction l as [|y l IH]; intros acc ND; simpl; [by rewrite app_nil_r|].
    rewrite bool_decide_eq_false_2.
    - rewrite IH; rewrite <- app_assoc; done.
    - apply NoDup_app in ND as (_ & H & _). intros Hy. apply (H y Hy). by left. }
  by apply (G []).
Qed.

(** X20.  The channel ids saved for a group after a bulk assignment have no
    repetition and are exactly the ids of the group together with the
    selected ones; when the group's ids had no repetition they keep their
    places at the front, followed by selected ids that the group did not
    have. *)
Theorem combinedChannelIds_spec (channelIds selectedChannelIds : list string) :
  NoDup (combinedChannelIds channelIds selectedChannelIds)
  /\ (forall x, x ∈ combinedChannelIds channelIds selectedChannelIds
                <-> x ∈ channelIds \/ x ∈ selectedChannelIds)
  /\ (NoDup channelIds ->
      exists added,
        combinedChannelIds channelIds selectedChannelIds = channelIds ++ added
        /\ forall x, x ∈ added -> x ∈ selectedChannelIds /\ x ∉ channelIds).
Proof.
  unfold combinedChannelIds.
  destruct (set_from_acc (channelIds ++ selectedChannelIds) [] (NoDup_nil_2))
    as (N & M & _).
  split; [exact N|]. split.
  - intros x. unfold set_from. rewrite M, elem_of_app. split; [intros [H|?]; [|done]|eauto].
    by apply elem_of_nil in H.
  - intros ND. unfold set_from. rewrite foldl_app.
    fold (set_from channelIds). rewrite (set_from_NoDup _ ND).
    destruct (set_from_acc selectedChannelIds channelIds ND) as (_ & _ & added & E & Ha).
    by exists added.
Qed.

Lemma combinedChannelIds_spec_witness :
  exists added,
    combinedChannelIds ["a"; "b"] ["c"; "a"; "c"] = ["a"; "b"] ++ added
    /\ forall x, x ∈ added -> x ∈ ["c"; "a"; "c"] /\ x ∉ ["a"; "b"].
Proof.
  refine (proj2 (proj2 (combinedChannelIds_spec ["a"; "b"] ["c"; "a"; "c"])) _).
  apply (bool_decide_unpack (NoDup ["a"; "b"])). vm_compute. exact I.
Defined.

(** X21.  Toggling an id in a selection flips the membership of that id and
    of no other, keeps a selection without repetition free of repetition,
    and puts a newly selected id last.  In the bulk menus other than the
    group menu the pending choice is always the single value chosen. *)
Theorem toggleSelection_spec (id : string) (selectedIds : list string) :
  (id ∈ toggleSelection id selectedIds <-> id ∉ selectedIds)
  /\ (forall x, x <> id -> x ∈ toggleSelection id selectedIds <-> x ∈ selectedIds)
  /\ (NoDup selectedIds -> NoDup (toggleSelection id selectedIds))
  /\ (id ∉ selectedIds -> last (toggleSelection id selectedIds) = Some id)
  /\ togglePendingValue true id selectedIds = toggleSelection id selectedIds
  /\ togglePendingValue false id selectedIds = [id].
Proof.
  unfold togglePendingValue, toggleSelection.
  assert (F : forall x, x ∈ List.filter (fun item => negb (bool_decide (item = id)))
                                       selectedIds
                        <-> x ∈ selectedIds /\ x <> id).
  { intros x. rewrite !list_elem_of_In, filter_In, negb_true_iff.
    split; intros [? H]; (split; [done|]).
    - by apply bool_decide_eq_false_1 in H.
    - by apply bool_decide_eq_false_2. }
  destruct (bool_decide (id ∈ selectedIds)) eqn:B;
    [apply bool_decide_eq_true_1 in B | apply bool_decide_eq_false_1 in B].
  - split; [rewrite F; split; [by intros [_ ?] | done]|].
    split; [intros x Hx; rewrite F; split; [by intros [? _] | done]|].
    split; [by apply NoDup_List_filter|]. by split.
  - split; [split; [done|]; intros _; apply elem_of_app; right; by left|].
    split.
    { intros x Hx. rewrite elem_of_app, list_elem_of_singleton. split; [|by left].
      by intros [?|?]. }
    split.
    { intros ND. apply NoDup_app. split; [done|]. split; [|apply NoDup_singleton].
      intros x Hx Hy. apply list_elem_of_singleton in Hy. by subst. }
    split; [intros _; apply last_snoc | done].
Qed.

Lemma toggleSelection_spec_witness :
  NoDup (toggleSelection "b" ["a"; "b"; "c"])
  /\ last (toggleSelection "d" ["a"; "b"; "c"]) = Some "d".
Proof.
  split.
  - apply (proj1 (proj2 (proj2 (toggleSelection_spec "b" ["a"; "b"; "c"])))).
    apply (bool_decide_unpack (NoDup ["a"; "b"; "c"])). vm_compute. exact I.
  - apply (proj1 (proj2 (proj2 (proj2 (toggleSelection_spec "d" ["a"; "b"; "c"]))))).
    apply (bool_decide_unpack ("d" ∉ ["a"; "b"; "c"])). vm_compute. exact I.
Defined.


